(** * A shallow embedding of the lbrosclient messaging client

    The development follows the Python sources:
    - [rosclient/zmqclient.py]                      ([create_ros_message]),
    - [rosclientmodel/lbrosclient/zmq_client.py]    (class [ZMQClient]),
    - [rosclientmodel/lbrosclient/ros_client.py]    (classes
      [FrequencyController] and [ROSBridgeClient]).

    Python values are modelled by inductive types, byte strings by lists of
    [Byte.byte], text by lists of Unicode code points, dictionaries by
    finite maps, exceptions by an error monad and the calls into the
    transport libraries by explicit event traces answered by a model of the
    world. *)

From Stdlib Require Import NArith ZArith Lia List Bool.
From Stdlib.Strings Require Import Ascii String Byte.
From Stdlib Require Import Floats DecimalString DecimalFacts DecimalN.
From stdpp Require Import base option list gmap strings.

Local Open Scope N_scope.

(** ** Python exceptions and results *)

Inductive exn : Type :=
| UnicodeEncodeError
| UnicodeDecodeError
| LookupError
| StructError
| TypeError
| ValueError
| JSONDecodeError
| KeyError
| ZMQAgain
| ZMQError
| OSError
| OverflowError
| RecursionError
| UserError.

(** [zmq.Again] is the only exception the receive paths single out; every
    constructor of [exn] is an instance of Python's [Exception]. *)
Definition is_again (e : exn) : bool :=
  match e with ZMQAgain => true | _ => false end.

Inductive res (A : Type) : Type :=
| Ok (a : A)
| Raise (e : exn).
Arguments Ok {A} a.
Arguments Raise {A} e.

Definition res_bind {A B} (m : res A) (k : A -> res B) : res B :=
  match m with Ok a => k a | Raise e => Raise e end.

#[global] Instance res_ret : MRet res := fun _ a => Ok a.
#[global] Instance res_mbind : MBind res := fun _ _ k m => res_bind m k.

(** [try: m except Exception: return d] *)
Definition except_all {A} (m : res A) (d : A) : A :=
  match m with Ok a => a | Raise _ => d end.

Inductive byteorder : Type := LittleEndian | BigEndian.

(** ** Bytes and text *)

Abbreviation bytes := (list byte).

(** A Python [str]: a sequence of code points below [0x110000]; lone
    surrogates ([0xD800]..[0xDFFF]) are legal in a [str]. *)
Abbreviation pystr := (list N).

Definition b8 (n : N) : byte :=
  match Byte.of_N (n mod 256) with Some b => b | None => x00 end.

(** Python's [len]. *)
Definition len {A} (l : list A) : N := N.of_nat (length l).

(** An ASCII literal as a Python string. *)
Definition py (s : string) : pystr :=
  map (fun a => N_of_ascii a) (list_ascii_of_string s).

Module Utf8.

(** [str.encode('utf-8')] for one code point; surrogates are refused. *)
Definition encode_char (c : N) : res bytes :=
  if c <? 0x80 then Ok [b8 c]
  else if c <? 0x800 then
    Ok [b8 (0xC0 + c / 64); b8 (0x80 + c mod 64)]
  else if c <? 0x10000 then
    if (0xD800 <=? c) && (c <=? 0xDFFF) then Raise UnicodeEncodeError
    else Ok [b8 (0xE0 + c / 4096); b8 (0x80 + (c / 64) mod 64);
             b8 (0x80 + c mod 64)]
  else if c <? 0x110000 then
    Ok [b8 (0xF0 + c / 262144); b8 (0x80 + (c / 4096) mod 64);
        b8 (0x80 + (c / 64) mod 64); b8 (0x80 + c mod 64)]
  else Raise UnicodeEncodeError.

Fixpoint encode (s : pystr) : res bytes :=
  match s with
  | [] => Ok []
  | c :: s' =>
      match encode_char c, encode s' with
      | Ok b, Ok bs => Ok (b ++ bs)
      | Raise e, _ => Raise e
      | _, Raise e => Raise e
      end
  end.

Definition is_cont (b : byte) : bool :=
  (0x80 <=? Byte.to_N b) && (Byte.to_N b <? 0xC0).

Definition cont (b : byte) : N := Byte.to_N b - 0x80.

(** [bytes.decode('utf-8')], strict: overlong forms, surrogates, code
    points above [0x10FFFF] and truncated sequences are errors. *)
Fixpoint decode (bs : bytes) : res pystr :=
  match bs with
  | [] => Ok []
  | b0 :: r0 =>
      let n0 := Byte.to_N b0 in
      if n0 <? 0x80 then
        match decode r0 with Ok s => Ok (n0 :: s) | Raise e => Raise e end
      else if n0 <? 0xC0 then Raise UnicodeDecodeError
      else
        match r0 with
        | [] => Raise UnicodeDecodeError
        | b1 :: r1 =>
            if negb (is_cont b1) then Raise UnicodeDecodeError
            else if n0 <? 0xE0 then
              let c := (n0 - 0xC0) * 64 + cont b1 in
              if c <? 0x80 then Raise UnicodeDecodeError
              else
                match decode r1 with
                | Ok s => Ok (c :: s) | Raise e => Raise e end
            else
              match r1 with
              | [] => Raise UnicodeDecodeError
              | b2 :: r2 =>
                  if negb (is_cont b2) then Raise UnicodeDecodeError
                  else if n0 <? 0xF0 then
                    let c := (n0 - 0xE0) * 4096 + cont b1 * 64 + cont b2 in
                    if (c <? 0x800) || ((0xD800 <=? c) && (c <=? 0xDFFF))
                    then Raise UnicodeDecodeError
                    else
                      match decode r2 with
                      | Ok s => Ok (c :: s) | Raise e => Raise e end
                  else
                    match r2 with
                    | [] => Raise UnicodeDecodeError
                    | b3 :: r3 =>
                        if negb (is_cont b3) then Raise UnicodeDecodeError
                        else if n0 <? 0xF8 then
                          let c := (n0 - 0xF0) * 262144 + cont b1 * 4096
                                   + cont b2 * 64 + cont b3 in
                          if (c <? 0x10000) || (0x10FFFF <? c)
                          then Raise UnicodeDecodeError
                          else
                            match decode r3 with
                            | Ok s => Ok (c :: s) | Raise e => Raise e end
                        else Raise UnicodeDecodeError
                    end
              end
        end
  end.

End Utf8.

(** ** [struct.pack] for the format codes the client uses *)

Module Struct.

Definition le32 (n : N) : bytes :=
  [b8 n; b8 (n / 256); b8 (n / 65536); b8 (n / 16777216)].

(** [struct.pack('<I', n)]: four bytes, least significant first;
    [struct.error] when [n] does not fit 32 bits. *)
Definition pack_le_I (n : N) : res bytes :=
  if n <? 2 ^ 32 then Ok (le32 n) else Raise StructError.

(** [struct.pack('I', n)]: no byte-order prefix, hence the byte order of
    the host ([sys.byteorder]). *)
Definition pack_native_I (host : byteorder) (n : N) : res bytes :=
  if n <? 2 ^ 32 then
    Ok (match host with LittleEndian => le32 n | BigEndian => rev (le32 n) end)
  else Raise StructError.

(** [int.from_bytes(b, 'little')]: the reading of a little-endian field. *)
Fixpoint uint_le (b : bytes) : N :=
  match b with
  | [] => 0
  | x :: r => Byte.to_N x + 256 * uint_le r
  end.

End Struct.

(** ** [rosclient/zmqclient.py]: [create_ros_message] *)

Module RosMessage.

(** The body of the [try] block. *)
Definition build_frames (host : byteorder) (topic_name content : pystr)
  : res (list bytes) :=
  topic_frame ← Utf8.encode topic_name;
  content_bytes ← Utf8.encode content;
  let content_length := len content_bytes in
  header ← Struct.pack_le_I content_length;
  let message_data := header ++ content_bytes in
  let data_length := len message_data in
  data_length_frame ← Struct.pack_native_I host data_length;
  mret [topic_frame; data_length_frame; message_data].

(** [create_ros_message]: any exception is logged and [None] returned. *)
Definition create_ros_message (host : byteorder) (topic_name content : pystr)
  : option (list bytes) :=
  match build_frames host topic_name content with
  | Ok frames => Some frames
  | Raise _ => None
  end.

End RosMessage.

(** ** Python values *)

(** Dictionary keys: the hashable values [json] knows how to print. *)
Inductive dkey : Type :=
| KStr (s : pystr)
| KInt (z : Z)
| KBool (b : bool)
| KNone
| KFloat (f : float).

(** Payloads: [None], [bool], [int], [float], [str], [bytes], [list] and
    [dict]; a dictionary is the list of its items in insertion order. *)
#[warnings="-register-all"]
Inductive pyval : Type :=
| PNone
| PBool (b : bool)
| PInt (z : Z)
| PFloat (f : float)
| PStr (s : pystr)
| PBytes (b : bytes)
| PList (l : list pyval)
| PDict (d : list (dkey * pyval)).

(** [x is None] *)
Definition is_none (v : pyval) : bool :=
  match v with PNone => true | _ => false end.

(** [isinstance(x, bytes)] *)
Definition is_bytes (v : pyval) : bool :=
  match v with PBytes _ => true | _ => false end.

(** [len(x)] for the sized values. *)
Definition pylen (v : pyval) : N :=
  match v with
  | PStr s => len s
  | PBytes b => len b
  | PList l => len l
  | PDict d => len d
  | _ => 0
  end.

(** [bool(x)] *)
Definition truthy (v : pyval) : bool :=
  match v with
  | PNone => false
  | PBool b => b
  | PInt z => negb (z =? 0)%Z
  | PFloat f => negb (PrimFloat.eqb f 0%float)
  | PStr s => negb (len s =? 0)
  | PBytes b => negb (len b =? 0)
  | PList l => negb (len l =? 0)
  | PDict d => negb (len d =? 0)
  end.

(** What the embedding leaves to the interpreter: how a finite float prints
    and reads (correctly rounded decimal conversion), the limit on the
    digits of an integer conversion ([sys.get_int_max_str_digits()], [0]
    for none), the builtin [str(x)], and the room its recursion limit
    leaves where the client calls [json.dumps] and [json.loads]: how deep
    lists and dictionaries may nest in the value written, and in the text
    read, before [RecursionError] ([sys.getrecursionlimit()] less the
    frames in use at the call). *)
Class PyRuntime : Type := {
  float_repr : float -> pystr;
  float_of_literal : pystr -> float;
  int_max_str_digits : N;
  py_str : pyval -> res pystr;
  dumps_depth : nat;
  loads_depth : nat
}.

(** ** The [json] module: [dumps(obj, ensure_ascii=False)] and [loads] *)

Module Json.

Section WithRuntime.
Context `{PyRuntime}.

(** *** Integers in decimal *)

Definition digit_char (n : N) : N := 48 + n.

Fixpoint uint_chars (d : Decimal.uint) : pystr :=
  match d with
  | Decimal.Nil => []
  | Decimal.D0 r => digit_char 0 :: uint_chars r
  | Decimal.D1 r => digit_char 1 :: uint_chars r
  | Decimal.D2 r => digit_char 2 :: uint_chars r
  | Decimal.D3 r => digit_char 3 :: uint_chars r
  | Decimal.D4 r => digit_char 4 :: uint_chars r
  | Decimal.D5 r => digit_char 5 :: uint_chars r
  | Decimal.D6 r => digit_char 6 :: uint_chars r
  | Decimal.D7 r => digit_char 7 :: uint_chars r
  | Decimal.D8 r => digit_char 8 :: uint_chars r
  | Decimal.D9 r => digit_char 9 :: uint_chars r
  end.

Definition is_digit (c : N) : bool := (48 <=? c) && (c <=? 57).

(** Reads a run of digit characters back. *)
Fixpoint chars_uint (s : pystr) : Decimal.uint :=
  match s with
  | [] => Decimal.Nil
  | c :: r =>
      let t := chars_uint r in
      if c =? 48 then Decimal.D0 t
      else if c =? 49 then Decimal.D1 t
      else if c =? 50 then Decimal.D2 t
      else if c =? 51 then Decimal.D3 t
      else if c =? 52 then Decimal.D4 t
      else if c =? 53 then Decimal.D5 t
      else if c =? 54 then Decimal.D6 t
      else if c =? 55 then Decimal.D7 t
      else if c =? 56 then Decimal.D8 t
      else Decimal.D9 t
  end.

(** The digit limit of [int] to [str] and [str] to [int] conversions. *)
Definition digits_allowed (digits : pystr) : bool :=
  (int_max_str_digits =? 0) || (len digits <=? int_max_str_digits).

(** [int.__repr__] *)
Definition int_repr (z : Z) : res pystr :=
  let digits := uint_chars (N.to_uint (Z.abs_N z)) in
  if digits_allowed digits then
    Ok (if (z <? 0)%Z then 45 :: digits else digits)
  else Raise ValueError.

(** [int(text)] for an optional minus sign and a run of digits. *)
Definition int_of_literal (neg : bool) (digits : pystr) : res Z :=
  if digits_allowed digits then
    let n := Z.of_N (N.of_uint (chars_uint digits)) in
    Ok (if neg then (- n)%Z else n)
  else Raise ValueError.

(** *** Encoding *)

Definition hex_char (n : N) : N := if n <? 10 then 48 + n else 87 + n.

(** [ESCAPE_DCT]: the replacement of a character that [ESCAPE] matches. *)
Definition escape_char (c : N) : pystr :=
  if c =? 34 then [92; 34]
  else if c =? 92 then [92; 92]
  else if c =? 10 then [92; 110]
  else if c =? 13 then [92; 114]
  else if c =? 9 then [92; 116]
  else if c =? 8 then [92; 98]
  else if c =? 12 then [92; 102]
  else if c <? 32 then [92; 117; 48; 48; hex_char (c / 16); hex_char (c mod 16)]
  else [c].

(** [encode_basestring] *)
Definition encode_basestring (s : pystr) : pystr :=
  34 :: flat_map escape_char s ++ [34].

(** [floatstr] with [allow_nan=True]. *)
Definition floatstr (f : float) : pystr :=
  if negb (PrimFloat.eqb f f) then py "NaN"
  else if PrimFloat.eqb f infinity then py "Infinity"
  else if PrimFloat.eqb f neg_infinity then py "-Infinity"
  else float_repr f.

(** The text of a dictionary key, before quoting. *)
Definition key_text (k : dkey) : res pystr :=
  match k with
  | KStr s => Ok s
  | KFloat f => Ok (floatstr f)
  | KBool true => Ok (py "true")
  | KBool false => Ok (py "false")
  | KNone => Ok (py "null")
  | KInt z => int_repr z
  end.

(** [', '.join(items)] *)
Fixpoint join_comma (items : list pystr) : pystr :=
  match items with
  | [] => []
  | [x] => x
  | x :: r => x ++ 44 :: 32 :: join_comma r
  end.

(** The encoder.  Entering a list or a dictionary takes a level of the
    interpreter's stack ([Py_EnterRecursiveCall]); [room] is the number of
    levels left, and none left is [RecursionError]. *)
Fixpoint dumps_at (room : nat) (v : pyval) {struct v} : res pystr :=
  match v with
  | PNone => Ok (py "null")
  | PBool true => Ok (py "true")
  | PBool false => Ok (py "false")
  | PInt z => int_repr z
  | PFloat f => Ok (floatstr f)
  | PStr s => Ok (encode_basestring s)
  | PBytes _ => Raise TypeError
  | PList l =>
      match room with
      | O => Raise RecursionError
      | S room' =>
          items ← (fix each (l : list pyval) : res (list pystr) :=
                     match l with
                     | [] => Ok []
                     | x :: r =>
                         tx ← dumps_at room' x; tr ← each r; mret (tx :: tr)
                     end) l;
          mret (91 :: join_comma items ++ [93])
      end
  | PDict d =>
      match room with
      | O => Raise RecursionError
      | S room' =>
          items ← (fix each (d : list (dkey * pyval)) : res (list pystr) :=
                     match d with
                     | [] => Ok []
                     | (k, x) :: r =>
                         tk ← key_text k;
                         tx ← dumps_at room' x;
                         tr ← each r;
                         mret ((encode_basestring tk ++ 58 :: 32 :: tx) :: tr)
                     end) d;
          mret (123 :: join_comma items ++ [125])
      end
  end.

(** [json.dumps(obj, ensure_ascii=False)], where the client calls it. *)
Definition dumps (v : pyval) : res pystr := dumps_at dumps_depth v.

(** *** Decoding *)

Definition is_ws (c : N) : bool :=
  (c =? 32) || (c =? 9) || (c =? 10) || (c =? 13).

(** [WHITESPACE.match(s, idx).end()] *)
Fixpoint skip_ws (s : pystr) : pystr :=
  match s with
  | c :: r => if is_ws c then skip_ws r else s
  | [] => []
  end.

Definition hexval (c : N) : option N :=
  if (48 <=? c) && (c <=? 57) then Some (c - 48)
  else if (65 <=? c) && (c <=? 70) then Some (c - 55)
  else if (97 <=? c) && (c <=? 102) then Some (c - 87)
  else None.

(** [int(esc, 16)] when [HEXDIGITS] matches four characters. *)
Definition hex4 (a b c d : N) : option N :=
  x ← hexval a; y ← hexval b; z ← hexval c; w ← hexval d;
  Some (((x * 16 + y) * 16 + z) * 16 + w).

(** [BACKSLASH]: the one-character escapes. *)
Definition backslash (esc : N) : option N :=
  if esc =? 34 then Some 34
  else if esc =? 92 then Some 92
  else if esc =? 47 then Some 47
  else if esc =? 98 then Some 8
  else if esc =? 102 then Some 12
  else if esc =? 110 then Some 10
  else if esc =? 114 then Some 13
  else if esc =? 116 then Some 9
  else None.

Definition cons_fst {A B} (a : A) (r : res (list A * B)) : res (list A * B) :=
  match r with Ok (l, b) => Ok (a :: l, b) | Raise e => Raise e end.

(** [py_scanstring(s, end, strict=True)], entered after the opening quote:
    the decoded string and the text after the closing quote. *)
Fixpoint scanstring (s : pystr) : res (pystr * pystr) :=
  match s with
  | [] => Raise JSONDecodeError
  | c :: r =>
      if c =? 34 then Ok ([], r)
      else if c =? 92 then
        match r with
        | [] => Raise JSONDecodeError
        | esc :: r1 =>
            if esc =? 117 then
              match r1 with
              | h1 :: h2 :: h3 :: h4 :: r5 =>
                  match hex4 h1 h2 h3 h4 with
                  | None => Raise JSONDecodeError
                  | Some uni =>
                      match r5 with
                      | b :: u :: r7 =>
                          if (0xD800 <=? uni) && (uni <=? 0xDBFF)
                             && (b =? 92) && (u =? 117) then
                            match r7 with
                            | g1 :: g2 :: g3 :: g4 :: r11 =>
                                match hex4 g1 g2 g3 g4 with
                                | None => Raise JSONDecodeError
                                | Some uni2 =>
                                    if (0xDC00 <=? uni2) && (uni2 <=? 0xDFFF)
                                    then
                                      cons_fst
                                        (0x10000 + ((uni - 0xD800) * 1024
                                                    + (uni2 - 0xDC00)))
                                        (scanstring r11)
                                    else cons_fst uni (scanstring r5)
                                end
                            | _ => Raise JSONDecodeError
                            end
                          else cons_fst uni (scanstring r5)
                      | _ => cons_fst uni (scanstring r5)
                      end
                  end
              | _ => Raise JSONDecodeError
              end
            else
              match backslash esc with
              | Some ch => cons_fst ch (scanstring r1)
              | None => Raise JSONDecodeError
              end
        end
      else if c <? 32 then Raise JSONDecodeError
      else cons_fst c (scanstring r)
  end.

(** The longest prefix of digits and what follows it. *)
Fixpoint span_digits (s : pystr) : pystr * pystr :=
  match s with
  | c :: r =>
      if is_digit c then let (ds, t) := span_digits r in (c :: ds, t)
      else ([], s)
  | [] => ([], [])
  end.

(** The integer group of [NUMBER_RE], after the optional minus sign:
    [0|[1-9][0-9]*]. *)
Definition match_integer (s : pystr) : option (pystr * pystr) :=
  match s with
  | c :: r =>
      if c =? 48 then Some ([48], r)
      else if is_digit c then
        let (ds, t) := span_digits r in Some (c :: ds, t)
      else None
  | [] => None
  end.

(** The fraction group [(\.[0-9]+)?]. *)
Definition match_frac (s : pystr) : pystr * pystr :=
  match s with
  | 46 :: r =>
      match span_digits r with
      | ([], _) => ([], s)
      | (ds, t) => (46 :: ds, t)
      end
  | _ => ([], s)
  end.

(** The exponent group [([eE][-+]?[0-9]+)?]. *)
Definition match_exp (s : pystr) : pystr * pystr :=
  match s with
  | e :: r =>
      if (e =? 101) || (e =? 69) then
        let (sign, r') :=
          match r with
          | g :: r1 => if (g =? 45) || (g =? 43) then ([g], r1) else ([], r)
          | [] => ([], r)
          end in
        match span_digits r' with
        | ([], _) => ([], s)
        | (ds, t) => (e :: sign ++ ds, t)
        end
      else ([], s)
  | [] => ([], s)
  end.

(** [match_number] and the conversion of what it matched. *)
Definition scan_number (s : pystr) : option (res (pyval * pystr)) :=
  let (neg, s1) :=
    match s with
    | 45 :: r => (true, r)
    | _ => (false, s)
    end in
  match match_integer s1 with
  | None => None
  | Some (digits, t) =>
      let (frac, t1) := match_frac t in
      let (exp, t2) := match_exp t1 in
      Some
        (match frac, exp with
         | [], [] =>
             z ← int_of_literal neg digits; mret (PInt z, t2)
         | _, _ =>
             let text := (if neg then [45] else []) ++ digits ++ frac ++ exp in
             Ok (PFloat (float_of_literal text), t2)
         end)
  end.

(** [s[idx:idx + len(word)] == word] *)
Fixpoint starts_with (word s : pystr) : option pystr :=
  match word, s with
  | [], _ => Some s
  | w :: word', c :: s' => if w =? c then starts_with word' s' else None
  | _ :: _, [] => None
  end.

(** [dict(pairs)]: a repeated key keeps its first place and takes the
    last value. *)
Fixpoint dict_set (k : pystr) (v : pyval) (d : list (dkey * pyval))
  : list (dkey * pyval) :=
  match d with
  | [] => [(KStr k, v)]
  | (KStr k', v') :: r =>
      if decide (k' = k) then (KStr k', v) :: r
      else (KStr k', v') :: dict_set k v r
  | kv :: r => kv :: dict_set k v r
  end.

Definition dict_of_pairs (pairs : list (pystr * pyval)) : list (dkey * pyval) :=
  fold_left (fun d kv => dict_set kv.1 kv.2 d) pairs [].

(** The loop of [JSONArray] after the first value has been asked for:
    [scan] reads one value, [fuel] bounds the number of items. *)
Fixpoint array_items (scan : pystr -> res (pyval * pystr)) (fuel : nat)
  (s : pystr) : res (list pyval * pystr) :=
  match fuel with
  | O => Raise RecursionError
  | S fuel' =>
      '(v, r) ← scan s;
      match skip_ws r with
      | 93 :: r' => Ok ([v], r')
      | 44 :: r' => cons_fst v (array_items scan fuel' (skip_ws r'))
      | _ => Raise JSONDecodeError
      end
  end.

(** The loop of [JSONObject], entered after the opening quote of a key. *)
Fixpoint object_items (scan : pystr -> res (pyval * pystr)) (fuel : nat)
  (s : pystr) : res (list (pystr * pyval) * pystr) :=
  match fuel with
  | O => Raise RecursionError
  | S fuel' =>
      '(key, r) ← scanstring s;
      match skip_ws r with
      | 58 :: r1 =>
          '(v, r2) ← scan (skip_ws r1);
          match skip_ws r2 with
          | 125 :: r' => Ok ([(key, v)], r')
          | 44 :: r' =>
              match skip_ws r' with
              | 34 :: r'' => cons_fst (key, v) (object_items scan fuel' r'')
              | _ => Raise JSONDecodeError
              end
          | _ => Raise JSONDecodeError
          end
      | _ => Raise JSONDecodeError
      end
  end.

(** [scan_once]: one JSON value at the head of [s].  Entering an object
    or an array takes a level of the interpreter's stack
    ([Py_EnterRecursiveCall]): [room] is the number of levels left, and
    none left is [RecursionError].  [fuel] only makes the recursion
    structural: it bounds the characters read, and [loads] gives more of it
    than the text has characters. *)
Fixpoint scan_once (fuel room : nat) (s : pystr) : res (pyval * pystr) :=
  match fuel with
  | O => Raise RecursionError
  | S fuel' =>
      match s with
      | [] => Raise JSONDecodeError
      | c :: r =>
          if c =? 34 then
            '(str, r') ← scanstring r; mret (PStr str, r')
          else if c =? 123 then
            match room with
            | O => Raise RecursionError
            | S room' =>
                match skip_ws r with
                | 125 :: r' => Ok (PDict [], r')
                | 34 :: r' =>
                    '(pairs, r'') ←
                      object_items (scan_once fuel' room') fuel' r';
                    mret (PDict (dict_of_pairs pairs), r'')
                | _ => Raise JSONDecodeError
                end
            end
          else if c =? 91 then
            match room with
            | O => Raise RecursionError
            | S room' =>
                match skip_ws r with
                | 93 :: r' => Ok (PList [], r')
                | r' =>
                    '(items, r'') ←
                      array_items (scan_once fuel' room') fuel' r';
                    mret (PList items, r'')
                end
            end
          else
            match starts_with (py "null") s with
            | Some r' => Ok (PNone, r')
            | None =>
            match starts_with (py "true") s with
            | Some r' => Ok (PBool true, r')
            | None =>
            match starts_with (py "false") s with
            | Some r' => Ok (PBool false, r')
            | None =>
            match scan_number s with
            | Some result => result
            | None =>
            match starts_with (py "NaN") s with
            | Some r' => Ok (PFloat nan, r')
            | None =>
            match starts_with (py "Infinity") s with
            | Some r' => Ok (PFloat infinity, r')
            | None =>
            match starts_with (py "-Infinity") s with
            | Some r' => Ok (PFloat neg_infinity, r')
            | None => Raise JSONDecodeError
            end end end end end end end
      end
  end.

(** [json.loads(s)] for a [str], where the client calls it: no byte-order
    mark, one value between optional whitespace, nothing after it. *)
Definition loads (s : pystr) : res pyval :=
  match s with
  | 0xFEFF :: _ => Raise JSONDecodeError
  | _ =>
      '(obj, r) ← scan_once (S (length s)) loads_depth (skip_ws s);
      match skip_ws r with
      | [] => Ok obj
      | _ => Raise JSONDecodeError
      end
  end.

End WithRuntime.

End Json.

(** ** Methods: state and exceptions

    A method takes the state of its object and of the world around it and
    returns a value or raises, leaving a new state either way. *)

Definition SE (S A : Type) : Type := S -> res A * S.

Definition ret {S A} (a : A) : SE S A := fun st => (Ok a, st).

Definition bind {S A B} (m : SE S A) (k : A -> SE S B) : SE S B :=
  fun st => match m st with
            | (Ok a, st') => k a st'
            | (Raise e, st') => (Raise e, st')
            end.

#[global] Instance SE_ret {S} : MRet (SE S) := fun _ a => ret a.
#[global] Instance SE_bind {S} : MBind (SE S) := fun _ _ k m => bind m k.

Definition raise {S A} (e : exn) : SE S A := fun st => (Raise e, st).

(** A pure computation that may raise. *)
Definition lift {S A} (r : res A) : SE S A := fun st => (r, st).

Definition gets {S A} (f : S -> A) : SE S A := fun st => (Ok (f st), st).

Definition modify {S} (f : S -> S) : SE S unit := fun st => (Ok tt, f st).

(** [try: m  except Exception as e: h e] *)
Definition try_except {S A} (m : SE S A) (h : exn -> SE S A) : SE S A :=
  fun st => match m st with
            | (Ok a, st') => (Ok a, st')
            | (Raise e, st') => h e st'
            end.

(** What an iteration of a loop tells its [while]. *)
Inductive flow : Type := Continue | Break.

Inductive level : Type := DEBUG | INFO | WARNING | ERROR.

(** ** [time.sleep]

    [time.sleep(seconds)] checks its argument before anything waits: NaN
    is a [ValueError]; a duration that, in nanoseconds, lies beyond the 64
    bits of the clock is an [OverflowError]; a negative one is a
    [ValueError].  Negative zero is zero.  A duration that passes is the
    platform's to wait for, or to refuse: so it is with the one of exactly
    [2^63] nanoseconds, at the edge of the clock's range. *)
Definition is_nan (f : float) : bool := negb (PrimFloat.eqb f f).

Definition sleep_argument (seconds : float) : res unit :=
  let ns := PrimFloat.mul seconds 1e9 in
  if is_nan seconds then Raise ValueError
  else if PrimFloat.ltb ns (-0x1p63) || PrimFloat.ltb 0x1p63 ns
       then Raise OverflowError
  else if PrimFloat.ltb seconds 0 then Raise ValueError
  else Ok tt.

(** ** [zmq_client.py]: class [ZMQClient] *)

Module ZMQ.

Inductive socket_type : Type := REQ | REP | PUB | SUB | PUSH | PULL.

Definition is_REP (ty : socket_type) : bool :=
  match ty with REP => true | _ => false end.

(** The codecs the model covers: utf-8, ascii and latin-1.
    [UnknownEncoding] is a name that the codec registry does not know; the
    other codecs of the registry are outside the model. *)
Inductive encoding : Type := UTF8 | ASCII | LATIN1 | UnknownEncoding.

(** [s.encode(encoding)] *)
Definition str_encode (enc : encoding) (s : pystr) : res bytes :=
  match enc with
  | UTF8 => Utf8.encode s
  | ASCII =>
      if forallb (fun c => c <? 128) s then Ok (map b8 s)
      else Raise UnicodeEncodeError
  | LATIN1 =>
      if forallb (fun c => c <? 256) s then Ok (map b8 s)
      else Raise UnicodeEncodeError
  | UnknownEncoding => Raise LookupError
  end.

(** [b.decode(encoding)] *)
Definition bytes_decode (enc : encoding) (b : bytes) : res pystr :=
  match enc with
  | UTF8 => Utf8.decode b
  | ASCII =>
      if forallb (fun x => Byte.to_N x <? 128) b then Ok (map Byte.to_N b)
      else Raise UnicodeDecodeError
  | LATIN1 => Ok (map Byte.to_N b)
  | UnknownEncoding => Raise LookupError
  end.

Abbreviation handle := nat.

Inductive thread : Type :=
| SubscriberLoop (socket_name : string)
| ServerLoop (socket_name : string).

(** What a call into a library answers. *)
Inductive outcome : Type :=
| Succeeds
| Fails (e : exn)
| Delivers (msg : bytes)
| DeliversParts (parts : list bytes)
| Code (c : Z).

(** The observable actions of the client, in the order they happen. *)
Inductive event : Type :=
| Log (lvl : level) (tag : string)
| CtxSocket (ty : socket_type) (h : handle)
| SetSockOpt (h : handle) (option : string) (value : Z)
| Subscribe (h : handle) (topic : string)
| Connect (h : handle) (endpoint : string)
| Close (h : handle)
| Release (h : handle)
| Send (h : handle) (msg : bytes)
| Recv (h : handle)
| RecvMultipart (h : handle)
| Probe (host : string) (port : N)
| Sleep (seconds : float)
| Callback (arg : pyval)
| Handler (arg : pyval)
| Spawn (t : thread).

(** A socket object of the [zmq] context. *)
Record sock : Type := {
  sock_type : socket_type;
  sock_closed : bool
}.

(** The attributes [_apply_config] sets. *)
Record config : Type := {
  default_host : string;
  default_port : N;
  linger_time : Z;
  high_water_mark : Z;
  receive_timeout : Z;
  send_timeout : Z;
  connectivity_check_enabled : bool;
  show_connection_status : bool;
  show_message_content : bool;
  max_message_length : N;
  message_processing_sleep : float;
  message_format : string;
  encoding_name : encoding;
  continue_on_error : bool
}.

(** The client ([self]) together with the sockets of its context, the
    trace of its actions and the world around it: what each library call
    answers, given the actions so far. *)
Record state : Type := {
  cfg : config;
  sockets : gmap string handle;
  running : bool;
  threads : list thread;
  connected_endpoints : list string;
  objects : list sock;
  trace : list event;
  world : list event -> event -> outcome
}.

Definition set_cfg (c : config) (st : state) : state :=
  {| cfg := c; sockets := sockets st; running := running st;
     threads := threads st; connected_endpoints := connected_endpoints st;
     objects := objects st; trace := trace st; world := world st |}.

Definition set_sockets (m : gmap string handle) (st : state) : state :=
  {| cfg := cfg st; sockets := m; running := running st;
     threads := threads st; connected_endpoints := connected_endpoints st;
     objects := objects st; trace := trace st; world := world st |}.

Definition set_running (b : bool) (st : state) : state :=
  {| cfg := cfg st; sockets := sockets st; running := b;
     threads := threads st; connected_endpoints := connected_endpoints st;
     objects := objects st; trace := trace st; world := world st |}.

Definition set_threads (l : list thread) (st : state) : state :=
  {| cfg := cfg st; sockets := sockets st; running := running st;
     threads := l; connected_endpoints := connected_endpoints st;
     objects := objects st; trace := trace st; world := world st |}.

Definition set_connected_endpoints (l : list string) (st : state) : state :=
  {| cfg := cfg st; sockets := sockets st; running := running st;
     threads := threads st; connected_endpoints := l;
     objects := objects st; trace := trace st; world := world st |}.

Definition set_objects (l : list sock) (st : state) : state :=
  {| cfg := cfg st; sockets := sockets st; running := running st;
     threads := threads st; connected_endpoints := connected_endpoints st;
     objects := l; trace := trace st; world := world st |}.

Definition set_trace (l : list event) (st : state) : state :=
  {| cfg := cfg st; sockets := sockets st; running := running st;
     threads := threads st; connected_endpoints := connected_endpoints st;
     objects := objects st; trace := l; world := world st |}.

Definition set_host_port_cfg (host : string) (port : N) (c : config) : config :=
  {| default_host := host; default_port := port;
     linger_time := linger_time c; high_water_mark := high_water_mark c;
     receive_timeout := receive_timeout c; send_timeout := send_timeout c;
     connectivity_check_enabled := connectivity_check_enabled c;
     show_connection_status := show_connection_status c;
     show_message_content := show_message_content c;
     max_message_length := max_message_length c;
     message_processing_sleep := message_processing_sleep c;
     message_format := message_format c;
     encoding_name := encoding_name c;
     continue_on_error := continue_on_error c |}.

Abbreviation M := (SE state).

Definition emit (e : event) : M unit :=
  modify (fun st => set_trace (trace st ++ [e]) st).

Definition log (lvl : level) (tag : string) : M unit := emit (Log lvl tag).

(** A library call: the action is recorded and the world answers. *)
Definition call (e : event) : M outcome :=
  before ← gets trace;
  emit e;;
  answer ← gets world;
  ret (answer before e).

(** A call that either succeeds or raises. *)
Definition call_unit (e : event) : M unit :=
  o ← call e;
  match o with Fails x => raise x | _ => ret tt end.

(** *** Library calls on sockets *)

Definition is_open (h : handle) (st : state) : bool :=
  match objects st !! h with
  | Some s => negb (sock_closed s)
  | None => false
  end.

(** A call on a socket: [ZMQError] on a closed socket. *)
Definition on_socket {A} (h : handle) (m : M A) : M A :=
  alive ← gets (is_open h);
  if alive : bool then m else raise ZMQError.

(** [context.socket(ty)] *)
Definition ctx_socket (ty : socket_type) : M handle :=
  h ← gets (fun st => length (objects st));
  call_unit (CtxSocket ty h);;
  modify (fun st =>
            set_objects
              (objects st ++ [{| sock_type := ty; sock_closed := false |}]) st);;
  ret h.

Definition setsockopt (h : handle) (option : string) (value : Z) : M unit :=
  on_socket h (call_unit (SetSockOpt h option value)).

Definition sock_subscribe (h : handle) (topic : string) : M unit :=
  on_socket h (call_unit (Subscribe h topic)).

Definition sock_connect (h : handle) (endpoint : string) : M unit :=
  on_socket h (call_unit (Connect h endpoint)).

(** [socket.close()]: closing a closed socket is allowed. *)
Definition sock_close (h : handle) : M unit :=
  call_unit (Close h);;
  modify (fun st =>
            set_objects
              (alter (fun s => {| sock_type := sock_type s;
                                  sock_closed := true |}) h (objects st)) st).

(** The registry lets go of a socket object.  When that was the last
    reference to it the object is finalized, and the finalizer of a [zmq]
    socket closes a socket that is still open; an exception raised in a
    finalizer goes no further.  Who else holds the socket is not the
    client's to know ([create_socket] hands it to its caller): the world
    answers, [Succeeds] for nobody. *)
Definition release (h : handle) : M unit :=
  o ← call (Release h);
  match o with
  | Succeeds =>
      alive ← gets (is_open h);
      if alive : bool then try_except (sock_close h) (fun _ => ret tt)
      else ret tt
  | _ => ret tt
  end.

(** [time.sleep(seconds)]: the argument is checked, then the platform
    waits; it may refuse a duration its timers cannot take. *)
Definition time_sleep (seconds : float) : M unit :=
  lift (sleep_argument seconds);;
  call_unit (Sleep seconds).

Definition sock_send (h : handle) (msg : bytes) : M unit :=
  on_socket h (call_unit (Send h msg)).

(** [socket.recv(flags)]: [zmq.Again] when no message is there. *)
Definition sock_recv (h : handle) : M bytes :=
  on_socket h
    (o ← call (Recv h);
     match o with
     | Delivers msg => ret msg
     | Fails x => raise x
     | _ => raise ZMQAgain
     end).

Definition sock_recv_multipart (h : handle) : M (list bytes) :=
  on_socket h
    (o ← call (RecvMultipart h);
     match o with
     | DeliversParts parts => ret parts
     | Delivers msg => ret [msg]
     | Fails x => raise x
     | _ => raise ZMQAgain
     end).

(** [self.sockets[socket_name]] *)
Definition socket_of (socket_name : string) : M handle :=
  m ← gets sockets;
  match m !! socket_name with
  | Some h => ret h
  | None => raise KeyError
  end.

Section WithRuntime.
Context `{PyRuntime}.

(** *** Host, port and the reachability probe *)

Definition set_host_port (host : string) (port : N) : M unit :=
  modify (fun st => set_cfg (set_host_port_cfg host port (cfg st)) st);;
  log DEBUG "host and port updated".

(** [socket.connect_ex] on a fresh TCP socket with a timeout. *)
Definition tcp_probe (host : string) (port : N) : M Z :=
  o ← call (Probe host port);
  match o with
  | Code c => ret c
  | Fails x => raise x
  | _ => ret 0%Z
  end.

Definition check_network_connectivity (host : option string) (port : option N)
  : M bool :=
  enabled ← gets (fun st => connectivity_check_enabled (cfg st));
  if negb enabled then ret true
  else
    dh ← gets (fun st => default_host (cfg st));
    dp ← gets (fun st => default_port (cfg st));
    let host := match host with
                | Some x => if decide (x = "") then dh else x
                | None => dh
                end in
    let port := match port with
                | Some p => if p =? 0 then dp else p
                | None => dp
                end in
    try_except
      (log DEBUG "checking connectivity";;
       result ← tcp_probe host port;
       if (result =? 0)%Z then
         log DEBUG "network reachable";; ret true
       else
         log WARNING "cannot reach host";; ret false)
      (fun _ => log ERROR "connectivity check failed";; ret false).

(** *** The registry *)

Definition _configure_socket (h : handle) : M unit :=
  try_except
    (c ← gets cfg;
     setsockopt h "LINGER" (linger_time c);;
     setsockopt h "SNDHWM" (high_water_mark c);;
     setsockopt h "RCVHWM" (high_water_mark c);;
     (if (0 <? receive_timeout c)%Z
      then setsockopt h "RCVTIMEO" (receive_timeout c) else ret tt);;
     (if (0 <? send_timeout c)%Z
      then setsockopt h "SNDTIMEO" (send_timeout c) else ret tt))
    (fun _ => log ERROR "configuring the socket failed").

Definition name_given (socket_name : option string) : option string :=
  match socket_name with
  | Some n => if decide (n = "") then None else Some n
  | None => None
  end.

(** [create_socket].  [self.sockets[socket_name] = socket_obj] replaces
    whatever the name held: the registry lets go of that socket, itself
    closing nothing. *)
Definition create_socket (ty : socket_type) (socket_name : option string)
  : M (option handle) :=
  try_except
    (socket_obj ← ctx_socket ty;
     _configure_socket socket_obj;;
     match name_given socket_name with
     | Some n =>
         held ← gets (fun st => sockets st !! n);
         modify (fun st => set_sockets (<[n := socket_obj]> (sockets st)) st);;
         match held with
         | Some old =>
             if decide (old = socket_obj) then ret tt else release old
         | None => ret tt
         end;;
         log DEBUG "socket created"
     | None => ret tt
     end;;
     ret (Some socket_obj))
    (fun _ => log ERROR "creating the socket failed";; ret None).

Definition connect_socket (h : handle) (endpoint : string) : M bool :=
  try_except
    (sock_connect h endpoint;;
     modify (fun st =>
               set_connected_endpoints
                 (if decide (endpoint ∈ connected_endpoints st)
                  then connected_endpoints st
                  else connected_endpoints st ++ [endpoint]) st);;
     shown ← gets (fun st => show_connection_status (cfg st));
     (if shown : bool then log DEBUG "socket connected" else ret tt);;
     ret true)
    (fun _ => log ERROR "connecting the socket failed";; ret false).

Definition close_socket (socket_name : string) : M bool :=
  try_except
    (m ← gets sockets;
     match m !! socket_name with
     | Some h =>
         sock_close h;;
         modify (fun st => set_sockets (delete socket_name (sockets st)) st);;
         log DEBUG "socket closed";;
         ret true
     | None =>
         log WARNING "no such socket";; ret false
     end)
    (fun _ => log ERROR "closing the socket failed";; ret false).

(** *** The codec *)

(** The [try] block of [_serialize_message]. *)
Definition serialize_payload (c : config) (data : pyval) : res bytes :=
  let encode := str_encode (encoding_name c) in
  if decide (message_format c = "json") then
    json_str ← Json.dumps data; encode json_str
  else if decide (message_format c = "string") then
    match data with
    | PStr s => encode s
    | _ => text ← py_str data; encode text
    end
  else if decide (message_format c = "bytes") then
    match data with
    | PBytes b => Ok b
    | _ => text ← py_str data; encode text
    end
  else
    json_str ← Json.dumps data; encode json_str.

Definition _serialize_message (data : pyval) : M bytes :=
  try_except
    (c ← gets cfg; lift (serialize_payload c data))
    (fun _ => log ERROR "serialization failed";; ret []).

(** The [try] block of [_deserialize_message]; the unknown format has a
    [try] of its own, whose bare [except] decodes the bytes as text. *)
Definition deserialize_payload (c : config) (data : bytes) : res pyval :=
  let decode := bytes_decode (encoding_name c) in
  if decide (message_format c = "json") then
    json_str ← decode data; Json.loads json_str
  else if decide (message_format c = "string") then
    text ← decode data; mret (PStr text)
  else if decide (message_format c = "bytes") then
    Ok (PBytes data)
  else
    match json_str ← decode data; Json.loads json_str with
    | Ok v => Ok v
    | Raise _ => text ← decode data; mret (PStr text)
    end.

Definition _deserialize_message (data : bytes) : M pyval :=
  try_except
    (c ← gets cfg; lift (deserialize_payload c data))
    (fun _ => log ERROR "deserialization failed";; ret PNone).

(** The debug line after a message went through; [str(data)] is computed
    only when contents are shown. *)
Definition log_message (tag : string) (data : list pyval) : M unit :=
  shown ← gets (fun st => show_message_content (cfg st));
  if shown : bool then
    mapM (fun d => lift (py_str d)) data;;
    log DEBUG tag
  else log DEBUG tag.

(** *** Sending and receiving *)

Definition send_message (socket_name : string) (data : pyval) : M bool :=
  try_except
    (m ← gets sockets;
     match m !! socket_name with
     | None => log ERROR "no such socket";; ret false
     | Some h =>
         message_bytes ← _serialize_message data;
         match message_bytes with
         | [] => ret false
         | _ =>
             sock_send h message_bytes;;
             log_message "message sent" [data];;
             ret true
         end
     end)
    (fun _ => log ERROR "sending failed";; ret false).

Definition receive_message (socket_name : string) : M pyval :=
  try_except
    (m ← gets sockets;
     match m !! socket_name with
     | None => log ERROR "no such socket";; ret PNone
     | Some h =>
         message_bytes ← sock_recv h;
         data ← _deserialize_message message_bytes;
         log_message "message received" [data];;
         ret data
     end)
    (fun e =>
       if is_again e then ret PNone
       else log ERROR "receiving failed";; ret PNone).

Definition receive_multipart_message (socket_name : string)
  : M (list pyval) :=
  try_except
    (m ← gets sockets;
     match m !! socket_name with
     | None => log ERROR "no such socket";; ret []
     | Some h =>
         message_parts ← sock_recv_multipart h;
         data_parts ← mapM _deserialize_message message_parts;
         log_message "multipart message received" data_parts;;
         ret data_parts
     end)
    (fun e =>
       if is_again e then ret []
       else log ERROR "receiving multipart failed";; ret []).

(** *** Client-role sockets *)

Definition port_text (port : N) : string :=
  NilEmpty.string_of_uint (N.to_uint port).

Definition tcp_endpoint (host : string) (port : N) : string :=
  String.append "tcp://"
    (String.append host (String.append ":" (port_text port))).

Definition default_endpoint : M string :=
  c ← gets cfg; ret (tcp_endpoint (default_host c) (default_port c)).

Definition endpoint_or_default (endpoint : option string) : M string :=
  match endpoint with
  | Some e => if decide (e = "") then default_endpoint else ret e
  | None => default_endpoint
  end.

Definition create_req_client (endpoint : option string) (socket_name : string)
  : M bool :=
  try_except
    (endpoint ← endpoint_or_default endpoint;
     socket_obj ← create_socket REQ (Some socket_name);
     match socket_obj with
     | None => ret false
     | Some h => connect_socket h endpoint
     end)
    (fun _ => log ERROR "creating the REQ client failed";; ret false).

Definition create_sub_client (endpoint : option string) (socket_name : string)
  (topics : list string) : M bool :=
  try_except
    (endpoint ← endpoint_or_default endpoint;
     socket_obj ← create_socket SUB (Some socket_name);
     match socket_obj with
     | None => ret false
     | Some h =>
         match topics with
         | [] => sock_subscribe h "";; log DEBUG "subscribed to everything"
         | _ =>
             mapM (fun topic =>
                     sock_subscribe h topic;; log DEBUG "subscribed") topics;;
             ret tt
         end;;
         connect_socket h endpoint
     end)
    (fun _ => log ERROR "creating the SUB client failed";; ret false).

Definition create_push_client (endpoint : option string) (socket_name : string)
  : M bool :=
  try_except
    (endpoint ← endpoint_or_default endpoint;
     socket_obj ← create_socket PUSH (Some socket_name);
     match socket_obj with
     | None => ret false
     | Some h => connect_socket h endpoint
     end)
    (fun _ => log ERROR "creating the PUSH client failed";; ret false).

(** *** Loops *)

(** The thread is started and remembered; its body runs on its own. *)
Definition start_thread (t : thread) : M unit :=
  emit (Spawn t);;
  modify (fun st => set_threads (threads st ++ [t]) st).

Definition sleep_between_messages : M unit :=
  d ← gets (fun st => message_processing_sleep (cfg st));
  time_sleep d.

(** [x and (not isinstance(x, bytes) or len(x) > 0)] *)
Definition usable_override (v : pyval) : bool :=
  truthy v && (negb (is_bytes v) || (0 <? pylen v)).

(** [x is not None and (not isinstance(x, bytes) or len(x) > 0)] *)
Definition deliverable (v : pyval) : bool :=
  negb (is_none v) && (negb (is_bytes v) || (0 <? pylen v)).

Definition invoke_callback (callback : pyval -> res unit) (v : pyval)
  : M unit :=
  emit (Callback v);; lift (callback v).

(** The [except] clause shared by both loops. *)
Definition loop_error (tag fatal_tag : string) : M flow :=
  go_on ← gets (fun st => continue_on_error (cfg st));
  if go_on : bool then
    log ERROR tag;; sleep_between_messages;; ret Continue
  else
    log ERROR fatal_tag;; ret Break.

(** One iteration of [subscriber_loop]. *)
Definition subscriber_iteration (socket_name : string)
  (callback : pyval -> res unit) : M flow :=
  try_except
    (message_parts ← receive_multipart_message socket_name;
     match message_parts with
     | [] => sleep_between_messages;; ret Continue
     | [only] =>
         (if negb (is_none only) then invoke_callback callback only
          else ret tt);;
         ret Continue
     | topic :: content :: more =>
         let content :=
           match more with
           | actual_content :: _ =>
               if usable_override actual_content then actual_content
               else content
           | [] => content
           end in
         (if deliverable content then invoke_callback callback content
          else ret tt);;
         ret Continue
     end)
    (fun _ => loop_error "subscriber loop error" "subscriber loop fatal error").

(** [while self.running: ...], observed for at most [fuel] iterations. *)
Fixpoint run_loop (iteration : M flow) (stopped_tag : string) (fuel : nat)
  : M unit :=
  match fuel with
  | O => ret tt
  | S fuel' =>
      r ← gets running;
      if r : bool then
        f ← iteration;
        match f with
        | Continue => run_loop iteration stopped_tag fuel'
        | Break => log DEBUG stopped_tag
        end
      else log DEBUG stopped_tag
  end.

Definition subscriber_loop (socket_name : string)
  (callback : pyval -> res unit) (fuel : nat) : M unit :=
  log DEBUG "subscriber loop started";;
  run_loop (subscriber_iteration socket_name callback)
    "subscriber loop stopped" fuel.

Definition start_subscriber_loop (socket_name : string) : M unit :=
  start_thread (SubscriberLoop socket_name).

Definition socket_type_of (h : handle) : M socket_type :=
  o ← gets objects;
  match o !! h with
  | Some s => ret (sock_type s)
  | None => raise KeyError
  end.

(** One iteration of [server_loop]. *)
Definition server_iteration (socket_name : string)
  (handler : pyval -> res pyval) : M flow :=
  try_except
    (request ← receive_message socket_name;
     if negb (is_none request) then
       emit (Handler request);;
       response ← lift (handler request);
       m ← gets sockets;
       match m !! socket_name with
       | Some h =>
           ty ← socket_type_of h;
           if is_REP ty && negb (is_none response) then
             send_message socket_name response;; ret Continue
           else ret Continue
       | None => ret Continue
       end
     else
       sleep_between_messages;; ret Continue)
    (fun _ => loop_error "server loop error" "server loop fatal error").

Definition server_loop (socket_name : string)
  (handler : pyval -> res pyval) (fuel : nat) : M unit :=
  log DEBUG "server loop started";;
  run_loop (server_iteration socket_name handler) "server loop stopped" fuel.

Definition start_server_loop (socket_name : string) : M unit :=
  start_thread (ServerLoop socket_name).

(** *** Connecting to a remote host *)

(** [str.lower()] on ASCII letters. *)
Definition lower_ascii (a : ascii) : ascii :=
  let n := N_of_ascii a in
  if (65 <=? n) && (n <=? 90) then ascii_of_N (n + 32) else a.

Fixpoint lower (s : string) : string :=
  match s with
  | EmptyString => EmptyString
  | String a r => String (lower_ascii a) (lower r)
  end.

Definition connect_to_remote_host (host : string) (port : N)
  (socket_type : string) (socket_name : option string)
  (topics : list string) (auto_start_loop : bool) : M bool :=
  try_except
    (set_host_port host port;;
     reachable ← check_network_connectivity (Some host) (Some port);
     (if negb reachable
      then log WARNING "host unreachable, creating the socket anyway"
      else ret tt);;
     let socket_name :=
       match socket_name with
       | Some n => n
       | None => String.append socket_type "_remote"
       end in
     let endpoint := tcp_endpoint host port in
     if decide (lower socket_type = "req") then
       success ← create_req_client (Some endpoint) socket_name;
       (if success : bool then log DEBUG "connected to the REP server"
        else ret tt);;
       ret success
     else if decide (lower socket_type = "sub") then
       success ← create_sub_client (Some endpoint) socket_name topics;
       (if success : bool then
          log DEBUG "connected to the PUB server";;
          (if auto_start_loop then start_subscriber_loop socket_name
           else ret tt)
        else ret tt);;
       ret success
     else if decide (lower socket_type = "push") then
       success ← create_push_client (Some endpoint) socket_name;
       (if success : bool then log DEBUG "connected to the PULL server"
        else ret tt);;
       ret success
     else
       log ERROR "unsupported socket type";; ret false)
    (fun _ => log ERROR "connecting to the remote host failed";; ret false).

End WithRuntime.

End ZMQ.

(** ** [ros_client.py]: class [FrequencyController] *)

Module FrequencyController.

Record t : Type := {
  target_hz : float;
  interval : float;
  last_time : float
}.

(** [1.0 / target_hz if target_hz > 0 else 0] *)
Definition interval_of (hz : float) : float :=
  if PrimFloat.ltb 0 hz then PrimFloat.div 1 hz else 0%float.

(** [__init__] *)
Definition init (hz : float) : t :=
  {| target_hz := hz; interval := interval_of hz; last_time := 0 |}.

(** [should_process], with [now] the reading of [time.time()]: the answer
    and the controller afterwards. *)
Definition should_process (now : float) (fc : t) : bool * t :=
  if PrimFloat.leb (interval fc) 0 then (true, fc)
  else if PrimFloat.leb (interval fc) (PrimFloat.sub now (last_time fc)) then
    (true, {| target_hz := target_hz fc; interval := interval fc;
              last_time := now |})
  else (false, fc).

Definition reset (fc : t) : t :=
  {| target_hz := target_hz fc; interval := interval fc; last_time := 0 |}.

Definition set_frequency (hz : float) (fc : t) : t :=
  reset {| target_hz := hz; interval := interval_of hz;
           last_time := last_time fc |}.

End FrequencyController.

(** ** [ros_client.py]: class [ROSBridgeClient] *)

Module ROS.

(** A value of [subscribe_topics] or [publish_topics]: a dictionary whose
    keys may be missing. *)
Record topic_config : Type := {
  tc_name : option string;
  tc_message_type : option string;
  tc_type : option string;
  tc_content : option pyval;
  tc_frequency : option float
}.

Inductive outcome : Type :=
| Succeeds
| Fails (e : exn)
| TimesOut
| Code (c : Z).

Inductive event : Type :=
| Log (lvl : level) (tag : string)
| Probe (host : string) (port : N)
| RosConnect (host : string) (port : N)
| Sleep (seconds : float)
| SubscribeTopic (topic_name message_type : string)
| Advertise (topic_name message_type : string)
| SpawnPublish (topic_name : string) (frequency : float).

Record state : Type := {
  host : string;
  port : N;
  connectivity_check_enabled : bool;
  auto_reconnect : bool;
  reconnect_interval : float;
  max_reconnect_attempts : Z;
  subscribe_topics : list (string * topic_config);
  publish_topics : list (string * topic_config);
  (** [self.client]: [None], or a client and whether it is connected *)
  client : option bool;
  publishers : list string;
  subscribers : list string;
  running : bool;
  reconnect_count : Z;
  _publish_threads : list string;
  trace : list event;
  world : list event -> event -> outcome
}.

Definition set_client (c : option bool) (st : state) : state :=
  {| host := host st; port := port st;
     connectivity_check_enabled := connectivity_check_enabled st;
     auto_reconnect := auto_reconnect st;
     reconnect_interval := reconnect_interval st;
     max_reconnect_attempts := max_reconnect_attempts st;
     subscribe_topics := subscribe_topics st;
     publish_topics := publish_topics st;
     client := c; publishers := publishers st;
     subscribers := subscribers st; running := running st;
     reconnect_count := reconnect_count st;
     _publish_threads := _publish_threads st;
     trace := trace st; world := world st |}.

Definition set_publishers (l : list string) (st : state) : state :=
  {| host := host st; port := port st;
     connectivity_check_enabled := connectivity_check_enabled st;
     auto_reconnect := auto_reconnect st;
     reconnect_interval := reconnect_interval st;
     max_reconnect_attempts := max_reconnect_attempts st;
     subscribe_topics := subscribe_topics st;
     publish_topics := publish_topics st;
     client := client st; publishers := l;
     subscribers := subscribers st; running := running st;
     reconnect_count := reconnect_count st;
     _publish_threads := _publish_threads st;
     trace := trace st; world := world st |}.

Definition set_subscribers (l : list string) (st : state) : state :=
  {| host := host st; port := port st;
     connectivity_check_enabled := connectivity_check_enabled st;
     auto_reconnect := auto_reconnect st;
     reconnect_interval := reconnect_interval st;
     max_reconnect_attempts := max_reconnect_attempts st;
     subscribe_topics := subscribe_topics st;
     publish_topics := publish_topics st;
     client := client st; publishers := publishers st;
     subscribers := l; running := running st;
     reconnect_count := reconnect_count st;
     _publish_threads := _publish_threads st;
     trace := trace st; world := world st |}.

Definition set_running (b : bool) (st : state) : state :=
  {| host := host st; port := port st;
     connectivity_check_enabled := connectivity_check_enabled st;
     auto_reconnect := auto_reconnect st;
     reconnect_interval := reconnect_interval st;
     max_reconnect_attempts := max_reconnect_attempts st;
     subscribe_topics := subscribe_topics st;
     publish_topics := publish_topics st;
     client := client st; publishers := publishers st;
     subscribers := subscribers st; running := b;
     reconnect_count := reconnect_count st;
     _publish_threads := _publish_threads st;
     trace := trace st; world := world st |}.

Definition set_reconnect_count (n : Z) (st : state) : state :=
  {| host := host st; port := port st;
     connectivity_check_enabled := connectivity_check_enabled st;
     auto_reconnect := auto_reconnect st;
     reconnect_interval := reconnect_interval st;
     max_reconnect_attempts := max_reconnect_attempts st;
     subscribe_topics := subscribe_topics st;
     publish_topics := publish_topics st;
     client := client st; publishers := publishers st;
     subscribers := subscribers st; running := running st;
     reconnect_count := n;
     _publish_threads := _publish_threads st;
     trace := trace st; world := world st |}.

Definition set_publish_threads (l : list string) (st : state) : state :=
  {| host := host st; port := port st;
     connectivity_check_enabled := connectivity_check_enabled st;
     auto_reconnect := auto_reconnect st;
     reconnect_interval := reconnect_interval st;
     max_reconnect_attempts := max_reconnect_attempts st;
     subscribe_topics := subscribe_topics st;
     publish_topics := publish_topics st;
     client := client st; publishers := publishers st;
     subscribers := subscribers st; running := running st;
     reconnect_count := reconnect_count st;
     _publish_threads := l;
     trace := trace st; world := world st |}.

Definition set_trace (l : list event) (st : state) : state :=
  {| host := host st; port := port st;
     connectivity_check_enabled := connectivity_check_enabled st;
     auto_reconnect := auto_reconnect st;
     reconnect_interval := reconnect_interval st;
     max_reconnect_attempts := max_reconnect_attempts st;
     subscribe_topics := subscribe_topics st;
     publish_topics := publish_topics st;
     client := client st; publishers := publishers st;
     subscribers := subscribers st; running := running st;
     reconnect_count := reconnect_count st;
     _publish_threads := _publish_threads st;
     trace := l; world := world st |}.

Abbreviation M := (SE state).

Definition emit (e : event) : M unit :=
  modify (fun st => set_trace (trace st ++ [e]) st).

Definition log (lvl : level) (tag : string) : M unit := emit (Log lvl tag).

(** A library call: the action is recorded and the world answers, given
    the actions so far. *)
Definition call (e : event) : M outcome :=
  before ← gets trace;
  emit e;;
  answer ← gets world;
  ret (answer before e).

(** [dict[key]] *)
Definition item {A} (field : option A) : M A :=
  match field with Some a => ret a | None => raise KeyError end.

(** [time.sleep(seconds)]: the argument is checked, then the platform
    waits; it may refuse a duration its timers cannot take. *)
Definition time_sleep (seconds : float) : M unit :=
  lift (sleep_argument seconds);;
  o ← call (Sleep seconds);
  match o with Fails x => raise x | _ => ret tt end.

Definition check_network_connectivity : M bool :=
  enabled ← gets connectivity_check_enabled;
  if negb enabled then ret true
  else
    try_except
      (log DEBUG "checking connectivity";;
       h ← gets host; p ← gets port;
       o ← call (Probe h p);
       result ← match o with
                | Code c => ret c
                | Fails x => raise x
                | TimesOut => ret 110%Z
                | Succeeds => ret 0%Z
                end;
       if (result =? 0)%Z then
         log DEBUG "network reachable";; ret true
       else
         log WARNING "cannot reach host";; ret false)
      (fun _ => log ERROR "connectivity check failed";; ret false).

(** [connect]: the client is created and run, and the connection awaited
    for at most [connection_timeout]. *)
Definition connect : M bool :=
  try_except
    (log DEBUG "connecting";;
     h ← gets host; p ← gets port;
     o ← call (RosConnect h p);
     match o with
     | Fails x => raise x
     | Succeeds =>
         modify (set_client (Some true));;
         log DEBUG "connected";;
         modify (set_reconnect_count 0);;
         ret true
     | _ =>
         modify (set_client (Some false));;
         log ERROR "connection timed out";;
         ret false
     end)
    (fun _ => log ERROR "connection failed";; ret false).

Definition is_connected : M bool :=
  c ← gets client;
  ret (match c with Some connected => connected | None => false end).

Definition subscribe_topic (topic_name message_type : string) : M bool :=
  try_except
    (c ← is_connected;
     if negb c then log ERROR "not connected, cannot subscribe";; ret false
     else
       o ← call (SubscribeTopic topic_name message_type);
       match o with
       | Fails x => raise x
       | _ =>
           modify (fun st =>
                     set_subscribers
                       (if decide (topic_name ∈ subscribers st)
                        then subscribers st
                        else subscribers st ++ [topic_name]) st);;
           log DEBUG "subscribed";; ret true
       end)
    (fun _ => log ERROR "subscribing failed";; ret false).

Definition create_publisher (topic_name message_type : string) : M bool :=
  try_except
    (c ← is_connected;
     if negb c then log ERROR "not connected, cannot advertise";; ret false
     else
       o ← call (Advertise topic_name message_type);
       match o with
       | Fails x => raise x
       | _ =>
           modify (fun st =>
                     set_publishers
                       (if decide (topic_name ∈ publishers st)
                        then publishers st
                        else publishers st ++ [topic_name]) st);;
           log DEBUG "publisher created";; ret true
       end)
    (fun _ => log ERROR "creating the publisher failed";; ret false).

Definition setup_configured_topics : M unit :=
  subs ← gets subscribe_topics;
  mapM (fun kv : string * topic_config =>
          topic_name ← item (tc_name kv.2);
          message_type ← item (tc_message_type kv.2);
          subscribe_topic topic_name message_type) subs;;
  pubs ← gets publish_topics;
  mapM (fun kv : string * topic_config =>
          topic_name ← item (tc_name kv.2);
          message_type ← item (tc_message_type kv.2);
          create_publisher topic_name message_type) pubs;;
  ret tt.

Definition start_auto_publish (topic_name : string) (frequency : float)
  : M bool :=
  ps ← gets publishers;
  if decide (topic_name ∈ ps) then
    emit (SpawnPublish topic_name frequency);;
    modify (fun st => set_publish_threads (_publish_threads st ++ [topic_name]) st);;
    log DEBUG "auto publish started";;
    ret true
  else
    log ERROR "no such publisher";; ret false.

(** What [start] does once connected: it waits the second that
    [time.sleep(1)] asks for, a duration every platform takes.
    [query_ros_system_info] returns at once: [_apply_config] leaves
    [ros_info_config] empty. *)
Definition start_connected : M bool :=
  emit (Sleep 1);;
  setup_configured_topics;;
  modify (set_running true);;
  pubs ← gets publish_topics;
  mapM (fun kv : string * topic_config =>
          topic_name ← item (tc_name kv.2);
          let frequency := default 1%float (tc_frequency kv.2) in
          start_auto_publish topic_name frequency) pubs;;
  log DEBUG "client started";;
  ret true.

(** [start]. The method calls itself to retry, so each retry takes one
    more frame of the interpreter's stack: [stack] is the number of frames
    that are left, and none left is Python's [RecursionError].  Nothing
    catches what [time.sleep(self.reconnect_interval)] raises. *)
Fixpoint start (stack : nat) : M bool :=
  match stack with
  | O => raise RecursionError
  | S stack' =>
      reachable ← check_network_connectivity;
      if negb reachable then
        log ERROR "network unreachable, check the server";; ret false
      else
        connected ← connect;
        if negb connected then
          auto ← gets auto_reconnect;
          count ← gets reconnect_count;
          limit ← gets max_reconnect_attempts;
          if auto && (count <? limit)%Z then
            log DEBUG "will retry";;
            seconds ← gets reconnect_interval;
            time_sleep seconds;;
            modify (fun st => set_reconnect_count (reconnect_count st + 1) st);;
            start stack'
          else ret false
        else start_connected
  end.

End ROS.

(** * Proofs *)

(** ** The error monad *)

Lemma bind_Ok {A B} (a : A) (k : A -> res B) : (Ok a ≫= k) = k a.
Proof. reflexivity. Qed.

Lemma bind_Raise {A B} (e : exn) (k : A -> res B) : (Raise e ≫= k) = Raise e.
Proof. reflexivity. Qed.

(** ** Bytes and little-endian fields *)

Lemma to_N_b8_mod (n : N) : Byte.to_N (b8 n) = n mod 256.
Proof.
  unfold b8. destruct (Byte.of_N (n mod 256)) as [b|] eqn:E.
  - by apply Byte.to_of_N.
  - apply Byte.of_N_None_iff in E.
    pose proof (N.mod_upper_bound n 256). lia.
Qed.

Lemma to_N_b8 (n : N) : n < 256 -> Byte.to_N (b8 n) = n.
Proof. intros H. rewrite to_N_b8_mod. by apply N.mod_small. Qed.

Lemma uint_le_le32 (n : N) : n < 2 ^ 32 -> Struct.uint_le (Struct.le32 n) = n.
Proof.
  intros H. unfold Struct.le32. cbn [Struct.uint_le].
  rewrite !to_N_b8_mod. change (2 ^ 32) with 4294967296 in H.
  replace (n / 65536) with (n / 256 / 256) by (rewrite N.Div0.div_div; reflexivity).
  replace (n / 16777216) with (n / 256 / 256 / 256)
    by (rewrite !N.Div0.div_div; reflexivity).
  pose proof (N.div_mod' n 256) as E1.
  pose proof (N.div_mod' (n / 256) 256) as E2.
  pose proof (N.div_mod' (n / 256 / 256) 256) as E3.
  pose proof (N.mod_upper_bound n 256).
  pose proof (N.mod_upper_bound (n / 256) 256).
  pose proof (N.mod_upper_bound (n / 256 / 256) 256).
  assert (n / 256 / 256 / 256 < 256).
  { rewrite !N.Div0.div_div. apply N.Div0.div_lt_upper_bound. simpl. lia. }
  rewrite (N.mod_small (n / 256 / 256 / 256)) by lia.
  generalize dependent (n mod 256). generalize dependent (n / 256 mod 256).
  generalize dependent (n / 256 / 256 mod 256).
  generalize dependent (n / 256 / 256 / 256).
  generalize dependent (n / 256 / 256).  generalize dependent (n / 256).
  intros. lia.
Qed.

Lemma le32_length (n : N) : length (Struct.le32 n) = 4%nat.
Proof. reflexivity. Qed.

Lemma len_app {A} (l k : list A) : len (l ++ k) = len l + len k.
Proof. unfold len. rewrite length_app. lia. Qed.

Lemma len_le32 (n : N) : len (Struct.le32 n) = 4.
Proof. unfold len. rewrite le32_length. reflexivity. Qed.

Lemma take_le32_app (n : N) (r : bytes) :
  take 4 (Struct.le32 n ++ r) = Struct.le32 n.
Proof. unfold Struct.le32. cbn [app take]. reflexivity. Qed.

Lemma drop_le32_app (n : N) (r : bytes) : drop 4 (Struct.le32 n ++ r) = r.
Proof. unfold Struct.le32. cbn [app drop]. reflexivity. Qed.

(** What the wire convention asks of the three frames built for topic
    bytes [tb] and content bytes [cb]. *)
Definition ros_frames_ok (tb cb : bytes) (frames : list bytes) : Prop :=
  exists f2 f3,
    frames = [tb; f2; f3] /\
    length f2 = 4%nat /\ Struct.uint_le f2 = len f3 /\
    length (take 4 f3) = 4%nat /\ Struct.uint_le (take 4 f3) = len cb /\
    drop 4 f3 = cb.

(** C1, as amended. On a little-endian host, for a topic name and a content
    that UTF-8 can encode and whose framed content fits 32 bits,
    [create_ros_message] returns exactly three frames: the topic bytes, the
    4-byte little-endian length of frame 3, and frame 3 made of the 4-byte
    little-endian content length followed by the content bytes. Whenever
    an encoding fails or a length does not fit, it returns [None] on every
    host. *)
Theorem create_ros_message_frames (T C : pystr) :
  (forall tb cb,
      Utf8.encode T = Ok tb -> Utf8.encode C = Ok cb -> len cb + 4 < 2 ^ 32 ->
      exists frames,
        RosMessage.create_ros_message LittleEndian T C = Some frames /\
        ros_frames_ok tb cb frames) /\
  (forall host,
      (exists e, Utf8.encode T = Raise e) \/
      (exists e, Utf8.encode C = Raise e) \/
      (exists cb, Utf8.encode C = Ok cb /\ 2 ^ 32 <= len cb + 4) ->
      RosMessage.create_ros_message host T C = None).
Proof.
  split.
  - intros tb cb HT HC Hlen.
    unfold RosMessage.create_ros_message, RosMessage.build_frames.
    rewrite HT, HC, !bind_Ok.
    unfold Struct.pack_le_I, Struct.pack_native_I.
    assert (Hc : (len cb <? 2 ^ 32) = true) by (apply N.ltb_lt; lia).
    assert (Hd : (4 + len cb <? 2 ^ 32) = true) by (apply N.ltb_lt; lia).
    rewrite Hc, !bind_Ok, len_app, len_le32, Hd, !bind_Ok.
    eexists. split; [reflexivity|].
    exists (Struct.le32 (4 + len cb)), (Struct.le32 (len cb) ++ cb).
    rewrite take_le32_app, drop_le32_app, len_app, len_le32.
    rewrite !uint_le_le32 by lia.
    repeat split; apply le32_length.
  - intros host [[e He]|[[e He]|[cb [Hcb Hbig]]]];
      unfold RosMessage.create_ros_message, RosMessage.build_frames.
    + rewrite He, bind_Raise. reflexivity.
    + rewrite He. destruct (Utf8.encode T).
      * rewrite bind_Ok, bind_Raise. reflexivity.
      * rewrite bind_Raise. reflexivity.
    + rewrite Hcb. destruct (Utf8.encode T); [|rewrite bind_Raise; reflexivity].
      rewrite !bind_Ok.
      unfold Struct.pack_le_I, Struct.pack_native_I.
      destruct (len cb <? 2 ^ 32) eqn:E; [|rewrite bind_Raise; reflexivity].
      rewrite bind_Ok, len_app, len_le32.
      assert (Hd : (4 + len cb <? 2 ^ 32) = false) by (apply N.ltb_ge; lia).
      rewrite Hd, bind_Raise. reflexivity.
Qed.

(** The amended statement at the message the example publishes first. *)
Lemma create_ros_message_frames_witness :
  exists frames,
    RosMessage.create_ros_message LittleEndian
      (py "/lb/rosbridge") (py "zmq_0") = Some frames /\
    ros_frames_ok (map b8 (py "/lb/rosbridge")) (map b8 (py "zmq_0")) frames.
Proof.
  apply (proj1 (create_ros_message_frames (py "/lb/rosbridge") (py "zmq_0")));
    [reflexivity | reflexivity | vm_compute; reflexivity].
Defined.

(** C1 as stated fails: a content holding a lone surrogate is a Python
    string, yet no frames are produced for it. *)
Lemma create_ros_message_surrogate_none :
  RosMessage.create_ros_message LittleEndian (py "/lb/rosbridge") [0xD800]
  = None /\
  ~ (exists frames tb cb,
        RosMessage.create_ros_message LittleEndian (py "/lb/rosbridge")
          [0xD800] = Some frames /\ ros_frames_ok tb cb frames).
Proof.
  split; [reflexivity|].
  intros (frames & tb & cb & H & _). discriminate H.
Qed.

(** ** The frequency controller *)

Section FrequencyControllerProofs.
Import FrequencyController.

Lemma Prim2SF_zero : Prim2SF 0 = S754_zero false.
Proof. vm_compute. reflexivity. Qed.

(** [x - 0] is [x], also for the float that starts as the integer [0]. *)
Lemma sub_zero (x : float) : PrimFloat.sub x 0 = x.
Proof.
  apply Prim2SF_inj. rewrite sub_spec, Prim2SF_zero.
  destruct (Prim2SF x) as [s|s| |s m e]; try destruct s; reflexivity.
Qed.

(** The doubles Python reads for [0.4] and [0.5]. *)
Definition two_fifths : float := 0x1.999999999999ap-2%float.
Definition half : float := 0.5%float.

Lemma Prim2SF_two_fifths :
  Prim2SF two_fifths = S754_finite false 7205759403792794 (-54).
Proof. vm_compute. reflexivity. Qed.

Lemma Prim2SF_half : Prim2SF half = S754_finite false 4503599627370496 (-53).
Proof. vm_compute. reflexivity. Qed.

Lemma within_two_fifths (d : float) :
  PrimFloat.leb d two_fifths = true -> PrimFloat.leb half d = false.
Proof.
  rewrite !leb_spec, Prim2SF_two_fifths, Prim2SF_half.
  unfold SFleb, SFcompare.
  destruct (Prim2SF d) as [s|s| |s m e]; try destruct s; try congruence.
  destruct (Z.compare_spec e (-54)); destruct (Z.compare_spec (-53) e);
    try congruence; lia.
Qed.

(** The invariant of a controller: [interval] is derived from
    [target_hz]. The constructor and both setters establish it. *)
Definition well_formed (fc : t) : Prop :=
  interval fc = interval_of (target_hz fc).

Lemma init_well_formed (hz : float) : well_formed (init hz).
Proof. reflexivity. Qed.

Lemma reset_well_formed (fc : t) : well_formed fc -> well_formed (reset fc).
Proof. intros Hwf. exact Hwf. Qed.

Lemma set_frequency_well_formed (hz : float) (fc : t) :
  well_formed (set_frequency hz fc).
Proof. reflexivity. Qed.

Lemma should_process_well_formed (now : float) (fc : t) :
  well_formed fc -> well_formed (should_process now fc).2.
Proof.
  intros Hwf. unfold should_process.
  destruct (PrimFloat.leb (interval fc) 0); [exact Hwf|].
  destruct (PrimFloat.leb (interval fc) (PrimFloat.sub now (last_time fc)));
    exact Hwf.
Qed.

(** The controller after it fired at [now]. *)
Definition fired (now : float) (fc : t) : t :=
  {| target_hz := target_hz fc; interval := interval fc; last_time := now |}.

(** C4, as amended. For a controller whose interval is the one its target
    frequency gives: when the frequency is not greater than zero (zero,
    negative or NaN), [should_process] answers true and changes nothing;
    when the frequency is greater than zero and its inverse is not at most
    zero, it answers true exactly when [now - last_time >= 1 / target_hz],
    records [now] when it answers true and changes nothing when it answers
    false; when the frequency is greater than zero and its inverse is at
    most zero (positive infinity, whose inverse is zero), it answers true
    and changes nothing.  At 2 Hz, with the clock past half a second, a
    call, a second call no more than 0.4 s later and a third call at least
    0.5 s after the first answer true, false, true. *)
Theorem should_process_gate (fc : t) (now : float) :
  well_formed fc ->
  (PrimFloat.ltb 0 (target_hz fc) = false ->
   should_process now fc = (true, fc)) /\
  (PrimFloat.ltb 0 (target_hz fc) = true ->
   PrimFloat.leb (PrimFloat.div 1 (target_hz fc)) 0 = false ->
   ((should_process now fc).1 = true <->
    PrimFloat.leb (PrimFloat.div 1 (target_hz fc))
      (PrimFloat.sub now (last_time fc)) = true) /\
   ((should_process now fc).1 = true ->
    (should_process now fc).2 = fired now fc) /\
   ((should_process now fc).1 = false -> (should_process now fc).2 = fc)) /\
  (PrimFloat.ltb 0 (target_hz fc) = true ->
   PrimFloat.leb (PrimFloat.div 1 (target_hz fc)) 0 = true ->
   should_process now fc = (true, fc)) /\
  (forall t1 t2 t3 : float,
      PrimFloat.leb half t1 = true ->
      PrimFloat.leb (PrimFloat.sub t2 t1) two_fifths = true ->
      PrimFloat.leb half (PrimFloat.sub t3 t1) = true ->
      let first := should_process t1 (init 2) in
      let second := should_process t2 first.2 in
      let third := should_process t3 second.2 in
      (first.1, second.1, third.1) = (true, false, true) /\
      last_time first.2 = t1 /\ second.2 = first.2 /\
      last_time third.2 = t3).
Proof.
  intros Hwf. unfold well_formed, interval_of in Hwf.
  split; [|split; [|split]].
  - intros Hle. unfold should_process. rewrite Hwf, Hle.
    replace (PrimFloat.leb 0 0) with true by (vm_compute; reflexivity).
    reflexivity.
  - intros Hpos Hinv. unfold should_process.
    rewrite Hwf, Hpos, Hinv.
    destruct (PrimFloat.leb (PrimFloat.div 1 (target_hz fc))
                (PrimFloat.sub now (last_time fc))) eqn:E.
    + repeat split; try reflexivity; try discriminate.
      unfold fired. rewrite Hwf, Hpos. reflexivity.
    + repeat split; try reflexivity; discriminate.
  - intros Hpos Hinv. unfold should_process. rewrite Hwf, Hpos, Hinv.
    reflexivity.
  - intros t1 t2 t3 H1 H2 H3.
    assert (Hi : interval (init 2) = half) by (vm_compute; reflexivity).
    assert (Hz : PrimFloat.leb half 0 = false) by (vm_compute; reflexivity).
    assert (E1 : should_process t1 (init 2) = (true, fired t1 (init 2))).
    { unfold should_process. rewrite Hi, Hz.
      change (last_time (init 2)) with 0%float. rewrite sub_zero, H1.
      reflexivity. }
    assert (E2 : should_process t2 (fired t1 (init 2))
                 = (false, fired t1 (init 2))).
    { unfold should_process.
      change (interval (fired t1 (init 2))) with (interval (init 2)).
      change (last_time (fired t1 (init 2))) with t1.
      rewrite Hi, Hz, (within_two_fifths _ H2). reflexivity. }
    assert (E3 : should_process t3 (fired t1 (init 2))
                 = (true, fired t3 (init 2))).
    { unfold should_process.
      change (interval (fired t1 (init 2))) with (interval (init 2)).
      change (last_time (fired t1 (init 2))) with t1.
      rewrite Hi, Hz, H3. reflexivity. }
    cbv zeta. rewrite E1. cbn [fst snd]. rewrite E2. cbn [fst snd].
    rewrite E3. repeat split.
Qed.

(** The gate at a 2 Hz controller that was never fired, ten seconds into
    the epoch. *)
Lemma should_process_gate_witness :
  (should_process 10 (init 2)).1 = true <->
  PrimFloat.leb (PrimFloat.div 1 2) (PrimFloat.sub 10 0) = true.
Proof.
  apply (proj1 (proj1 (proj2 (should_process_gate (init 2) 10
                                (init_well_formed 2)))
                  ltac:(vm_compute; reflexivity)
                  ltac:(vm_compute; reflexivity))).
Defined.

(** C4 as stated fails: a frequency that is not a number is not at most
    zero, yet the controller built for it lets every call through, also a
    call for which [now - last_time >= 1 / target_hz] does not hold. *)
Lemma should_process_nan :
  PrimFloat.leb nan 0 = false /\
  should_process 10 (init nan) = (true, init nan) /\
  PrimFloat.leb (PrimFloat.div 1 nan)
    (PrimFloat.sub 10 (last_time (init nan))) = false.
Proof. vm_compute. repeat split; reflexivity. Qed.

End FrequencyControllerProofs.

(** ** Running a method *)

Section Run.
Context {S : Type}.

Lemma run_bind {A B} (m : SE S A) (k : A -> SE S B) (st : S) :
  (m ≫= k) st =
  match m st with
  | (Ok a, st') => k a st'
  | (Raise e, st') => (Raise e, st')
  end.
Proof. reflexivity. Qed.

Lemma run_mret {A} (a : A) (st : S) : (mret a : SE S A) st = (Ok a, st).
Proof. reflexivity. Qed.

Lemma run_ret {A} (a : A) (st : S) : ret a st = (Ok a, st).
Proof. reflexivity. Qed.

Lemma run_gets {A} (f : S -> A) (st : S) : gets f st = (Ok (f st), st).
Proof. reflexivity. Qed.

Lemma run_modify (f : S -> S) (st : S) : modify f st = (Ok tt, f st).
Proof. reflexivity. Qed.

Lemma run_raise {A} (e : exn) (st : S) : (raise e : SE S A) st = (Raise e, st).
Proof. reflexivity. Qed.

Lemma run_lift {A} (r : res A) (st : S) : lift r st = (r, st).
Proof. reflexivity. Qed.

Lemma run_try_except {A} (m : SE S A) (h : exn -> SE S A) (st : S) :
  try_except m h st =
  match m st with
  | (Ok a, st') => (Ok a, st')
  | (Raise e, st') => h e st'
  end.
Proof. reflexivity. Qed.

End Run.

Ltac run_core :=
  first [rewrite run_bind | rewrite run_gets | rewrite run_ret
        | rewrite run_mret | rewrite run_modify | rewrite run_raise
        | rewrite run_lift | rewrite run_try_except].

(** ** The ROSBridge client: [start] *)

Section ROSProofs.
Import ROS.

Lemma ros_run_emit (e : event) (st : state) :
  emit e st = (Ok tt, set_trace (trace st ++ [e]) st).
Proof. reflexivity. Qed.

Lemma ros_run_log (l : level) (tag : string) (st : state) :
  log l tag st = (Ok tt, set_trace (trace st ++ [Log l tag]) st).
Proof. reflexivity. Qed.

Lemma ros_run_call (e : event) (st : state) :
  call e st
  = (Ok (world st (trace st) e), set_trace (trace st ++ [e]) st).
Proof. reflexivity. Qed.

Ltac ros_run :=
  repeat (first [run_core | rewrite ros_run_emit | rewrite ros_run_log
                | rewrite ros_run_call];
          cbn beta iota);
  cbn [host port connectivity_check_enabled auto_reconnect reconnect_interval
       max_reconnect_attempts subscribe_topics publish_topics client publishers
       subscribers running reconnect_count _publish_threads trace world
       set_trace set_client set_publishers set_subscribers set_running
       set_reconnect_count set_publish_threads].

Definition is_connect (e : event) : bool :=
  match e with RosConnect _ _ => true | _ => false end.

Definition is_sleep (e : event) : bool :=
  match e with Sleep _ => true | _ => false end.

(** The reachability probe lets [start] through: it is switched off, or
    the world always answers it with success. *)
Definition probe_passes (st : state) : Prop :=
  connectivity_check_enabled st = false \/
  forall tr h p,
    world st tr (Probe h p) = Succeeds \/ world st tr (Probe h p) = Code 0.

(** The probe is switched on and the world never answers it with
    success. *)
Definition probe_fails (st : state) : Prop :=
  connectivity_check_enabled st = true /\
  forall tr h p,
    world st tr (Probe h p) <> Succeeds /\ world st tr (Probe h p) <> Code 0.

(** Every connection attempt fails: by an exception or by timing out. *)
Definition never_connects (st : state) : Prop :=
  forall tr h p, world st tr (RosConnect h p) <> Succeeds.

(** What [check_network_connectivity] and [connect] leave alone when the
    connection is not made. *)
Definition unchanged (st st' : state) : Prop :=
  host st' = host st /\ port st' = port st /\
  connectivity_check_enabled st' = connectivity_check_enabled st /\
  auto_reconnect st' = auto_reconnect st /\
  reconnect_interval st' = reconnect_interval st /\
  max_reconnect_attempts st' = max_reconnect_attempts st /\
  running st' = running st /\
  reconnect_count st' = reconnect_count st /\
  world st' = world st.

Lemma check_passes (st : state) :
  probe_passes st ->
  exists st' evs,
    check_network_connectivity st = (Ok true, st') /\
    trace st' = trace st ++ evs /\ unchanged st st' /\
    List.filter is_connect evs = [] /\ List.filter is_sleep evs = [].
Proof.
  intros Hp. unfold check_network_connectivity. ros_run.
  destruct (connectivity_check_enabled st) eqn:E; cbn [negb].
  - destruct Hp as [Hp|Hp]; [congruence|]. ros_run.
    destruct (Hp (trace st ++ [Log DEBUG "checking connectivity"])
                (host st) (port st)) as [-> | ->]; ros_run;
      (eexists; eexists; split; [reflexivity|]; cbn [trace set_trace];
       split; [rewrite <- !app_assoc; reflexivity|];
       split; [repeat split; try assumption|split; reflexivity]).
  - ros_run. exists st, []. rewrite app_nil_r. repeat split; assumption.
Qed.

Lemma check_fails (st : state) :
  probe_fails st ->
  exists st' evs,
    check_network_connectivity st = (Ok false, st') /\
    trace st' = trace st ++ evs /\ unchanged st st' /\
    List.filter is_connect evs = [].
Proof.
  intros [Hen Hp]. unfold check_network_connectivity. ros_run.
  rewrite Hen. cbn [negb]. ros_run.
  destruct (Hp (trace st ++ [Log DEBUG "checking connectivity"])
              (host st) (port st)) as [H1 H2].
  destruct (world st (trace st ++ [Log DEBUG "checking connectivity"])
              (Probe (host st) (port st))) as [|e| |c];
    [congruence| | |]; ros_run.
  3: destruct (c =? 0)%Z eqn:Ec;
       [apply Z.eqb_eq in Ec; subst c; congruence|]; ros_run.
  all: eexists; eexists; split; [reflexivity|]; cbn [trace set_trace];
       split; [rewrite <- !app_assoc; reflexivity|];
       split; [repeat split; try assumption|reflexivity].
Qed.

Lemma connect_fails (st : state) :
  never_connects st ->
  exists st' evs,
    connect st = (Ok false, st') /\
    trace st' = trace st ++ evs /\ unchanged st st' /\
    length (List.filter is_connect evs) = 1%nat /\
    List.filter is_sleep evs = [].
Proof.
  intros Hn. unfold connect. ros_run.
  specialize (Hn (trace st ++ [Log DEBUG "connecting"]) (host st) (port st)).
  destruct (world st (trace st ++ [Log DEBUG "connecting"])
              (RosConnect (host st) (port st))); [congruence| | |]; ros_run;
    (eexists; eexists; split; [reflexivity|];
     cbn [trace set_trace set_client];
     split; [rewrite <- !app_assoc; reflexivity|];
     split; [repeat split|split; reflexivity]).
Qed.

(** The retries [start] has left: [max_reconnect_attempts] less the
    attempts counted so far. *)
Definition retry_budget (st : state) : nat :=
  Z.to_nat (max_reconnect_attempts st - reconnect_count st).

(** The platform takes every wait it is asked for. *)
Definition waits (st : state) : Prop :=
  forall tr seconds x, world st tr (Sleep seconds) <> Fails x.

Lemma ros_run_time_sleep (seconds : float) (st : state) :
  time_sleep seconds st
  = match sleep_argument seconds with
    | Ok _ =>
        match world st (trace st) (Sleep seconds) with
        | Fails x => (Raise x, set_trace (trace st ++ [Sleep seconds]) st)
        | _ => (Ok tt, set_trace (trace st ++ [Sleep seconds]) st)
        end
    | Raise e => (Raise e, st)
    end.
Proof.
  unfold time_sleep. rewrite run_bind, run_lift.
  destruct (sleep_argument seconds) as [[]|e]; [|reflexivity].
  cbn beta iota. ros_run.
  destruct (world st (trace st) (Sleep seconds)); reflexivity.
Qed.

Lemma time_sleep_waits (seconds : float) (st : state) :
  sleep_argument seconds = Ok tt -> waits st ->
  time_sleep seconds st = (Ok tt, set_trace (trace st ++ [Sleep seconds]) st).
Proof.
  intros Ha Hw. rewrite ros_run_time_sleep, Ha.
  pose proof (Hw (trace st) seconds) as Hx.
  destruct (world st (trace st) (Sleep seconds)); try reflexivity.
  exfalso. exact (Hx _ eq_refl).
Qed.

Lemma start_failing (stack : nat) : forall st,
  auto_reconnect st = true -> probe_passes st -> never_connects st ->
  sleep_argument (reconnect_interval st) = Ok tt -> waits st ->
  ((retry_budget st < stack)%nat ->
   exists st' new,
     start stack st = (Ok false, st') /\
     running st' = running st /\
     trace st' = trace st ++ new /\
     length (List.filter is_connect new) = Datatypes.S (retry_budget st) /\
     List.filter is_sleep new
     = repeat (Sleep (reconnect_interval st)) (retry_budget st) /\
     reconnect_count st'
     = Z.max (reconnect_count st) (max_reconnect_attempts st)) /\
  ((stack <= retry_budget st)%nat ->
   exists st', start stack st = (Raise RecursionError, st')).
Proof.
  induction stack as [|stack IH]; intros st Hauto Hprobe Hnever Hsleep Hwaits.
  - split; [lia|]. intros _. exists st. reflexivity.
  - destruct (check_passes st Hprobe)
      as (st1 & ev1 & Hrun1 & Htr1 & Hsame1 & Hc1 & Hs1).
    assert (Hnever1 : never_connects st1).
    { unfold never_connects. destruct Hsame1 as (_&_&_&_&_&_&_&_&->).
      exact Hnever. }
    destruct (connect_fails st1 Hnever1)
      as (st2 & ev2 & Hrun2 & Htr2 & Hsame2 & Hc2 & Hs2).
    destruct Hsame1 as (Hh1&Hp1&Hen1&Hau1&Hint1&Hmax1&Hrun1'&Hcnt1&Hw1).
    destruct Hsame2 as (Hh2&Hp2&Hen2&Hau2&Hint2&Hmax2&Hrun2'&Hcnt2&Hw2).
    cbn [start]. rewrite run_bind, Hrun1. cbn beta iota. cbn [negb].
    rewrite run_bind, Hrun2. cbn beta iota. cbn [negb]. ros_run.
    rewrite Hau2, Hau1, Hauto, Hcnt2, Hcnt1, Hmax2, Hmax1. cbn [andb].
    unfold retry_budget in *.
    destruct (reconnect_count st <? max_reconnect_attempts st)%Z eqn:Elt.
    + apply Z.ltb_lt in Elt. ros_run. rewrite Hint2, Hint1.
      rewrite time_sleep_waits;
        [|exact Hsleep|intros tr d x; cbn [world set_trace]; rewrite Hw2, Hw1;
                       apply Hwaits].
      ros_run. rewrite Hcnt2, Hcnt1.
      set (st3 := set_reconnect_count _ _).
      assert (Hb : Z.to_nat (max_reconnect_attempts st3 - reconnect_count st3)
                   = pred (Z.to_nat (max_reconnect_attempts st
                                     - reconnect_count st))).
      { subst st3. cbn. rewrite Hmax2, Hmax1. lia. }
      destruct (IH st3) as [IHa IHb].
      { subst st3. cbn. congruence. }
      { subst st3. unfold probe_passes. cbn. rewrite Hen2, Hen1, Hw2, Hw1.
        exact Hprobe. }
      { subst st3. unfold never_connects. cbn. rewrite Hw2, Hw1.
        exact Hnever. }
      { subst st3. cbn. rewrite Hint2, Hint1. exact Hsleep. }
      { subst st3. unfold waits. cbn. rewrite Hw2, Hw1. exact Hwaits. }
      split.
      * intros Hlt.
        destruct IHa as (st' & new & Hrun & Hr & Htr & Hc & Hs & Hcnt); [lia|].
        exists st', (ev1 ++ ev2 ++ [Log DEBUG "will retry";
                                   Sleep (reconnect_interval st)] ++ new).
        split; [exact Hrun|]. split.
        { rewrite Hr. subst st3. cbn. congruence. }
        split.
        { rewrite Htr. subst st3. cbn.
          rewrite Htr2, Htr1, <- !app_assoc. reflexivity. }
        split.
        { rewrite !List.filter_app, !length_app, Hc1, Hc2, Hc, Hb. cbn. lia. }
        split.
        { rewrite !List.filter_app, Hs1, Hs2, Hs, Hb.
          replace (reconnect_interval st3) with (reconnect_interval st)
            by (subst st3; cbn; congruence).
          cbn [app List.filter is_sleep].
          destruct (Z.to_nat (max_reconnect_attempts st - reconnect_count st))
            eqn:En; [lia|].
          reflexivity. }
        { rewrite Hcnt. subst st3. cbn. rewrite Hmax2, Hmax1. lia. }
      * intros Hle. destruct IHb as (st' & Hrun); [lia|].
        exists st'. exact Hrun.
    + apply Z.ltb_ge in Elt. ros_run. split.
      * intros _. exists st2, (ev1 ++ ev2). split; [reflexivity|].
        split; [congruence|].
        split; [rewrite Htr2, Htr1, <- app_assoc; reflexivity|].
        replace (Z.to_nat (max_reconnect_attempts st - reconnect_count st))
          with 0%nat by lia.
        split; [rewrite List.filter_app, length_app, Hc1, Hc2; reflexivity|].
        split; [rewrite List.filter_app, Hs1, Hs2; reflexivity|].
        rewrite Hcnt2, Hcnt1. lia.
      * intros Hle. lia.
Qed.

(** With a [reconnect_interval] that [time.sleep] refuses, the first retry
    is never made: the exception leaves [start] after the first connection
    attempt, before the attempt is counted. *)
Lemma start_sleep_refused (stack : nat) (st : state) (e : exn) :
  auto_reconnect st = true -> probe_passes st -> never_connects st ->
  sleep_argument (reconnect_interval st) = Raise e ->
  (0 < retry_budget st)%nat ->
  exists st' new,
    start (Datatypes.S stack) st = (Raise e, st') /\
    running st' = running st /\
    trace st' = trace st ++ new /\
    length (List.filter is_connect new) = 1%nat /\
    List.filter is_sleep new = [] /\
    reconnect_count st' = reconnect_count st.
Proof.
  intros Hauto Hprobe Hnever Hsleep Hbudget.
  destruct (check_passes st Hprobe)
    as (st1 & ev1 & Hrun1 & Htr1 & Hsame1 & Hc1 & Hs1).
  assert (Hnever1 : never_connects st1).
  { unfold never_connects. destruct Hsame1 as (_&_&_&_&_&_&_&_&->).
    exact Hnever. }
  destruct (connect_fails st1 Hnever1)
    as (st2 & ev2 & Hrun2 & Htr2 & Hsame2 & Hc2 & Hs2).
  destruct Hsame1 as (Hh1&Hp1&Hen1&Hau1&Hint1&Hmax1&Hrun1'&Hcnt1&Hw1).
  destruct Hsame2 as (Hh2&Hp2&Hen2&Hau2&Hint2&Hmax2&Hrun2'&Hcnt2&Hw2).
  cbn [start]. rewrite run_bind, Hrun1. cbn beta iota. cbn [negb].
  rewrite run_bind, Hrun2. cbn beta iota. cbn [negb]. ros_run.
  rewrite Hau2, Hau1, Hauto, Hcnt2, Hcnt1, Hmax2, Hmax1. cbn [andb].
  unfold retry_budget in Hbudget.
  replace (reconnect_count st <? max_reconnect_attempts st)%Z with true
    by (symmetry; apply Z.ltb_lt; lia).
  ros_run. rewrite Hint2, Hint1, ros_run_time_sleep, Hsleep.
  eexists _, (ev1 ++ ev2 ++ [Log DEBUG "will retry"]).
  split; [reflexivity|]. cbn [running trace reconnect_count set_trace].
  split; [congruence|].
  split; [rewrite Htr2, Htr1, <- !app_assoc; reflexivity|].
  split; [rewrite !List.filter_app, !length_app, Hc1, Hc2; reflexivity|].
  split; [rewrite !List.filter_app, Hs1, Hs2; reflexivity|].
  congruence.
Qed.

(** C5, as amended. With [auto_reconnect] on, the probe passing and every
    connection attempt failing: when [reconnect_interval] is a duration
    [time.sleep] takes, [start] retries once for each attempt that
    [max_reconnect_attempts] leaves over the attempts counted so far: it
    makes that many connection attempts plus the first one, sleeps
    [reconnect_interval] before each retry and counts it, then returns
    false with [running] still false.  The retry is a call of [start] by
    itself, so this needs one stack frame per attempt: with fewer frames
    than attempts, [RecursionError] is raised instead.  When
    [reconnect_interval] is not a duration [time.sleep] takes (NaN,
    negative, too long for the clock) and a retry is due, the exception of
    [time.sleep] leaves [start] after the first connection attempt, with
    nothing slept and no attempt counted. *)
Theorem start_retries (st : state) (stack : nat) :
  auto_reconnect st = true -> probe_passes st -> never_connects st ->
  running st = false ->
  (sleep_argument (reconnect_interval st) = Ok tt -> waits st ->
   ((retry_budget st < stack)%nat ->
    exists st' new,
      start stack st = (Ok false, st') /\
      running st' = false /\
      trace st' = trace st ++ new /\
      length (List.filter is_connect new) = Datatypes.S (retry_budget st) /\
      List.filter is_sleep new
      = repeat (Sleep (reconnect_interval st)) (retry_budget st) /\
      reconnect_count st'
      = Z.max (reconnect_count st) (max_reconnect_attempts st)) /\
   ((stack <= retry_budget st)%nat ->
    exists st', start stack st = (Raise RecursionError, st'))) /\
  (forall e,
      sleep_argument (reconnect_interval st) = Raise e ->
      (0 < retry_budget st)%nat -> (0 < stack)%nat ->
      exists st' new,
        start stack st = (Raise e, st') /\
        running st' = false /\
        trace st' = trace st ++ new /\
        length (List.filter is_connect new) = 1%nat /\
        List.filter is_sleep new = [] /\
        reconnect_count st' = reconnect_count st).
Proof.
  intros Hauto Hprobe Hnever Hrun. split.
  - intros Hsleep Hwaits.
    destruct (start_failing stack st Hauto Hprobe Hnever Hsleep Hwaits)
      as [Ha Hb].
    split; [|exact Hb].
    intros Hlt. destruct (Ha Hlt) as (st' & new & H1 & H2 & H3).
    exists st', new. split; [exact H1|]. split; [congruence|exact H3].
  - intros e Hsleep Hbudget Hstack.
    destruct stack as [|stack]; [lia|].
    destruct (start_sleep_refused stack st e Hauto Hprobe Hnever Hsleep Hbudget)
      as (st' & new & H1 & H2 & H3).
    exists st', new. split; [exact H1|]. split; [congruence|exact H3].
Qed.

(** A fresh client whose server never answers: no probe, [limit] retries
    allowed, every connection attempt timing out. *)
Definition unreachable_server (limit : Z) : state :=
  {| host := "localhost"; port := 9090;
     connectivity_check_enabled := false;
     auto_reconnect := true;
     reconnect_interval := 5;
     max_reconnect_attempts := limit;
     subscribe_topics := []; publish_topics := [];
     client := None; publishers := []; subscribers := [];
     running := false; reconnect_count := 0; _publish_threads := [];
     trace := [];
     world := fun _ e => match e with
                         | RosConnect _ _ => TimesOut
                         | _ => Succeeds
                         end |}.

Lemma unreachable_server_never_connects (limit : Z) :
  never_connects (unreachable_server limit).
Proof. intros tr h p. discriminate. Qed.

Lemma unreachable_server_waits (limit : Z) : waits (unreachable_server limit).
Proof. intros tr d x. discriminate. Qed.

Lemma sleep_argument_five : sleep_argument 5 = Ok tt.
Proof. vm_compute. reflexivity. Qed.

(** With three retries allowed and stack to spare: four attempts, three
    sleeps, then false. *)
Lemma start_retries_witness :
  exists st' new,
    start 10 (unreachable_server 3) = (Ok false, st') /\
    running st' = false /\
    trace st' = new /\
    length (List.filter is_connect new) = 4%nat /\
    List.filter is_sleep new = repeat (Sleep 5) 3 /\
    reconnect_count st' = 3%Z.
Proof.
  apply (proj1 (proj1 (start_retries (unreachable_server 3) 10 eq_refl
                         (or_introl eq_refl)
                         (unreachable_server_never_connects 3) eq_refl)
                  sleep_argument_five (unreachable_server_waits 3))).
  vm_compute. lia.
Defined.

(** C5 as stated fails: the retry is not a loop. With a thousand retries
    allowed and the thousand frames of Python's default recursion limit,
    [start] does not return false: the nested calls run out of stack. *)
Lemma start_recursion_overflow :
  exists st', start 1000 (unreachable_server 1000)
              = (Raise RecursionError, st').
Proof.
  apply (proj2 (start_failing 1000 (unreachable_server 1000) eq_refl
                  (or_introl eq_refl)
                  (unreachable_server_never_connects 1000)
                  sleep_argument_five (unreachable_server_waits 1000))).
  vm_compute. lia.
Qed.

(** When the probe fails, [start] gives up before any connection attempt. *)
Lemma start_probe_failure (stack : nat) (st : state) :
  probe_fails st ->
  exists st' evs,
    start (Datatypes.S stack) st = (Ok false, st') /\
    trace st'
    = trace st ++ evs
      ++ [Log ERROR "network unreachable, check the server"] /\
    List.filter is_connect evs = [] /\
    running st' = running st.
Proof.
  intros Hp.
  destruct (check_fails st Hp) as (st1 & evs & Hrun & Htr & Hsame & Hc).
  exists (set_trace
            (trace st1 ++ [Log ERROR "network unreachable, check the server"])
            st1), evs.
  cbn [start]. rewrite run_bind, Hrun. cbn beta iota. cbn [negb]. ros_run.
  split; [reflexivity|]. split; [rewrite Htr, <- app_assoc; reflexivity|].
  split; [exact Hc|].
  destruct Hsame as (_&_&_&_&_&_&Hr&_). exact Hr.
Qed.

End ROSProofs.

(** ** The ZeroMQ client *)

Section ZMQProofs.
Import ZMQ.
Context `{PyRuntime}.

Lemma zmq_run_emit (e : event) (st : state) :
  emit e st = (Ok tt, set_trace (trace st ++ [e]) st).
Proof. reflexivity. Qed.

Lemma zmq_run_log (l : level) (tag : string) (st : state) :
  log l tag st = (Ok tt, set_trace (trace st ++ [Log l tag]) st).
Proof. reflexivity. Qed.

Lemma zmq_run_call (e : event) (st : state) :
  call e st
  = (Ok (world st (trace st) e), set_trace (trace st ++ [e]) st).
Proof. reflexivity. Qed.

Ltac zmq_simpl :=
  cbn [cfg sockets running threads connected_endpoints objects trace world
       set_cfg set_sockets set_running set_threads set_connected_endpoints
       set_objects set_trace] in *.

Ltac zmq_run :=
  repeat (first [run_core | rewrite zmq_run_emit | rewrite zmq_run_log
                | rewrite zmq_run_call];
          cbn beta iota);
  zmq_simpl.

(** [m] changes nothing but the trace, and adds to it only events that
    satisfy [P]. *)
Definition only {A} (P : event -> Prop) (m : M A) : Prop :=
  forall st, exists evs,
    (m st).2 = set_trace (trace st ++ evs) st /\ Forall P evs.

Lemma set_trace_id (st : state) : set_trace (trace st ++ []) st = st.
Proof. destruct st. cbn. rewrite app_nil_r. reflexivity. Qed.

Section Only.
Context (P : event -> Prop).

Lemma only_ret {A} (a : A) : only P (ret a : M A).
Proof. intros st. exists []. rewrite set_trace_id. split; [reflexivity|constructor]. Qed.

Lemma only_mret {A} (a : A) : only P (mret a : M A).
Proof. apply only_ret. Qed.

Lemma only_gets {A} (f : state -> A) : only P (gets f).
Proof. intros st. exists []. rewrite set_trace_id. split; [reflexivity|constructor]. Qed.

Lemma only_raise {A} (e : exn) : only P (raise e : M A).
Proof. intros st. exists []. rewrite set_trace_id. split; [reflexivity|constructor]. Qed.

Lemma only_lift {A} (r : res A) : only P (lift r : M A).
Proof. intros st. exists []. rewrite set_trace_id. split; [reflexivity|constructor]. Qed.

Lemma only_emit (e : event) : P e -> only P (emit e).
Proof. intros He st. exists [e]. split; [reflexivity|]. repeat constructor. exact He. Qed.

Lemma only_log (l : level) (tag : string) : P (Log l tag) -> only P (log l tag).
Proof. apply only_emit. Qed.

Lemma only_call (e : event) : P e -> only P (call e).
Proof. intros He st. exists [e]. split; [reflexivity|]. repeat constructor. exact He. Qed.

Lemma only_bind {A B} (m : M A) (k : A -> M B) :
  only P m -> (forall a, only P (k a)) -> only P (m ≫= k).
Proof.
  intros Hm Hk st. rewrite run_bind.
  destruct (Hm st) as (e1 & E1 & F1).
  destruct (m st) as [[a|e] st1]; cbn [snd] in E1; subst st1.
  - destruct (Hk a (set_trace (trace st ++ e1) st)) as (e2 & E2 & F2).
    exists (e1 ++ e2). rewrite E2. zmq_simpl. rewrite app_assoc.
    split; [reflexivity|]. apply Forall_app. split; assumption.
  - exists e1. split; [reflexivity|assumption].
Qed.

Lemma only_try_except {A} (m : M A) (h : exn -> M A) :
  only P m -> (forall e, only P (h e)) -> only P (try_except m h).
Proof.
  intros Hm Hh st. rewrite run_try_except.
  destruct (Hm st) as (e1 & E1 & F1).
  destruct (m st) as [[a|e] st1]; cbn [snd] in E1; subst st1.
  - exists e1. split; [reflexivity|assumption].
  - destruct (Hh e (set_trace (trace st ++ e1) st)) as (e2 & E2 & F2).
    exists (e1 ++ e2). rewrite E2. zmq_simpl. rewrite app_assoc.
    split; [reflexivity|]. apply Forall_app. split; assumption.
Qed.

Lemma only_mapM {A B} (f : A -> M B) (l : list A) :
  (forall a, only P (f a)) -> only P (mapM f l).
Proof.
  intros Hf. induction l as [|a l IH]; cbn [mapM].
  - apply only_mret.
  - apply only_bind; [apply Hf|]. intros b.
    apply only_bind; [exact IH|]. intros bs. apply only_mret.
Qed.

End Only.

Lemma only_weaken {A} (P Q : event -> Prop) (m : M A) :
  (forall e, P e -> Q e) -> only P m -> only Q m.
Proof.
  intros HPQ Hm st. destruct (Hm st) as (evs & E & F).
  exists evs. split; [exact E|]. eapply Forall_impl; eauto.
Qed.

Ltac only_step :=
  lazymatch goal with
  | |- only _ (_ ≫= _) => apply only_bind; [|intros ?]
  | |- only _ (try_except _ _) => apply only_try_except; [|intros ?]
  | |- only _ (mapM _ _) => apply only_mapM; intros ?
  | |- only _ (ret _) => apply only_ret
  | |- only _ (mret _) => apply only_mret
  | |- only _ (gets _) => apply only_gets
  | |- only _ (raise _) => apply only_raise
  | |- only _ (lift _) => apply only_lift
  | |- only _ (emit _) => apply only_emit
  | |- only _ (log _ _) => apply only_log
  | |- only _ (call _) => apply only_call
  | |- only _ (match ?x with _ => _ end) => destruct x
  | |- only _ (if ?x then _ else _) => destruct x
  end.

Lemma only_configure (P : event -> Prop) (h : handle) :
  (forall o v, P (SetSockOpt h o v)) -> (forall l t, P (Log l t)) ->
  only P (_configure_socket h).
Proof.
  intros Hs Hl. unfold _configure_socket, setsockopt, on_socket, call_unit.
  repeat only_step; auto.
Qed.

Lemma try_except_ok {S A} (m : SE S A) (h : exn -> SE S A) (st : S) :
  (forall e st', exists a, (h e st').1 = Ok a) ->
  exists a, (try_except m h st).1 = Ok a.
Proof.
  intros Hh. rewrite run_try_except.
  destruct (m st) as [[a|e] st1]; [exists a; reflexivity|apply Hh].
Qed.

Lemma configure_ok (h : handle) (st : state) :
  exists evs, _configure_socket h st = (Ok tt, set_trace (trace st ++ evs) st).
Proof.
  destruct (only_configure (fun _ => True) h (fun _ _ => I) (fun _ _ => I) st)
    as (evs & E & _).
  exists evs.
  assert (Hok : exists a, (_configure_socket h st).1 = Ok a).
  { apply try_except_ok. intros e st'. exists tt. reflexivity. }
  destruct Hok as [[] Hok].
  destruct (_configure_socket h st) as [r st']. cbn [fst snd] in *.
  subst. reflexivity.
Qed.

Definition fresh_socket (ty : socket_type) : sock :=
  {| sock_type := ty; sock_closed := false |}.

Definition close_object (s : sock) : sock :=
  {| sock_type := sock_type s; sock_closed := true |}.

Definition is_close (e : event) : bool :=
  match e with Close _ => true | _ => false end.

(** Configuring a socket closes nothing. *)
Lemma configure_run (h : handle) (st : state) :
  exists evs,
    _configure_socket h st = (Ok tt, set_trace (trace st ++ evs) st) /\
    List.filter is_close evs = [].
Proof.
  destruct (only_configure (fun e => is_close e = false) h
              (fun _ _ => eq_refl) (fun _ _ => eq_refl) st)
    as (evs & E & Hevs).
  exists evs.
  assert (Hok : exists a, (_configure_socket h st).1 = Ok a).
  { apply try_except_ok. intros e st'. exists tt. reflexivity. }
  destruct Hok as [[] Hok].
  destruct (_configure_socket h st) as [r st']. cbn [fst snd] in *.
  subst. split; [reflexivity|].
  clear -Hevs. induction Hevs as [|e evs He _ IH]; [reflexivity|].
  cbn [List.filter]. rewrite He. exact IH.
Qed.

(** What letting go of a socket does, by the answers of the world. *)
Lemma release_run (h : handle) (st : state) :
  release h st
  = match world st (trace st) (Release h) with
    | Succeeds =>
        if is_open h st then
          match world st (trace st ++ [Release h]) (Close h) with
          | Fails _ =>
              (Ok tt, set_trace (trace st ++ [Release h; Close h]) st)
          | _ =>
              (Ok tt,
               set_trace (trace st ++ [Release h; Close h])
                 (set_objects (alter close_object h (objects st)) st))
          end
        else (Ok tt, set_trace (trace st ++ [Release h]) st)
    | _ => (Ok tt, set_trace (trace st ++ [Release h]) st)
    end.
Proof.
  unfold release, sock_close, call_unit. zmq_run.
  destruct (world st (trace st) (Release h)); zmq_run; try reflexivity.
  change (is_open h (set_trace (trace st ++ [Release h]) st))
    with (is_open h st).
  destruct (is_open h st); zmq_run; [|reflexivity].
  destruct (world st (trace st ++ [Release h]) (Close h)); zmq_run;
    rewrite <- ?app_assoc; reflexivity.
Qed.

Lemma release_total (h : handle) (st : state) :
  release h st = (Ok tt, (release h st).2).
Proof.
  rewrite release_run.
  destruct (world st (trace st) (Release h)); try reflexivity.
  destruct (is_open h st); [|reflexivity].
  destruct (world st (trace st ++ [Release h]) (Close h)); reflexivity.
Qed.

(** [create_socket] under a name: the socket is made and configured, the
    name is given to it, and the registry lets go of the socket the name
    held, if it held another. *)
Lemma create_socket_named (ty : socket_type) (name : string) (st : state) :
  name <> "" ->
  (forall x, world st (trace st) (CtxSocket ty (length (objects st))) <> Fails x) ->
  exists evs,
    List.filter is_close evs = [] /\
    let made :=
      set_trace (trace st ++ CtxSocket ty (length (objects st)) :: evs)
        (set_sockets (<[name := length (objects st)]> (sockets st))
           (set_objects (objects st ++ [fresh_socket ty]) st)) in
    let let_go :=
      match sockets st !! name with
      | Some old =>
          if decide (old = length (objects st)) then made
          else (release old made).2
      | None => made
      end in
    create_socket ty (Some name) st
    = (Ok (Some (length (objects st))),
       set_trace (trace let_go ++ [Log DEBUG "socket created"]) let_go).
Proof.
  intros Hname Hworld. unfold create_socket, ctx_socket, call_unit. zmq_run.
  destruct (world st (trace st) (CtxSocket ty (length (objects st)))) eqn:E;
    try (exfalso; eapply Hworld; reflexivity); zmq_run.
  all: match goal with
       | |- context [_configure_socket ?h ?s] =>
           destruct (configure_run h s) as (evs & -> & Hevs)
       end; zmq_run;
       unfold name_given; destruct (decide (name = "")); [contradiction|];
       zmq_run; exists evs; (split; [exact Hevs|]); cbv zeta;
       rewrite <- !app_assoc; cbn [app];
       destruct (sockets st !! name) as [old|]; zmq_run; [|reflexivity];
       destruct (decide (old = length (objects st))); zmq_run; [reflexivity|];
       rewrite release_total; reflexivity.
Qed.

Lemma create_socket_registers (ty : socket_type) (name : string) (st : state) :
  name <> "" ->
  sockets st !! name = None ->
  (forall x, world st (trace st) (CtxSocket ty (length (objects st))) <> Fails x) ->
  exists evs,
    create_socket ty (Some name) st
    = (Ok (Some (length (objects st))),
       set_trace (trace st ++ evs)
         (set_sockets (<[name := length (objects st)]> (sockets st))
            (set_objects (objects st ++ [fresh_socket ty]) st))).
Proof.
  intros Hname Hnone Hworld.
  destruct (create_socket_named ty name st Hname Hworld) as (evs & _ & E).
  rewrite Hnone in E. cbv zeta in E. rewrite E. zmq_simpl.
  eexists. rewrite <- app_assoc. reflexivity.
Qed.

Lemma close_socket_absent (name : string) (st : state) :
  sockets st !! name = None ->
  close_socket name st
  = (Ok false, set_trace (trace st ++ [Log WARNING "no such socket"]) st).
Proof. intros Hn. unfold close_socket. zmq_run. rewrite Hn. zmq_run. reflexivity. Qed.

Lemma close_socket_present (name : string) (h : handle) (st : state) :
  sockets st !! name = Some h ->
  (forall x, world st (trace st) (Close h) <> Fails x) ->
  close_socket name st
  = (Ok true,
     set_trace (trace st ++ [Close h; Log DEBUG "socket closed"])
       (set_sockets (delete name (sockets st))
          (set_objects (alter close_object h (objects st)) st))).
Proof.
  intros Hn Hw. unfold close_socket, sock_close, call_unit. zmq_run.
  rewrite Hn. zmq_run.
  destruct (world st (trace st) (Close h)) eqn:E;
    try (exfalso; eapply Hw; reflexivity); zmq_run;
    rewrite <- !app_assoc; reflexivity.
Qed.

Lemma is_open_app_l (h : handle) (st : state) (l : list sock) :
  is_open h st = true -> is_open h (set_objects (objects st ++ l) st) = true.
Proof.
  unfold is_open. zmq_simpl. destruct (objects st !! h) as [s|] eqn:E; [|discriminate].
  rewrite (lookup_app_l_Some _ _ _ _ E). auto.
Qed.

Lemma is_open_closed (h : handle) (st : state) (l : list event) (m : gmap string handle) :
  is_open h (set_trace l (set_sockets m
               (set_objects (alter close_object h (objects st)) st))) = false.
Proof.
  unfold is_open. zmq_simpl. rewrite list_lookup_alter.
  rewrite decide_True by reflexivity.
  destruct (objects st !! h); reflexivity.
Qed.

Lemma is_open_lt (h : handle) (st : state) :
  is_open h st = true -> (h < length (objects st))%nat.
Proof.
  unfold is_open. destruct (objects st !! h) eqn:E; [|discriminate].
  intros _. apply lookup_lt_is_Some. eauto.
Qed.

(** Letting go of one socket leaves the others as they were. *)
Lemma release_others (old h : handle) (st : state) :
  h <> old -> is_open h (release old st).2 = is_open h st.
Proof.
  intros Hne. rewrite release_run.
  destruct (world st (trace st) (Release old)); try reflexivity.
  destruct (is_open old st); [|reflexivity].
  destruct (world st (trace st ++ [Release old]) (Close old)); try reflexivity;
    cbn [snd]; unfold is_open; zmq_simpl;
    rewrite list_lookup_alter_ne by congruence; reflexivity.
Qed.

Lemma release_keeps (old : handle) (st : state) :
  sockets (release old st).2 = sockets st /\
  world (release old st).2 = world st /\
  cfg (release old st).2 = cfg st.
Proof.
  rewrite release_run.
  destruct (world st (trace st) (Release old)); try (repeat split; reflexivity).
  destruct (is_open old st); [|repeat split; reflexivity].
  destruct (world st (trace st ++ [Release old]) (Close old));
    repeat split; reflexivity.
Qed.

(** C9, as amended.  For a non-empty name: [create_socket] under that name
    returns a fresh handle, open, and the registry maps the name to it,
    leaving every other name as it was and every other open handle open.
    It closes nothing before the replacement: when the name held an open
    handle, no close comes before the registry lets go of that handle.
    Afterwards the handle is closed, by the finalizer, when nothing else
    refers to it; it stays open, out of the registry's reach, when
    something does.  [close_socket] on a registered name closes the
    handle, removes the name and answers [true]; on a name that is not
    registered it answers [false] and changes neither the registry nor any
    socket. *)
Theorem registry_create_close (st : state) (name : string) :
  name <> "" ->
  (forall ty,
      (forall x, world st (trace st) (CtxSocket ty (length (objects st)))
                 <> Fails x) ->
      exists st',
        create_socket ty (Some name) st
        = (Ok (Some (length (objects st))), st') /\
        sockets st' !! name = Some (length (objects st)) /\
        is_open (length (objects st)) st' = true /\
        (forall other, other <> name ->
                       sockets st' !! other = sockets st !! other) /\
        (forall prior, sockets st !! name <> Some prior ->
                       is_open prior st = true -> is_open prior st' = true) /\
        (forall old,
            sockets st !! name = Some old -> is_open old st = true ->
            exists before after,
              trace st' = trace st ++ before ++ Release old :: after /\
              List.filter is_close before = [] /\
              (world st (trace st ++ before) (Release old) <> Succeeds ->
               after = [Log DEBUG "socket created"] /\
               is_open old st' = true) /\
              (world st (trace st ++ before) (Release old) = Succeeds ->
               (forall x, world st (trace st ++ before ++ [Release old])
                            (Close old) <> Fails x) ->
               after = [Close old; Log DEBUG "socket created"] /\
               is_open old st' = false))) /\
  (forall h,
      sockets st !! name = Some h ->
      (forall x, world st (trace st) (Close h) <> Fails x) ->
      exists st',
        close_socket name st = (Ok true, st') /\
        sockets st' !! name = None /\
        is_open h st' = false /\
        (forall other, other <> name ->
                       sockets st' !! other = sockets st !! other)) /\
  (sockets st !! name = None ->
   exists st',
     close_socket name st = (Ok false, st') /\
     sockets st' = sockets st /\ objects st' = objects st).
Proof.
  intros Hname. split; [|split].
  - intros ty Hw.
    destruct (create_socket_named ty name st Hname Hw) as (evs & Hevs & E).
    cbv zeta in E. eexists. split; [exact E|]. clear E.
    set (made := set_trace _ (set_sockets _ (set_objects _ st))).
    assert (Hfresh : is_open (length (objects st)) made = true).
    { unfold is_open. subst made. zmq_simpl.
      rewrite list_lookup_middle by reflexivity. reflexivity. }
    assert (Hkept : forall prior, is_open prior st = true ->
                                  is_open prior made = true).
    { intros prior Hp. apply (is_open_app_l prior st _ Hp). }
    destruct (sockets st !! name) as [old|] eqn:Hheld.
    + destruct (decide (old = length (objects st))) as [Heq|Hne].
      * zmq_simpl. split; [apply lookup_insert_eq|].
        split; [exact Hfresh|].
        split; [intros other Ho; apply lookup_insert_ne; congruence|].
        split; [intros prior _ Hp; apply Hkept, Hp|].
        intros old' [= <-] Hopen. apply is_open_lt in Hopen. lia.
      * destruct (release_keeps old made) as (Hs & Hwd & _).
        split.
        { cbn [sockets set_trace]. rewrite Hs. subst made. zmq_simpl.
          apply lookup_insert_eq. }
        split.
        { change (is_open (length (objects st)) (release old made).2 = true).
          rewrite release_others by congruence. exact Hfresh. }
        split.
        { intros other Ho. cbn [sockets set_trace]. rewrite Hs. subst made.
          zmq_simpl. apply lookup_insert_ne. congruence. }
        split.
        { intros prior Hp Hopen.
          change (is_open prior (release old made).2 = true).
          rewrite release_others by congruence. apply Hkept, Hopen. }
        intros old' [= <-] Hopen.
        exists (CtxSocket ty (length (objects st)) :: evs).
        assert (Hom : is_open old made = true) by (apply Hkept, Hopen).
        assert (Htm : trace made
                      = trace st ++ CtxSocket ty (length (objects st)) :: evs)
          by reflexivity.
        assert (Hwm : world made = world st) by reflexivity.
        cbn [trace set_trace].
        change (is_open old (set_trace ?l ?s)) with (is_open old s).
        rewrite release_run, Hom, Htm, Hwm. clearbody made.
        destruct (world st (trace st ++ CtxSocket ty (length (objects st)) :: evs)
                    (Release old)) eqn:Erel.
        { destruct (world st
                      ((trace st ++ CtxSocket ty (length (objects st)) :: evs)
                         ++ [Release old]) (Close old)) eqn:Ecl.
          all: rewrite <- app_assoc in Ecl.
          all: eexists; split;
            [cbn [snd]; zmq_simpl; rewrite ?Htm, <- !app_assoc; reflexivity|];
            (split; [cbn [List.filter is_close]; exact Hevs|]);
            (split; [intros Hx; congruence|]);
            intros _ Hcl;
            try (exfalso; exact (Hcl _ Ecl));
            (split; [reflexivity|]);
            cbn [snd]; unfold is_open; zmq_simpl;
            rewrite list_lookup_alter, decide_True by reflexivity;
            destruct (_ !! old); reflexivity. }
        all: eexists; split;
          [cbn [snd]; zmq_simpl; rewrite ?Htm, <- !app_assoc; reflexivity|];
          (split; [cbn [List.filter is_close]; exact Hevs|]);
          (split; [|intros Hx; congruence]);
          intros _; (split; [reflexivity|]); cbn [snd]; exact Hom.
    + zmq_simpl. split; [apply lookup_insert_eq|].
      split; [exact Hfresh|].
      split; [intros other Ho; apply lookup_insert_ne; congruence|].
      split; [intros prior _ Hp; apply Hkept, Hp|].
      intros old [=].
  - intros h Hn Hw. eexists.
    split; [apply (close_socket_present name h st Hn Hw)|].
    split; [zmq_simpl; apply lookup_delete_eq|].
    split; [apply is_open_closed|].
    intros other Ho. zmq_simpl. apply lookup_delete_ne. congruence.
  - intros Hn. eexists. split; [apply (close_socket_absent name st Hn)|].
    split; reflexivity.
Qed.

Definition idle_config : config :=
  {| default_host := "localhost"; default_port := 5555;
     linger_time := 1000; high_water_mark := 1000;
     receive_timeout := 5000; send_timeout := 5000;
     connectivity_check_enabled := true;
     show_connection_status := true; show_message_content := false;
     max_message_length := 200;
     message_processing_sleep := 0x1.47ae147ae147bp-7;
     message_format := "json"; encoding_name := UTF8;
     continue_on_error := true |}.

Definition fresh_client (w : list event -> event -> outcome) : state :=
  {| cfg := idle_config; sockets := ∅; running := false; threads := [];
     connected_endpoints := []; objects := []; trace := [];
     world := w |}.

Definition calm : list event -> event -> outcome := fun _ _ => Succeeds.

(** A fresh client creating its first socket. *)
Lemma registry_create_close_witness :
  exists st',
    create_socket REQ (Some "req_client") (fresh_client calm) = (Ok (Some 0%nat), st') /\
    sockets st' !! "req_client" = Some 0%nat.
Proof.
  destruct (proj1 (registry_create_close (fresh_client calm) "req_client"
                     ltac:(discriminate)) REQ ltac:(discriminate))
    as (st' & E & Hs & _).
  exists st'. split; [exact E|exact Hs].
Defined.

(** The application keeps the sockets that [create_socket] hands it:
    the registry never holds the last reference. *)
Definition keeps_sockets : list event -> event -> outcome :=
  fun _ e =>
    match e with
    | Release _ => Code 1
    | _ => Succeeds
    end.

Definition create_twice : M (option handle) :=
  create_socket REQ (Some "req_client");;
  create_socket REQ (Some "req_client").

(** C9 as stated fails: the second creation under a name replaces the
    first handle while it is open.  When nothing else refers to the first
    socket it is closed only after the registry has let go of it; when the
    application has kept it, both handles end up open, the first out of the
    registry's reach and never closed. *)
Lemma create_socket_replaces_open_handle :
  trace (create_twice (fresh_client calm)).2
  = [CtxSocket REQ 0; SetSockOpt 0 "LINGER" 1000; SetSockOpt 0 "SNDHWM" 1000;
     SetSockOpt 0 "RCVHWM" 1000; SetSockOpt 0 "RCVTIMEO" 5000;
     SetSockOpt 0 "SNDTIMEO" 5000; Log DEBUG "socket created";
     CtxSocket REQ 1; SetSockOpt 1 "LINGER" 1000; SetSockOpt 1 "SNDHWM" 1000;
     SetSockOpt 1 "RCVHWM" 1000; SetSockOpt 1 "RCVTIMEO" 5000;
     SetSockOpt 1 "SNDTIMEO" 5000; Release 0; Close 0;
     Log DEBUG "socket created"] /\
  sockets (create_twice (fresh_client keeps_sockets)).2 !! "req_client"
  = Some 1%nat /\
  is_open 0 (create_twice (fresh_client keeps_sockets)).2 = true /\
  is_open 1 (create_twice (fresh_client keeps_sockets)).2 = true /\
  List.filter is_close (trace (create_twice (fresh_client keeps_sockets)).2)
  = [].
Proof. vm_compute. repeat split; reflexivity. Qed.

(** *** Deserialization

    The structured-text attempt: decode the bytes, then [json.loads]. *)
Definition json_attempt (c : config) (data : bytes) : res pyval :=
  json_str ← bytes_decode (encoding_name c) data; Json.loads json_str.

Definition unknown_format (c : config) : Prop :=
  message_format c <> "json" /\ message_format c <> "string" /\
  message_format c <> "bytes".

Lemma deserialize_payload_json (c : config) (data : bytes) :
  message_format c = "json" ->
  deserialize_payload c data = json_attempt c data.
Proof.
  intros Hf. unfold deserialize_payload, json_attempt.
  rewrite decide_True by exact Hf. reflexivity.
Qed.

Lemma deserialize_payload_unknown (c : config) (data : bytes) :
  unknown_format c ->
  deserialize_payload c data
  = match json_attempt c data with
    | Ok v => Ok v
    | Raise _ => text ← bytes_decode (encoding_name c) data; mret (PStr text)
    end.
Proof.
  intros (H1 & H2 & H3). unfold deserialize_payload, json_attempt.
  rewrite !decide_False by assumption. reflexivity.
Qed.

Lemma deserialize_message_run (data : bytes) (st : state) :
  _deserialize_message data st
  = match deserialize_payload (cfg st) data with
    | Ok v => (Ok v, st)
    | Raise _ =>
        (Ok PNone,
         set_trace (trace st ++ [Log ERROR "deserialization failed"]) st)
    end.
Proof.
  unfold _deserialize_message. zmq_run.
  destruct (deserialize_payload (cfg st) data); zmq_run; reflexivity.
Qed.

(** C8, as amended.  With one of the encodings utf-8, ascii and latin-1,
    or a name the codec registry does not know (under which nothing
    decodes): the deserializer raises under no format.  Under "json" it
    yields what [json.loads] reads in the decoded bytes, and
    [None] when the bytes do not decode or [json.loads] raises (text that
    is not structured text, or that nests deeper than the recursion limit
    leaves room for).  Only under a format that is none of "json",
    "string" and "bytes" does it fall back: what [json.loads] reads when it
    reads, else the bytes decoded as a string, else (the bytes not being
    text in the configured encoding) [None].  Under "string" it yields the
    decoded string, or [None]; under "bytes", the bytes. *)
Theorem deserialize_message_formats (st : state) (data : bytes) :
  (exists v st', _deserialize_message data st = (Ok v, st')) /\
  (message_format (cfg st) = "json" ->
   (_deserialize_message data st).1
   = Ok (match json_attempt (cfg st) data with
         | Ok v => v
         | Raise _ => PNone
         end)) /\
  (unknown_format (cfg st) ->
   (_deserialize_message data st).1
   = Ok (match json_attempt (cfg st) data with
         | Ok v => v
         | Raise _ =>
             match bytes_decode (encoding_name (cfg st)) data with
             | Ok text => PStr text
             | Raise _ => PNone
             end
         end)) /\
  (message_format (cfg st) = "string" ->
   (_deserialize_message data st).1
   = Ok (match bytes_decode (encoding_name (cfg st)) data with
         | Ok text => PStr text
         | Raise _ => PNone
         end)) /\
  (message_format (cfg st) = "bytes" ->
   (_deserialize_message data st).1 = Ok (PBytes data)).
Proof.
  split; [|split; [|split; [|split]]]; try intros Hf;
    rewrite deserialize_message_run.
  - destruct (deserialize_payload (cfg st) data); eauto.
  - rewrite (deserialize_payload_json _ _ Hf).
    destruct (json_attempt (cfg st) data); reflexivity.
  - rewrite (deserialize_payload_unknown _ _ Hf).
    destruct (json_attempt (cfg st) data); [reflexivity|].
    destruct (bytes_decode (encoding_name (cfg st)) data); reflexivity.
  - unfold deserialize_payload. rewrite Hf. cbn [decide].
    change (match (text ← bytes_decode (encoding_name (cfg st)) data;
                   mret (PStr text)) with
            | Ok v => (Ok v, st)
            | Raise _ =>
                (Ok PNone,
                 set_trace (trace st ++ [Log ERROR "deserialization failed"])
                   st)
            end.1
            = Ok match bytes_decode (encoding_name (cfg st)) data with
                 | Ok text => PStr text
                 | Raise _ => PNone
                 end).
    destruct (bytes_decode (encoding_name (cfg st)) data); reflexivity.
  - unfold deserialize_payload. rewrite Hf. reflexivity.
Qed.

(** *** [receive_message] *)

Lemma log_message_only (tag : string) (data : list pyval) :
  only (fun e => exists l t, e = Log l t) (log_message tag data).
Proof.
  unfold log_message. repeat only_step; eauto.
Qed.

Lemma receive_message_total (name : string) (st : state) :
  exists v st', receive_message name st = (Ok v, st').
Proof.
  unfold receive_message. rewrite run_try_except.
  match goal with |- context [match ?m with _ => _ end] => destruct m as [[v|e] st1] end.
  - eauto.
  - destruct (is_again e); zmq_run; eauto.
Qed.

Lemma receive_message_absent (name : string) (st : state) :
  sockets st !! name = None -> (receive_message name st).1 = Ok PNone.
Proof.
  intros Hn. unfold receive_message. zmq_run. rewrite Hn. zmq_run. reflexivity.
Qed.

Lemma receive_message_recv_raises (name : string) (h : handle) (st : state)
  (e : exn) :
  sockets st !! name = Some h ->
  (sock_recv h st).1 = Raise e ->
  (receive_message name st).1 = Ok PNone.
Proof.
  intros Hn Hr. unfold receive_message. zmq_run. rewrite Hn. zmq_run.
  destruct (sock_recv h st) as [[msg|e'] st1]; cbn [fst] in Hr; [discriminate|].
  cbn beta iota. destruct (is_again e'); zmq_run; reflexivity.
Qed.

Lemma receive_message_undecodable (name : string) (h : handle) (st st1 : state)
  (msg : bytes) (e : exn) :
  sockets st !! name = Some h ->
  sock_recv h st = (Ok msg, st1) ->
  deserialize_payload (cfg st1) msg = Raise e ->
  (receive_message name st).1 = Ok PNone.
Proof.
  intros Hn Hr Hd. unfold receive_message. zmq_run. rewrite Hn. zmq_run.
  rewrite Hr. cbn beta iota. rewrite run_bind, deserialize_message_run, Hd.
  cbn beta iota. rewrite run_bind.
  destruct (log_message _ _ _) as [[[]|e'] st2]; cbn beta iota.
  - zmq_run. reflexivity.
  - destruct (is_again e'); zmq_run; reflexivity.
Qed.

Lemma sock_recv_run (h : handle) (st : state) :
  sock_recv h st
  = if is_open h st then
      match world st (trace st) (Recv h) with
      | Delivers msg => (Ok msg, set_trace (trace st ++ [Recv h]) st)
      | Fails x => (Raise x, set_trace (trace st ++ [Recv h]) st)
      | _ => (Raise ZMQAgain, set_trace (trace st ++ [Recv h]) st)
      end
    else (Raise ZMQError, st).
Proof.
  unfold sock_recv, on_socket. zmq_run.
  destruct (is_open h st); zmq_run; [|reflexivity].
  destruct (world st (trace st) (Recv h)); zmq_run; reflexivity.
Qed.

(** C10.  [receive_message] never raises, and returns [None] when the
    name is not registered, when the socket is closed, when the receive
    delivers no message (a timeout or any other failure), and when the
    received bytes cannot be deserialized. *)
Theorem receive_message_none (name : string) (st : state) :
  (exists v st', receive_message name st = (Ok v, st')) /\
  (sockets st !! name = None -> (receive_message name st).1 = Ok PNone) /\
  (forall h,
      sockets st !! name = Some h ->
      (is_open h st = false -> (receive_message name st).1 = Ok PNone) /\
      ((forall msg, world st (trace st) (Recv h) <> Delivers msg) ->
       (receive_message name st).1 = Ok PNone) /\
      (forall msg e,
          is_open h st = true ->
          world st (trace st) (Recv h) = Delivers msg ->
          deserialize_payload (cfg st) msg = Raise e ->
          (receive_message name st).1 = Ok PNone)).
Proof.
  split; [apply receive_message_total|].
  split; [apply receive_message_absent|].
  intros h Hn. split; [|split].
  - intros Hc. apply (receive_message_recv_raises name h st ZMQError Hn).
    rewrite sock_recv_run, Hc. reflexivity.
  - intros Hw. destruct (is_open h st) eqn:Ho.
    + destruct (world st (trace st) (Recv h)) as [|x|msg|parts|c] eqn:E.
      3: exfalso; apply (Hw msg); reflexivity.
      all: eapply (receive_message_recv_raises name h st _ Hn);
           rewrite sock_recv_run, Ho, E; reflexivity.
    + apply (receive_message_recv_raises name h st ZMQError Hn).
      rewrite sock_recv_run, Ho. reflexivity.
  - intros msg e Ho Hw Hd.
    eapply (receive_message_undecodable name h st _ msg e Hn).
    + rewrite sock_recv_run, Ho, Hw. reflexivity.
    + exact Hd.
Qed.
(** *** The subscriber loop *)

Lemma sock_recv_multipart_run (h : handle) (st : state) :
  sock_recv_multipart h st
  = if is_open h st then
      match world st (trace st) (RecvMultipart h) with
      | DeliversParts parts =>
          (Ok parts, set_trace (trace st ++ [RecvMultipart h]) st)
      | Delivers msg =>
          (Ok [msg], set_trace (trace st ++ [RecvMultipart h]) st)
      | Fails x => (Raise x, set_trace (trace st ++ [RecvMultipart h]) st)
      | _ => (Raise ZMQAgain, set_trace (trace st ++ [RecvMultipart h]) st)
      end
    else (Raise ZMQError, st).
Proof.
  unfold sock_recv_multipart, on_socket. zmq_run.
  destruct (is_open h st); zmq_run; [|reflexivity].
  destruct (world st (trace st) (RecvMultipart h)); zmq_run; reflexivity.
Qed.

(** [time.sleep] takes the pause between messages: the duration is one
    it accepts, and the platform waits. *)
Definition pauses (st : state) : Prop :=
  sleep_argument (message_processing_sleep (cfg st)) = Ok tt /\
  forall tr x,
    world st tr (Sleep (message_processing_sleep (cfg st))) <> Fails x.

Lemma zmq_run_time_sleep (seconds : float) (st : state) :
  time_sleep seconds st
  = match sleep_argument seconds with
    | Ok _ =>
        match world st (trace st) (Sleep seconds) with
        | Fails x => (Raise x, set_trace (trace st ++ [Sleep seconds]) st)
        | _ => (Ok tt, set_trace (trace st ++ [Sleep seconds]) st)
        end
    | Raise e => (Raise e, st)
    end.
Proof.
  unfold time_sleep, call_unit. rewrite run_bind, run_lift.
  destruct (sleep_argument seconds) as [[]|e]; [|reflexivity].
  cbn beta iota. zmq_run.
  destruct (world st (trace st) (Sleep seconds)); reflexivity.
Qed.

Lemma sleep_between_messages_pauses (st : state) :
  pauses st ->
  sleep_between_messages st
  = (Ok tt,
     set_trace (trace st ++ [Sleep (message_processing_sleep (cfg st))]) st).
Proof.
  intros [Ha Hw]. unfold sleep_between_messages. zmq_run.
  rewrite zmq_run_time_sleep, Ha.
  pose proof (Hw (trace st)) as Hx.
  destruct (world st (trace st) (Sleep (message_processing_sleep (cfg st))));
    try reflexivity.
  exfalso. exact (Hx _ eq_refl).
Qed.

Lemma sleep_between_messages_refused (st : state) (e : exn) :
  sleep_argument (message_processing_sleep (cfg st)) = Raise e ->
  sleep_between_messages st = (Raise e, st).
Proof.
  intros Ha. unfold sleep_between_messages. zmq_run.
  rewrite zmq_run_time_sleep, Ha. reflexivity.
Qed.

Lemma only_sleep_between_messages (P : event -> Prop) :
  (forall d, P (Sleep d)) -> only P sleep_between_messages.
Proof.
  intros HP. unfold sleep_between_messages, time_sleep, call_unit.
  repeat only_step; auto.
Qed.

(** The [except] clause of the loops ends the iteration without raising
    when it does not sleep, or when [time.sleep] takes the pause. *)
Lemma loop_error_total (tag fatal_tag : string) (st : state) :
  continue_on_error (cfg st) = false \/ pauses st ->
  exists f st', loop_error tag fatal_tag st = (Ok f, st').
Proof.
  intros Hc. unfold loop_error. zmq_run.
  destruct (continue_on_error (cfg st)) eqn:Ec; zmq_run; [|eauto].
  destruct Hc as [Hc|Hp]; [discriminate|].
  rewrite sleep_between_messages_pauses by exact Hp. zmq_run. eauto.
Qed.

Lemma try_except_total {A} (m : M A) (h : exn -> M A) (st : state) :
  only (fun _ => True) m ->
  (forall e evs,
      exists a st', h e (set_trace (trace st ++ evs) st) = (Ok a, st')) ->
  exists a st', try_except m h st = (Ok a, st').
Proof.
  intros Hm Hh. rewrite run_try_except.
  destruct (Hm st) as (evs & E & _).
  destruct (m st) as [[a|e] st1]; [eauto|].
  cbn [snd] in E. subst st1. apply Hh.
Qed.

Lemma receive_multipart_message_only (name : string) :
  only (fun _ => True) (receive_multipart_message name).
Proof.
  unfold receive_multipart_message, sock_recv_multipart, on_socket,
    _deserialize_message, log_message.
  repeat only_step; auto.
Qed.

Lemma receive_message_only (name : string) :
  only (fun _ => True) (receive_message name).
Proof.
  unfold receive_message, sock_recv, on_socket, _deserialize_message,
    log_message.
  repeat only_step; auto.
Qed.

Lemma subscriber_iteration_total (name : string) (callback : pyval -> res unit)
  (st : state) :
  continue_on_error (cfg st) = false \/ pauses st ->
  exists f st', subscriber_iteration name callback st = (Ok f, st').
Proof.
  intros Hc. unfold subscriber_iteration. apply try_except_total.
  - apply only_bind; [apply receive_multipart_message_only|intros parts].
    pose proof (only_sleep_between_messages (fun _ => True) (fun _ => I)).
    unfold invoke_callback. repeat only_step; auto.
  - intros e evs. apply loop_error_total. exact Hc.
Qed.

(** With [continue_on_error] set and a pause that [time.sleep] refuses, an
    iteration that finds no message does raise: the sleep fails in the
    [try] block and again in the [except] clause. *)
Lemma subscriber_iteration_escapes (name : string)
  (callback : pyval -> res unit) (st : state) (e : exn) :
  (receive_multipart_message name st).1 = Ok [] ->
  continue_on_error (cfg st) = true ->
  sleep_argument (message_processing_sleep (cfg st)) = Raise e ->
  exists st', subscriber_iteration name callback st = (Raise e, st').
Proof.
  intros Hr Hc Ha. unfold subscriber_iteration.
  rewrite run_try_except, run_bind.
  destruct (receive_multipart_message_only name st) as (evs & E & _).
  destruct (receive_multipart_message name st) as [[parts|x] st1];
    cbn [fst snd] in *; [|discriminate].
  injection Hr as ->. subst st1. cbn beta iota.
  rewrite run_bind, (sleep_between_messages_refused _ e) by exact Ha.
  cbn beta iota. unfold loop_error. zmq_run. rewrite Hc. zmq_run.
  rewrite (sleep_between_messages_refused _ e) by exact Ha. eauto.
Qed.

Lemma deserialize_message_bytes (data : bytes) (st : state) :
  message_format (cfg st) = "bytes" ->
  _deserialize_message data st = (Ok (PBytes data), st).
Proof.
  intros Hf. rewrite deserialize_message_run. unfold deserialize_payload.
  rewrite Hf. reflexivity.
Qed.

Lemma mapM_deserialize_bytes (parts : list bytes) (st : state) :
  message_format (cfg st) = "bytes" ->
  mapM _deserialize_message parts st = (Ok (map PBytes parts), st).
Proof.
  intros Hf. induction parts as [|p parts IH]; [reflexivity|].
  cbn [mapM map]. rewrite run_bind, (deserialize_message_bytes p st Hf).
  cbn beta iota. rewrite run_bind, IH. reflexivity.
Qed.

Lemma log_message_quiet (tag : string) (data : list pyval) (st : state) :
  show_message_content (cfg st) = false ->
  log_message tag data st = (Ok tt, set_trace (trace st ++ [Log DEBUG tag]) st).
Proof.
  intros Hs. unfold log_message. zmq_run. rewrite Hs. zmq_run. reflexivity.
Qed.

Lemma receive_multipart_bytes (name : string) (h : handle) (parts : list bytes)
  (st : state) :
  sockets st !! name = Some h ->
  is_open h st = true ->
  world st (trace st) (RecvMultipart h) = DeliversParts parts ->
  message_format (cfg st) = "bytes" ->
  show_message_content (cfg st) = false ->
  receive_multipart_message name st
  = (Ok (map PBytes parts),
     set_trace (trace st ++ [RecvMultipart h;
                             Log DEBUG "multipart message received"]) st).
Proof.
  intros Hn Ho Hw Hf Hs. unfold receive_multipart_message. zmq_run.
  rewrite Hn. zmq_run. rewrite sock_recv_multipart_run, Ho, Hw. cbn beta iota.
  rewrite run_bind, mapM_deserialize_bytes by exact Hf. cbn beta iota.
  rewrite run_bind, log_message_quiet by exact Hs. cbn beta iota.
  zmq_run. rewrite <- app_assoc. reflexivity.
Qed.

(** The frame the loop hands over from a triple: the third when it is not
    empty, else the second. *)
Definition chosen_frame (frame2 frame3 : bytes) : bytes :=
  match frame3 with [] => frame2 | _ => frame3 end.

Lemma pylen_bytes_pos (b : bytes) : b <> [] -> (0 <? pylen (PBytes b)) = true.
Proof.
  intros Hb. destruct b as [|x b]; [contradiction|].
  apply N.ltb_lt. cbn [pylen]. unfold len. cbn [length]. lia.
Qed.

Lemma truthy_bytes (b : bytes) : b <> [] -> truthy (PBytes b) = true.
Proof.
  intros Hb. destruct b as [|x b]; [contradiction|].
  cbn [truthy]. apply negb_true_iff, N.eqb_neq. unfold len. cbn [length]. lia.
Qed.

Lemma usable_override_empty : usable_override (PBytes []) = false.
Proof. reflexivity. Qed.

Lemma usable_override_bytes (b : bytes) :
  b <> [] -> usable_override (PBytes b) = true.
Proof.
  intros Hb. unfold usable_override.
  rewrite (truthy_bytes b Hb), (pylen_bytes_pos b Hb). reflexivity.
Qed.

Lemma deliverable_bytes (b : bytes) : b <> [] -> deliverable (PBytes b) = true.
Proof.
  intros Hb. unfold deliverable. rewrite (pylen_bytes_pos b Hb). reflexivity.
Qed.

(** C2, as amended.  The subscriber loop compares no declared length with
    any payload.  One iteration does not raise when [continue_on_error] is
    off or [time.sleep] takes [message_processing_sleep]; with
    [continue_on_error] on and a [message_processing_sleep] that
    [time.sleep] refuses, an iteration that finds no message raises.  And
    when a triple of frames arrives under the format "bytes", with message
    contents not shown and a callback that returns, the iteration hands the
    third frame to the callback when that frame is not empty, else the
    second, whatever length either of them declares, logs no error and goes
    on. *)
Theorem subscriber_iteration_triple (name : string)
  (callback : pyval -> res unit) (st : state) :
  (continue_on_error (cfg st) = false \/ pauses st ->
   exists f st', subscriber_iteration name callback st = (Ok f, st')) /\
  (forall e,
      (receive_multipart_message name st).1 = Ok [] ->
      continue_on_error (cfg st) = true ->
      sleep_argument (message_processing_sleep (cfg st)) = Raise e ->
      exists st', subscriber_iteration name callback st = (Raise e, st')) /\
  (forall h topic frame2 frame3,
      sockets st !! name = Some h ->
      is_open h st = true ->
      world st (trace st) (RecvMultipart h)
      = DeliversParts [topic; frame2; frame3] ->
      message_format (cfg st) = "bytes" ->
      show_message_content (cfg st) = false ->
      chosen_frame frame2 frame3 <> [] ->
      callback (PBytes (chosen_frame frame2 frame3)) = Ok tt ->
      subscriber_iteration name callback st
      = (Ok Continue,
         set_trace (trace st ++ [RecvMultipart h;
                                 Log DEBUG "multipart message received";
                                 Callback (PBytes (chosen_frame frame2 frame3))])
           st)).
Proof.
  split; [apply subscriber_iteration_total|].
  split; [intros e; apply subscriber_iteration_escapes|].
  intros h topic frame2 frame3 Hn Ho Hw Hf Hs Hc Hcb.
  unfold subscriber_iteration. rewrite run_try_except, run_bind.
  rewrite (receive_multipart_bytes name h _ st Hn Ho Hw Hf Hs).
  cbn [map]. cbn beta iota.
  assert (Hsel : (if usable_override (PBytes frame3) then PBytes frame3
                  else PBytes frame2) = PBytes (chosen_frame frame2 frame3)).
  { destruct frame3 as [|x frame3]; [reflexivity|].
    rewrite usable_override_bytes by discriminate. reflexivity. }
  rewrite Hsel, (deliverable_bytes _ Hc).
  unfold invoke_callback. zmq_run. rewrite Hcb. zmq_run.
  rewrite <- app_assoc. reflexivity.
Qed.

(** *** The server loop *)

Lemma receive_message_decoded (name : string) (h : handle) (msg : bytes)
  (request : pyval) (st : state) :
  sockets st !! name = Some h ->
  is_open h st = true ->
  world st (trace st) (Recv h) = Delivers msg ->
  deserialize_payload (cfg st) msg = Ok request ->
  show_message_content (cfg st) = false ->
  receive_message name st
  = (Ok request,
     set_trace (trace st ++ [Recv h; Log DEBUG "message received"]) st).
Proof.
  intros Hn Ho Hw Hd Hs. unfold receive_message. zmq_run.
  rewrite Hn. zmq_run. rewrite sock_recv_run, Ho, Hw. cbn beta iota.
  rewrite run_bind, deserialize_message_run. zmq_simpl. rewrite Hd.
  cbn beta iota. rewrite run_bind, log_message_quiet by exact Hs.
  zmq_run. rewrite <- app_assoc. reflexivity.
Qed.

Lemma serialize_message_run (data : pyval) (st : state) :
  _serialize_message data st
  = match serialize_payload (cfg st) data with
    | Ok b => (Ok b, st)
    | Raise _ =>
        (Ok [], set_trace (trace st ++ [Log ERROR "serialization failed"]) st)
    end.
Proof.
  unfold _serialize_message. zmq_run.
  destruct (serialize_payload (cfg st) data); zmq_run; reflexivity.
Qed.

Lemma sock_send_run (h : handle) (msg : bytes) (st : state) :
  sock_send h msg st
  = if is_open h st then
      match world st (trace st) (Send h msg) with
      | Fails x => (Raise x, set_trace (trace st ++ [Send h msg]) st)
      | _ => (Ok tt, set_trace (trace st ++ [Send h msg]) st)
      end
    else (Raise ZMQError, st).
Proof.
  unfold sock_send, on_socket, call_unit. zmq_run.
  destruct (is_open h st); zmq_run; [|reflexivity].
  destruct (world st (trace st) (Send h msg)); zmq_run; reflexivity.
Qed.

Lemma is_open_set_trace (h : handle) (l : list event) (st : state) :
  is_open h (set_trace l st) = is_open h st.
Proof. reflexivity. Qed.

Lemma send_message_sends (name : string) (h : handle) (response : pyval)
  (out : bytes) (st : state) :
  sockets st !! name = Some h ->
  is_open h st = true ->
  serialize_payload (cfg st) response = Ok out ->
  out <> [] ->
  show_message_content (cfg st) = false ->
  exists sent l tag,
    send_message name response st
    = (Ok sent, set_trace (trace st ++ [Send h out; Log l tag]) st).
Proof.
  intros Hn Ho Hser Hout Hs. unfold send_message. zmq_run.
  rewrite Hn. zmq_run. rewrite serialize_message_run, Hser. cbn beta iota.
  destruct out as [|x out]; [contradiction|].
  rewrite run_bind, sock_send_run, Ho.
  destruct (world st (trace st) (Send h (x :: out))); cbn beta iota.
  2: { zmq_run. eexists _, _, _. rewrite <- app_assoc. reflexivity. }
  all: rewrite run_bind, log_message_quiet by exact Hs; zmq_run;
       eexists _, _, _; rewrite <- app_assoc; reflexivity.
Qed.

Definition is_send (e : event) : bool :=
  match e with Send _ _ => true | _ => false end.

(** C7, as amended.  One iteration of the server loop on an open REP
    socket that receives a message deserializing to a request other than
    [None], message contents not being shown in the log: when the handler
    returns a response other than [None] whose
    serialization is not empty, the iteration sends that serialization on
    the socket, after the handler ran and before the iteration ends; when
    the handler returns [None], the iteration ends without having sent
    anything.  In both cases the loop goes on to its next receive. *)
Theorem server_iteration_reply (name : string) (handler : pyval -> res pyval)
  (st : state) (h : handle) (s : sock) (msg : bytes) (request : pyval) :
  sockets st !! name = Some h ->
  objects st !! h = Some s ->
  sock_type s = REP ->
  sock_closed s = false ->
  world st (trace st) (Recv h) = Delivers msg ->
  deserialize_payload (cfg st) msg = Ok request ->
  is_none request = false ->
  show_message_content (cfg st) = false ->
  (forall response out,
      handler request = Ok response ->
      is_none response = false ->
      serialize_payload (cfg st) response = Ok out ->
      out <> [] ->
      exists l tag,
        server_iteration name handler st
        = (Ok Continue,
           set_trace (trace st ++ [Recv h; Log DEBUG "message received";
                                   Handler request; Send h out; Log l tag])
             st)) /\
  (handler request = Ok PNone ->
   server_iteration name handler st
   = (Ok Continue,
      set_trace (trace st ++ [Recv h; Log DEBUG "message received";
                              Handler request]) st)).
Proof.
  intros Hn Hobj Hty Hcl Hw Hd Hreq Hs.
  assert (Ho : is_open h st = true).
  { unfold is_open. rewrite Hobj, Hcl. reflexivity. }
  split.
  - intros response out Hh Hresp Hser Hout.
    unfold server_iteration. rewrite run_try_except, run_bind.
    rewrite (receive_message_decoded name h msg request st Hn Ho Hw Hd Hs).
    cbn beta iota. rewrite Hreq. cbn [negb]. zmq_run. rewrite Hh. zmq_run.
    rewrite Hn. unfold socket_type_of. zmq_run. rewrite Hobj. zmq_run.
    rewrite Hty, Hresp. cbn [is_REP negb andb]. rewrite run_bind.
    match goal with
    | |- context [send_message name response ?s1] =>
        destruct (send_message_sends name h response out s1)
          as (sent & l & tag & E); [assumption..|]
    end.
    rewrite E. zmq_run. exists l, tag. rewrite <- !app_assoc. reflexivity.
  - intros Hh.
    unfold server_iteration. rewrite run_try_except, run_bind.
    rewrite (receive_message_decoded name h msg request st Hn Ho Hw Hd Hs).
    cbn beta iota. rewrite Hreq. cbn [negb]. zmq_run. rewrite Hh. zmq_run.
    rewrite Hn. unfold socket_type_of. zmq_run. rewrite Hobj. zmq_run.
    rewrite Hty. cbn [is_REP is_none negb andb]. zmq_run.
    rewrite <- !app_assoc. reflexivity.
Qed.

(** *** Connecting after a failed probe *)

(** The trace of the second state continues that of the first. *)
Definition extends (st st' : state) : Prop :=
  exists evs, trace st' = trace st ++ evs.

Definition grows {A} (m : M A) : Prop := forall st, extends st (m st).2.

Lemma extends_refl (st : state) : extends st st.
Proof. exists []. rewrite app_nil_r. reflexivity. Qed.

Lemma extends_trans (st1 st2 st3 : state) :
  extends st1 st2 -> extends st2 st3 -> extends st1 st3.
Proof.
  intros [e1 E1] [e2 E2]. exists (e1 ++ e2).
  rewrite E2, E1, app_assoc. reflexivity.
Qed.

Lemma extends_set_trace (st : state) (evs : list event) :
  extends st (set_trace (trace st ++ evs) st).
Proof. exists evs. reflexivity. Qed.

Lemma grows_ret {A} (a : A) : grows (ret a : M A).
Proof. intros st. apply extends_refl. Qed.

Lemma grows_mret {A} (a : A) : grows (mret a : M A).
Proof. intros st. apply extends_refl. Qed.

Lemma grows_gets {A} (f : state -> A) : grows (gets f).
Proof. intros st. apply extends_refl. Qed.

Lemma grows_raise {A} (e : exn) : grows (raise e : M A).
Proof. intros st. apply extends_refl. Qed.

Lemma grows_lift {A} (r : res A) : grows (lift r : M A).
Proof. intros st. apply extends_refl. Qed.

Lemma grows_emit (e : event) : grows (emit e).
Proof. intros st. apply extends_set_trace. Qed.

Lemma grows_log (l : level) (tag : string) : grows (log l tag).
Proof. apply grows_emit. Qed.

Lemma grows_call (e : event) : grows (call e).
Proof. intros st. apply extends_set_trace. Qed.

Lemma grows_modify (f : state -> state) :
  (forall st, trace (f st) = trace st) -> grows (modify f).
Proof.
  intros Hf st. rewrite run_modify. exists []. cbn [snd].
  rewrite Hf, app_nil_r. reflexivity.
Qed.

Lemma bind_extends {A B} (m : M A) (k : A -> M B) (st : state) :
  (forall a, grows (k a)) -> extends (m st).2 ((m ≫= k) st).2.
Proof.
  intros Hk. rewrite run_bind. destruct (m st) as [[a|e] st1]; cbn [snd].
  - apply Hk.
  - apply extends_refl.
Qed.

Lemma try_except_extends {A} (m : M A) (h : exn -> M A) (st : state) :
  (forall e, grows (h e)) -> extends (m st).2 (try_except m h st).2.
Proof.
  intros Hh. rewrite run_try_except.
  destruct (m st) as [[a|e] st1]; cbn [snd].
  - apply extends_refl.
  - apply Hh.
Qed.

Lemma grows_bind {A B} (m : M A) (k : A -> M B) :
  grows m -> (forall a, grows (k a)) -> grows (m ≫= k).
Proof.
  intros Hm Hk st.
  exact (extends_trans _ _ _ (Hm st) (bind_extends m k st Hk)).
Qed.

Lemma grows_try_except {A} (m : M A) (h : exn -> M A) :
  grows m -> (forall e, grows (h e)) -> grows (try_except m h).
Proof.
  intros Hm Hh st.
  exact (extends_trans _ _ _ (Hm st) (try_except_extends m h st Hh)).
Qed.

Lemma grows_mapM {A B} (f : A -> M B) (l : list A) :
  (forall a, grows (f a)) -> grows (mapM f l).
Proof.
  intros Hf. induction l as [|a l IH]; cbn [mapM].
  - apply grows_mret.
  - apply grows_bind; [apply Hf|]. intros b.
    apply grows_bind; [exact IH|]. intros bs. apply grows_mret.
Qed.

Ltac grows_step :=
  lazymatch goal with
  | |- grows (_ ≫= _) => apply grows_bind; [|intros ?]
  | |- grows (try_except _ _) => apply grows_try_except; [|intros ?]
  | |- grows (mapM _ _) => apply grows_mapM; intros ?
  | |- grows (ret _) => apply grows_ret
  | |- grows (mret _) => apply grows_mret
  | |- grows (gets _) => apply grows_gets
  | |- grows (raise _) => apply grows_raise
  | |- grows (lift _) => apply grows_lift
  | |- grows (emit _) => apply grows_emit
  | |- grows (log _ _) => apply grows_log
  | |- grows (call _) => apply grows_call
  | |- grows (modify _) => apply grows_modify; intros ?; reflexivity
  | |- grows (match ?x with _ => _ end) => destruct x
  | |- grows (if ?x then _ else _) => destruct x
  end.

Lemma grows_connect_socket (h : handle) (endpoint : string) :
  grows (connect_socket h endpoint).
Proof.
  unfold connect_socket, sock_connect, on_socket, call_unit.
  repeat grows_step.
Qed.

Lemma grows_sock_subscribe (h : handle) (topic : string) :
  grows (sock_subscribe h topic).
Proof. unfold sock_subscribe, on_socket, call_unit. repeat grows_step. Qed.

Lemma grows_start_subscriber_loop (name : string) :
  grows (start_subscriber_loop name).
Proof. unfold start_subscriber_loop, start_thread. repeat grows_step. Qed.

(** [create_socket] begins by asking the context for a socket. *)
Lemma grows_release (h : handle) : grows (release h).
Proof. unfold release, sock_close, call_unit. repeat grows_step. Qed.

Lemma extends_attempt (st st1 st2 : state) (e : event) :
  (exists evs, trace st1 = trace st ++ e :: evs) ->
  extends st1 st2 ->
  exists evs, trace st2 = trace st ++ e :: evs.
Proof.
  intros [e1 E1] [e2 E2]. exists (e1 ++ e2).
  rewrite E2, E1, <- app_assoc. reflexivity.
Qed.

Lemma create_socket_attempts (ty : socket_type) (name : option string)
  (st : state) :
  exists evs,
    trace (create_socket ty name st).2
    = trace st ++ CtxSocket ty (length (objects st)) :: evs.
Proof.
  unfold create_socket.
  apply (extends_attempt st (ctx_socket ty st).2).
  - unfold ctx_socket, call_unit. zmq_run.
    destruct (world st (trace st) (CtxSocket ty (length (objects st))));
      zmq_run; exists []; reflexivity.
  - eapply extends_trans;
      [|apply try_except_extends; intros e; repeat grows_step].
    apply bind_extends. intros h.
    unfold _configure_socket, setsockopt, on_socket, call_unit.
    pose proof grows_release. repeat grows_step; auto.
Qed.

Lemma tcp_endpoint_not_empty (host : string) (port : N) :
  tcp_endpoint host port <> "".
Proof. unfold tcp_endpoint. cbn [String.append]. discriminate. Qed.

Lemma endpoint_given (host : string) (port : N) (st : state) :
  endpoint_or_default (Some (tcp_endpoint host port)) st
  = (Ok (tcp_endpoint host port), st).
Proof.
  unfold endpoint_or_default.
  rewrite decide_False by apply tcp_endpoint_not_empty. reflexivity.
Qed.

Lemma create_req_client_attempts (host : string) (port : N) (name : string)
  (st : state) :
  exists evs,
    trace (create_req_client (Some (tcp_endpoint host port)) name st).2
    = trace st ++ CtxSocket REQ (length (objects st)) :: evs.
Proof.
  unfold create_req_client.
  eapply extends_attempt; [apply (create_socket_attempts REQ (Some name) st)|].
  eapply extends_trans; [|apply try_except_extends; intros e; repeat grows_step].
  rewrite run_bind, endpoint_given. cbn beta iota.
  apply bind_extends. intros [h'|]; [apply grows_connect_socket|apply grows_ret].
Qed.

Lemma create_push_client_attempts (host : string) (port : N) (name : string)
  (st : state) :
  exists evs,
    trace (create_push_client (Some (tcp_endpoint host port)) name st).2
    = trace st ++ CtxSocket PUSH (length (objects st)) :: evs.
Proof.
  unfold create_push_client.
  eapply extends_attempt; [apply (create_socket_attempts PUSH (Some name) st)|].
  eapply extends_trans; [|apply try_except_extends; intros e; repeat grows_step].
  rewrite run_bind, endpoint_given. cbn beta iota.
  apply bind_extends. intros [h'|]; [apply grows_connect_socket|apply grows_ret].
Qed.

Lemma create_sub_client_attempts (host : string) (port : N) (name : string)
  (topics : list string) (st : state) :
  exists evs,
    trace (create_sub_client (Some (tcp_endpoint host port)) name topics st).2
    = trace st ++ CtxSocket SUB (length (objects st)) :: evs.
Proof.
  unfold create_sub_client.
  eapply extends_attempt; [apply (create_socket_attempts SUB (Some name) st)|].
  eapply extends_trans; [|apply try_except_extends; intros e; repeat grows_step].
  rewrite run_bind, endpoint_given. cbn beta iota.
  apply bind_extends. intros [h'|]; [|apply grows_ret].
  apply grows_bind; [|intros ?; apply grows_connect_socket].
  destruct topics.
  - apply grows_bind; [apply grows_sock_subscribe|intros ?; apply grows_log].
  - apply grows_bind; [|intros ?; apply grows_ret].
    apply grows_mapM. intros topic.
    apply grows_bind; [apply grows_sock_subscribe|intros ?; apply grows_log].
Qed.

(** The answers of the world to a probe that make it fail: a non-zero
    code of [connect_ex], or an exception. *)
Definition refused (o : outcome) : Prop :=
  match o with
  | Code c => c <> 0%Z
  | Fails _ => True
  | _ => False
  end.

(** The socket type [connect_to_remote_host] makes for a type name. *)
Definition requested_type (socket_type : string) : option ZMQ.socket_type :=
  if decide (lower socket_type = "req") then Some REQ
  else if decide (lower socket_type = "sub") then Some SUB
  else if decide (lower socket_type = "push") then Some PUSH
  else None.

Lemma check_refused (host : string) (port : N) (st : state) :
  connectivity_check_enabled (cfg st) = true ->
  default_host (cfg st) = host ->
  default_port (cfg st) = port ->
  refused (world st (trace st ++ [Log DEBUG "checking connectivity"])
             (Probe host port)) ->
  exists l tag,
    check_network_connectivity (Some host) (Some port) st
    = (Ok false,
       set_trace (trace st ++ [Log DEBUG "checking connectivity";
                               Probe host port; Log l tag]) st).
Proof.
  intros Hen Hh Hp Hw. unfold check_network_connectivity. zmq_run.
  rewrite Hen. cbn [negb]. zmq_run. rewrite Hh, Hp.
  replace (if decide (host = "") then host else host) with host
    by (destruct (decide (host = "")); reflexivity).
  replace (if port =? 0 then port else port) with port
    by (destruct (port =? 0); reflexivity).
  unfold tcp_probe. zmq_run.
  destruct (world st (trace st ++ [Log DEBUG "checking connectivity"])
              (Probe host port)) as [|x|m|ps|c]; cbn [refused] in Hw;
    try contradiction; zmq_run.
  - eexists _, _. rewrite <- !app_assoc. reflexivity.
  - destruct (c =? 0)%Z eqn:Ec; [apply Z.eqb_eq in Ec; contradiction|].
    zmq_run. eexists _, _. rewrite <- !app_assoc. reflexivity.
Qed.

Lemma try_except_step {S A B} (m : SE S A) (k : A -> SE S B)
  (h : exn -> SE S B) (st st1 : S) (a : A) :
  m st = (Ok a, st1) ->
  try_except (m ≫= k) h st = try_except (k a) h st1.
Proof. intros E. rewrite !run_try_except, run_bind, E. reflexivity. Qed.

Lemma connect_to_remote_host_attempts (host : string) (port : N)
  (socket_type : string) (ty : ZMQ.socket_type) (socket_name : option string)
  (topics : list string) (auto_start_loop : bool) (st : state) :
  connectivity_check_enabled (cfg st) = true ->
  (forall tr, refused (world st tr (Probe host port))) ->
  requested_type socket_type = Some ty ->
  exists l tag evs,
    trace (connect_to_remote_host host port socket_type socket_name topics
             auto_start_loop st).2
    = trace st
      ++ [Log DEBUG "host and port updated";
          Log DEBUG "checking connectivity"; Probe host port; Log l tag;
          Log WARNING "host unreachable, creating the socket anyway";
          CtxSocket ty (length (objects st))] ++ evs.
Proof.
  intros Hen Hw Hty. unfold connect_to_remote_host.
  rewrite (try_except_step (set_host_port host port) _ _ st _ tt eq_refl).
  match goal with
  | |- context [try_except _ _ ?s] => set (st1 := s)
  end.
  destruct (check_refused host port st1 Hen eq_refl eq_refl (Hw _))
    as (l & tag & Hcheck).
  rewrite (try_except_step _ _ _ st1 _ false Hcheck). cbn [negb].
  rewrite (try_except_step
             (log WARNING "host unreachable, creating the socket anyway")
             _ _ _ _ tt eq_refl).
  match goal with
  | |- context [try_except _ _ ?s] => set (st3 := s)
  end.
  exists l, tag.
  assert (Htr : trace st3
                = trace st ++ [Log DEBUG "host and port updated";
                               Log DEBUG "checking connectivity";
                               Probe host port; Log l tag;
                               Log WARNING
                                 "host unreachable, creating the socket anyway"]).
  { subst st3 st1. cbn. rewrite <- !app_assoc. reflexivity. }
  assert (Hobj : objects st3 = objects st) by reflexivity.
  assert (Hgoal : forall st4,
             (exists evs, trace st4
                          = trace st3 ++ CtxSocket ty (length (objects st3))
                                         :: evs) ->
             exists evs, trace st4
                         = trace st
                           ++ [Log DEBUG "host and port updated";
                               Log DEBUG "checking connectivity";
                               Probe host port; Log l tag;
                               Log WARNING
                                 "host unreachable, creating the socket anyway";
                               CtxSocket ty (length (objects st))] ++ evs).
  { intros st4 [evs E]. exists evs. rewrite E, Htr, Hobj, <- !app_assoc.
    reflexivity. }
  apply Hgoal. clearbody st3. clear Hgoal Htr Hobj.
  unfold requested_type in Hty.
  destruct (decide (lower socket_type = "req")) as [_|_].
  { injection Hty as <-.
    eapply extends_attempt; [apply create_req_client_attempts|].
    eapply extends_trans;
      [|apply try_except_extends; intros ?; repeat grows_step].
    apply bind_extends. intros success. repeat grows_step. }
  destruct (decide (lower socket_type = "sub")) as [_|_].
  { injection Hty as <-.
    eapply extends_attempt; [apply create_sub_client_attempts|].
    eapply extends_trans;
      [|apply try_except_extends; intros ?; repeat grows_step].
    apply bind_extends. intros success.
    apply grows_bind; [|intros ?; apply grows_ret].
    destruct success; [|apply grows_ret].
    apply grows_bind; [apply grows_log|intros ?].
    destruct auto_start_loop;
      [apply grows_start_subscriber_loop|apply grows_ret]. }
  destruct (decide (lower socket_type = "push")) as [_|_]; [|discriminate].
  injection Hty as <-.
  eapply extends_attempt; [apply create_push_client_attempts|].
  eapply extends_trans;
    [|apply try_except_extends; intros ?; repeat grows_step].
  apply bind_extends. intros success. repeat grows_step.
Qed.

(** No library call but the probe fails. *)
Definition cooperative (st : state) : Prop :=
  forall tr e x, world st tr e = Fails x -> exists h p, e = Probe h p.

Lemma name_given_some (name : option string) (n : string) :
  name_given name = Some n -> name = Some n /\ n <> "".
Proof.
  unfold name_given. destruct name as [x|]; [|discriminate].
  destruct (decide (x = "")); [discriminate|]. intros [= <-]. auto.
Qed.

Lemma cooperative_world (st st' : state) :
  world st' = world st -> cooperative st -> cooperative st'.
Proof. unfold cooperative. intros ->. exact id. Qed.

Lemma create_socket_ok (ty : socket_type) (name : option string) (st : state) :
  cooperative st ->
  exists st' evs,
    create_socket ty name st = (Ok (Some (length (objects st))), st') /\
    trace st' = trace st ++ CtxSocket ty (length (objects st)) :: evs /\
    is_open (length (objects st)) st' = true /\
    world st' = world st.
Proof.
  intros Hw.
  assert (Hctx : forall x, world st (trace st)
                             (CtxSocket ty (length (objects st))) <> Fails x).
  { intros x E. destruct (Hw _ _ _ E) as (? & ? & ?). discriminate. }
  destruct (create_socket_attempts ty name st) as [evs Htr].
  destruct (name_given name) as [n|] eqn:Hg.
  - destruct (name_given_some name n Hg) as [-> Hn].
    destruct (create_socket_named ty n st Hn Hctx) as (evs' & _ & E).
    cbv zeta in E. rewrite E in Htr. eexists _, evs.
    split; [exact E|]. split; [exact Htr|]. clear E Htr.
    set (made := set_trace _ (set_sockets _ (set_objects _ st))).
    assert (Hfresh : is_open (length (objects st)) made = true).
    { unfold is_open. subst made. zmq_simpl.
      rewrite list_lookup_middle by reflexivity. reflexivity. }
    cbn [world set_trace].
    change (is_open ?h (set_trace ?l ?s)) with (is_open h s).
    destruct (sockets st !! n) as [old|]; [|split; [exact Hfresh|reflexivity]].
    destruct (decide (old = length (objects st))) as [Heq|Hne];
      [split; [exact Hfresh|reflexivity]|].
    destruct (release_keeps old made) as (_ & Hwd & _).
    split; [rewrite release_others by congruence; exact Hfresh|exact Hwd].
  - assert (Hrun : exists st',
               create_socket ty name st
               = (Ok (Some (length (objects st))), st') /\
               is_open (length (objects st)) st' = true /\
               world st' = world st).
    { unfold create_socket, ctx_socket, call_unit. zmq_run.
      destruct (world st (trace st) (CtxSocket ty (length (objects st))))
        eqn:E; try (exfalso; eapply Hctx; reflexivity); zmq_run.
      all: match goal with
           | |- context [_configure_socket ?h ?s] =>
               destruct (configure_ok h s) as [evs' ->]
           end; zmq_run; rewrite Hg; zmq_run;
           (eexists; split; [reflexivity|]); zmq_simpl;
           (split; [|reflexivity]);
           unfold is_open; zmq_simpl;
           rewrite list_lookup_middle by reflexivity; reflexivity. }
    destruct Hrun as (st' & E & Ho & Hwd). rewrite E in Htr.
    exists st', evs. auto.
Qed.

Lemma connect_socket_ok (h : handle) (endpoint : string) (st : state) :
  cooperative st ->
  is_open h st = true ->
  exists st' evs,
    connect_socket h endpoint st = (Ok true, st') /\
    trace st' = trace st ++ Connect h endpoint :: evs.
Proof.
  intros Hw Ho. unfold connect_socket, sock_connect, on_socket, call_unit.
  zmq_run. rewrite Ho. zmq_run.
  destruct (world st (trace st) (Connect h endpoint)) eqn:E;
    try (destruct (Hw _ _ _ E) as (? & ? & ?); discriminate); zmq_run;
    destruct (show_connection_status (cfg st)); zmq_run;
    (eexists _, _; split; [reflexivity|]; zmq_simpl;
     rewrite <- ?app_assoc; reflexivity).
Qed.

Lemma subscribe_ok (h : handle) (topic tag : string) (st : state) :
  cooperative st ->
  is_open h st = true ->
  (sock_subscribe h topic;; log DEBUG tag) st
  = (Ok tt, set_trace (trace st ++ [Subscribe h topic; Log DEBUG tag]) st).
Proof.
  intros Hw Ho. unfold sock_subscribe, on_socket, call_unit.
  zmq_run. rewrite Ho. zmq_run.
  destruct (world st (trace st) (Subscribe h topic)) eqn:E;
    try (destruct (Hw _ _ _ E) as (? & ? & ?); discriminate); zmq_run;
    rewrite <- app_assoc; reflexivity.
Qed.

Lemma subscribe_all_ok (h : handle) (tag : string) (topics : list string) :
  forall st,
    cooperative st ->
    is_open h st = true ->
    exists r evs,
      mapM (fun topic => sock_subscribe h topic;; log DEBUG tag) topics st
      = (Ok r, set_trace (trace st ++ evs) st).
Proof.
  induction topics as [|topic topics IH]; intros st Hw Ho.
  - exists [], []. rewrite set_trace_id. reflexivity.
  - cbn [mapM]. rewrite run_bind, (subscribe_ok h topic tag st Hw Ho).
    cbn beta iota. rewrite run_bind.
    destruct (IH (set_trace (trace st ++ [Subscribe h topic; Log DEBUG tag]) st)
                Hw Ho) as (r & evs & ->).
    cbn beta iota. eexists _, _. zmq_run. rewrite <- app_assoc. reflexivity.
Qed.

Lemma is_open_fresh (ty : socket_type) (st : state) (l : list event)
  (m : gmap string handle) :
  is_open (length (objects st))
    (set_trace l
       (set_sockets m (set_objects (objects st ++ [fresh_socket ty]) st)))
  = true.
Proof.
  unfold is_open. zmq_simpl.
  rewrite list_lookup_middle by reflexivity. reflexivity.
Qed.

Lemma create_req_client_ok (host : string) (port : N) (name : string)
  (st : state) :
  cooperative st ->
  exists st' evs,
    create_req_client (Some (tcp_endpoint host port)) name st = (Ok true, st') /\
    trace st' = trace st ++ CtxSocket REQ (length (objects st)) :: evs /\
    In (Connect (length (objects st)) (tcp_endpoint host port)) evs.
Proof.
  intros Hw. unfold create_req_client.
  rewrite run_try_except, run_bind, endpoint_given. cbn beta iota.
  rewrite run_bind.
  destruct (create_socket_ok REQ (Some name) st Hw)
    as (st1 & evs1 & -> & Htr1 & Ho1 & Hw1).
  cbn beta iota.
  destruct (connect_socket_ok (length (objects st)) (tcp_endpoint host port)
              st1 (cooperative_world _ _ Hw1 Hw) Ho1)
    as (st' & evs2 & -> & Htr).
  exists st', (evs1 ++ Connect (length (objects st)) (tcp_endpoint host port)
                    :: evs2).
  split; [reflexivity|]. split.
  - rewrite Htr, Htr1, <- app_assoc. reflexivity.
  - apply in_or_app. right. left. reflexivity.
Qed.

Lemma create_push_client_ok (host : string) (port : N) (name : string)
  (st : state) :
  cooperative st ->
  exists st' evs,
    create_push_client (Some (tcp_endpoint host port)) name st = (Ok true, st') /\
    trace st' = trace st ++ CtxSocket PUSH (length (objects st)) :: evs /\
    In (Connect (length (objects st)) (tcp_endpoint host port)) evs.
Proof.
  intros Hw. unfold create_push_client.
  rewrite run_try_except, run_bind, endpoint_given. cbn beta iota.
  rewrite run_bind.
  destruct (create_socket_ok PUSH (Some name) st Hw)
    as (st1 & evs1 & -> & Htr1 & Ho1 & Hw1).
  cbn beta iota.
  destruct (connect_socket_ok (length (objects st)) (tcp_endpoint host port)
              st1 (cooperative_world _ _ Hw1 Hw) Ho1)
    as (st' & evs2 & -> & Htr).
  exists st', (evs1 ++ Connect (length (objects st)) (tcp_endpoint host port)
                    :: evs2).
  split; [reflexivity|]. split.
  - rewrite Htr, Htr1, <- app_assoc. reflexivity.
  - apply in_or_app. right. left. reflexivity.
Qed.

Lemma create_sub_client_ok (host : string) (port : N) (name : string)
  (topics : list string) (st : state) :
  cooperative st ->
  exists st' evs,
    create_sub_client (Some (tcp_endpoint host port)) name topics st
    = (Ok true, st') /\
    trace st' = trace st ++ CtxSocket SUB (length (objects st)) :: evs /\
    In (Connect (length (objects st)) (tcp_endpoint host port)) evs.
Proof.
  intros Hw. unfold create_sub_client.
  rewrite run_try_except, run_bind, endpoint_given. cbn beta iota.
  rewrite run_bind.
  destruct (create_socket_ok SUB (Some name) st Hw)
    as (st1 & evs1 & -> & Htr1 & Ho & Hwd1).
  cbn beta iota. rewrite run_bind.
  assert (Hw1 : cooperative st1) by exact (cooperative_world _ _ Hwd1 Hw).
  assert (Hsub : exists evs,
             (match topics with
              | [] => sock_subscribe (length (objects st)) "";;
                      log DEBUG "subscribed to everything"
              | _ :: _ =>
                  mapM (fun topic =>
                          sock_subscribe (length (objects st)) topic;;
                          log DEBUG "subscribed") topics;;
                  ret tt
              end) st1 = (Ok tt, set_trace (trace st1 ++ evs) st1)).
  { destruct topics as [|t topics].
    - eexists. apply (subscribe_ok _ _ _ st1 Hw1 Ho).
    - rewrite run_bind.
      destruct (subscribe_all_ok (length (objects st)) "subscribed"
                  (t :: topics) st1 Hw1 Ho) as (r & evs & ->).
      exists evs. reflexivity. }
  destruct Hsub as (evs2 & ->). cbn beta iota.
  match goal with
  | |- context [connect_socket ?h ?ep ?s] =>
      destruct (connect_socket_ok h ep s Hw1 Ho) as (st' & evs3 & -> & Htr)
  end.
  exists st', (evs1 ++ evs2
               ++ Connect (length (objects st)) (tcp_endpoint host port)
                  :: evs3).
  split; [reflexivity|]. split.
  - rewrite Htr. zmq_simpl. rewrite Htr1, <- !app_assoc. reflexivity.
  - apply in_or_app. right. apply in_or_app. right. left. reflexivity.
Qed.

Lemma connect_to_remote_host_connects (host : string) (port : N)
  (socket_type : string) (ty : ZMQ.socket_type) (socket_name : option string)
  (topics : list string) (auto_start_loop : bool) (st : state) :
  connectivity_check_enabled (cfg st) = true ->
  (forall tr, refused (world st tr (Probe host port))) ->
  requested_type socket_type = Some ty ->
  cooperative st ->
  exists st' l tag evs,
    connect_to_remote_host host port socket_type socket_name topics
      auto_start_loop st = (Ok true, st') /\
    trace st'
    = trace st
      ++ [Log DEBUG "host and port updated";
          Log DEBUG "checking connectivity"; Probe host port; Log l tag;
          Log WARNING "host unreachable, creating the socket anyway";
          CtxSocket ty (length (objects st))] ++ evs /\
    In (Connect (length (objects st)) (tcp_endpoint host port)) evs.
Proof.
  intros Hen Hw Hty Hco. unfold connect_to_remote_host.
  rewrite (try_except_step (set_host_port host port) _ _ st _ tt eq_refl).
  match goal with
  | |- context [try_except _ _ ?s] => set (st1 := s)
  end.
  destruct (check_refused host port st1 Hen eq_refl eq_refl (Hw _))
    as (l & tag & Hcheck).
  rewrite (try_except_step _ _ _ st1 _ false Hcheck). cbn [negb].
  rewrite (try_except_step
             (log WARNING "host unreachable, creating the socket anyway")
             _ _ _ _ tt eq_refl).
  match goal with
  | |- context [try_except _ _ ?s] => set (st3 := s)
  end.
  assert (Htr : trace st3
                = trace st ++ [Log DEBUG "host and port updated";
                               Log DEBUG "checking connectivity";
                               Probe host port; Log l tag;
                               Log WARNING
                                 "host unreachable, creating the socket anyway"]).
  { subst st3 st1. cbn. rewrite <- !app_assoc. reflexivity. }
  assert (Hobj : objects st3 = objects st) by reflexivity.
  assert (Hco3 : cooperative st3) by exact Hco.
  assert (Hgoal : forall r st4 st5 evs more,
             r = (Ok true, st5) ->
             trace st5 = trace st4 ++ more ->
             trace st4 = trace st3 ++ CtxSocket ty (length (objects st3))
                                      :: evs ->
             In (Connect (length (objects st3)) (tcp_endpoint host port)) evs ->
             exists st' l tag evs,
               r = (Ok true, st') /\
               trace st'
               = trace st
                 ++ [Log DEBUG "host and port updated";
                     Log DEBUG "checking connectivity"; Probe host port;
                     Log l tag;
                     Log WARNING "host unreachable, creating the socket anyway";
                     CtxSocket ty (length (objects st))] ++ evs /\
               In (Connect (length (objects st)) (tcp_endpoint host port)) evs).
  { intros r st4 st5 evs more -> E5 E Hin. exists st5, l, tag, (evs ++ more).
    split; [reflexivity|]. split.
    - rewrite E5, E, Htr, Hobj, <- !app_assoc. reflexivity.
    - apply in_or_app. left. rewrite <- Hobj. exact Hin. }
  clearbody st3. clear Htr Hobj.
  unfold requested_type in Hty.
  destruct (decide (lower socket_type = "req")) as [_|_].
  { injection Hty as <-. rewrite run_try_except, run_bind.
    match goal with
    | |- context [create_req_client _ ?n st3] =>
        destruct (create_req_client_ok host port n st3 Hco3)
          as (st4 & evs & -> & E & Hin)
    end.
    cbn beta iota. zmq_run.
    eapply (Hgoal _ st4 _ evs); [reflexivity|reflexivity|exact E|exact Hin]. }
  destruct (decide (lower socket_type = "sub")) as [_|_].
  { injection Hty as <-. rewrite run_try_except, run_bind.
    match goal with
    | |- context [create_sub_client _ ?n _ st3] =>
        destruct (create_sub_client_ok host port n topics st3 Hco3)
          as (st4 & evs & -> & E & Hin)
    end.
    cbn beta iota.
    destruct auto_start_loop;
      unfold start_subscriber_loop, start_thread; zmq_run.
    - eapply (Hgoal _ st4 _ evs); [reflexivity| |exact E|exact Hin].
      zmq_simpl. rewrite <- app_assoc. reflexivity.
    - eapply (Hgoal _ st4 _ evs); [reflexivity|reflexivity|exact E|exact Hin]. }
  destruct (decide (lower socket_type = "push")) as [_|_]; [|discriminate].
  injection Hty as <-. rewrite run_try_except, run_bind.
  match goal with
  | |- context [create_push_client _ ?n st3] =>
      destruct (create_push_client_ok host port n st3 Hco3)
        as (st4 & evs & -> & E & Hin)
  end.
  cbn beta iota. zmq_run.
  eapply (Hgoal _ st4 _ evs); [reflexivity|reflexivity|exact E|exact Hin].
Qed.


End ZMQProofs.

(** ** Closed examples for the ZeroMQ client *)

Section ZMQExamples.
Import ZMQ.

(** The examples run under this runtime.  None of them holds a float or
    shows message contents, so its float conversions and its [str] are
    never consulted; the limit on the digits of an integer is CPython's
    default, and the room for nesting what the default recursion limit of a
    thousand frames leaves a call made near the top of the stack. *)
Definition example_runtime : PyRuntime :=
  {| float_repr := fun _ => [];
     float_of_literal := fun _ => 0%float;
     int_max_str_digits := 4300;
     py_str := fun _ => Ok [];
     dumps_depth := 990;
     loads_depth := 990 |}.

Definition with_format (format : string) (c : config) : config :=
  {| default_host := default_host c; default_port := default_port c;
     linger_time := linger_time c; high_water_mark := high_water_mark c;
     receive_timeout := receive_timeout c; send_timeout := send_timeout c;
     connectivity_check_enabled := connectivity_check_enabled c;
     show_connection_status := show_connection_status c;
     show_message_content := show_message_content c;
     max_message_length := max_message_length c;
     message_processing_sleep := message_processing_sleep c;
     message_format := format;
     encoding_name := encoding_name c;
     continue_on_error := continue_on_error c |}.

(** A running client with one open socket of type [ty], registered as
    [name], its format set to [format]. *)
Definition client_with (ty : socket_type) (name format : string)
  (w : list event -> event -> outcome) : state :=
  {| cfg := with_format format idle_config;
     sockets := {[ name := 0%nat ]};
     running := true; threads := []; connected_endpoints := [];
     objects := [fresh_socket ty]; trace := [];
     world := w |}.

Definition hello : bytes := map b8 (py "hello").

(** Under a format the client does not know, bytes that are text but not
    structured text come back as that text. *)
Lemma deserialize_message_formats_witness :
  (_deserialize_message (H := example_runtime) hello
     (client_with REQ "req_client" "yaml" calm)).1
  = Ok (PStr (py "hello")).
Proof.
  apply (proj1 (proj2 (proj2 (deserialize_message_formats
                                (H := example_runtime)
                                (client_with REQ "req_client" "yaml" calm)
                                hello)))).
  vm_compute. repeat split; discriminate.
Defined.

(** C8 as stated fails: under the format "json" the bytes of [hello],
    which decode as text, give [None] and not the text; the unknown format
    gives the text, so it does not behave as "json" does. *)
Lemma deserialize_json_failure_none :
  bytes_decode UTF8 hello = Ok (py "hello") /\
  (_deserialize_message (H := example_runtime) hello
     (client_with REQ "req_client" "json" calm)).1 = Ok PNone /\
  (_deserialize_message (H := example_runtime) hello
     (client_with REQ "req_client" "yaml" calm)).1 = Ok (PStr (py "hello")).
Proof. vm_compute. repeat split; reflexivity. Qed.

(** No socket is registered under the name. *)
Lemma receive_message_none_witness :
  (receive_message (H := example_runtime) "rep_server" (fresh_client calm)).1
  = Ok PNone.
Proof.
  apply (proj1 (proj2 (receive_message_none (H := example_runtime)
                         "rep_server" (fresh_client calm)))).
  reflexivity.
Defined.

(** *** A triple of frames *)

Definition topic_frame : bytes := map b8 (py "/server_time_now").

(** The payload frame: three bytes of content after their length. *)
Definition payload_frame : bytes := Struct.le32 3 ++ map b8 (py "abc").

(** The publisher sends the triple [length_frame], in which the second
    frame is the length of the third; in [corrupted] it is not. *)
Definition delivers_triple (length_frame : bytes)
  : list event -> event -> outcome :=
  fun _ e =>
    match e with
    | RecvMultipart _ =>
        DeliversParts [topic_frame; length_frame; payload_frame]
    | _ => Succeeds
    end.

Definition accept : pyval -> res unit := fun _ => Ok tt.

Lemma subscriber_iteration_triple_witness :
  subscriber_iteration (H := example_runtime) "remote_sub" accept
    (client_with SUB "remote_sub" "bytes" (delivers_triple (Struct.le32 7)))
  = (Ok Continue,
     set_trace [RecvMultipart 0; Log DEBUG "multipart message received";
                Callback (PBytes payload_frame)]
       (client_with SUB "remote_sub" "bytes"
          (delivers_triple (Struct.le32 7)))).
Proof.
  apply (proj2 (proj2 (subscriber_iteration_triple (H := example_runtime)
                         "remote_sub" accept
                         (client_with SUB "remote_sub" "bytes"
                            (delivers_triple (Struct.le32 7)))))
           0%nat topic_frame (Struct.le32 7) payload_frame);
    try reflexivity.
  vm_compute. discriminate.
Defined.

(** C2 as stated fails: the second frame declares 99 bytes, the third has
    7, and the iteration hands the third frame to the callback as it does
    for a well-formed triple, with no error logged. *)
Lemma mismatched_length_delivered :
  Struct.uint_le (Struct.le32 99) = 99 /\
  len payload_frame = 7 /\
  subscriber_iteration (H := example_runtime) "remote_sub" accept
    (client_with SUB "remote_sub" "bytes" (delivers_triple (Struct.le32 99)))
  = (Ok Continue,
     set_trace [RecvMultipart 0; Log DEBUG "multipart message received";
                Callback (PBytes payload_frame)]
       (client_with SUB "remote_sub" "bytes"
          (delivers_triple (Struct.le32 99)))).
Proof. vm_compute. repeat split; reflexivity. Qed.

(** *** A REP server *)

(** The message is the structured text [1]. *)
Definition delivers_one : list event -> event -> outcome :=
  fun _ e =>
    match e with
    | Recv _ => Delivers (map b8 (py "1"))
    | _ => Succeeds
    end.

Definition echo : pyval -> res pyval := fun request => Ok request.

Definition silent : pyval -> res pyval := fun _ => Ok PNone.

Lemma server_iteration_reply_witness :
  exists l tag,
    server_iteration (H := example_runtime) "rep_server" echo
      (client_with REP "rep_server" "json" delivers_one)
    = (Ok Continue,
       set_trace [Recv 0; Log DEBUG "message received"; Handler (PInt 1);
                  Send 0 (map b8 (py "1")); Log l tag]
         (client_with REP "rep_server" "json" delivers_one)).
Proof.
  apply (proj1 (server_iteration_reply (H := example_runtime)
                  "rep_server" echo
                  (client_with REP "rep_server" "json" delivers_one)
                  0%nat (fresh_socket REP) (map b8 (py "1")) (PInt 1)
                  eq_refl eq_refl eq_refl eq_refl eq_refl eq_refl eq_refl
                  eq_refl)
           (PInt 1) (map b8 (py "1")));
    try reflexivity.
  vm_compute. discriminate.
Defined.

(** C7 as stated fails: with a handler that returns [None], the loop
    receives twice on the REP socket and sends nothing in between. *)
Lemma server_loop_receives_twice :
  trace (server_loop (H := example_runtime) "rep_server" silent 2
           (client_with REP "rep_server" "json" delivers_one)).2
  = [Log DEBUG "server loop started";
     Recv 0; Log DEBUG "message received"; Handler (PInt 1);
     Recv 0; Log DEBUG "message received"; Handler (PInt 1)].
Proof. vm_compute. reflexivity. Qed.

End ZMQExamples.

(** ** The probe before connecting *)

Section ProbeFailure.
Import ZMQ.

(** C6, as amended.  In [ZMQClient.connect_to_remote_host], for every
    host and port and each of the socket types "req", "sub" and "push": when
    the reachability probe fails, the client logs a warning and goes on to
    create the socket; and when no later library call fails, it connects
    that socket to the endpoint and returns [True].  In
    [ROSBridgeClient.start] a failed probe ends the start: an error is
    logged, no connection is attempted and [False] is returned, [running]
    being left as it was. *)
Theorem probe_failure :
  (forall (host : string) (port : N) (socket_type : string)
          (ty : ZMQ.socket_type) (socket_name : option string)
          (topics : list string) (auto_start_loop : bool) (st : state),
      connectivity_check_enabled (cfg st) = true ->
      (forall tr, refused (world st tr (Probe host port))) ->
      requested_type socket_type = Some ty ->
      (exists l tag evs,
          trace (connect_to_remote_host host port socket_type socket_name
                   topics auto_start_loop st).2
          = trace st
            ++ [Log DEBUG "host and port updated";
                Log DEBUG "checking connectivity"; Probe host port; Log l tag;
                Log WARNING "host unreachable, creating the socket anyway";
                CtxSocket ty (length (objects st))] ++ evs) /\
      (cooperative st ->
       exists st' l tag evs,
         connect_to_remote_host host port socket_type socket_name topics
           auto_start_loop st = (Ok true, st') /\
         trace st'
         = trace st
           ++ [Log DEBUG "host and port updated";
               Log DEBUG "checking connectivity"; Probe host port; Log l tag;
               Log WARNING "host unreachable, creating the socket anyway";
               CtxSocket ty (length (objects st))] ++ evs /\
         In (Connect (length (objects st)) (tcp_endpoint host port)) evs)) /\
  (forall (stack : nat) (st : ROS.state),
      probe_fails st ->
      exists st' evs,
        ROS.start (S stack) st = (Ok false, st') /\
        ROS.trace st'
        = ROS.trace st ++ evs
          ++ [ROS.Log ERROR "network unreachable, check the server"] /\
        List.filter is_connect evs = [] /\
        ROS.running st' = ROS.running st).
Proof.
  split.
  - intros host port socket_type ty socket_name topics auto_start_loop st
      Hen Hw Hty.
    split.
    + apply connect_to_remote_host_attempts; assumption.
    + intros Hco. apply connect_to_remote_host_connects; assumption.
  - intros stack st Hp. apply start_probe_failure. exact Hp.
Qed.

(** Every probe is refused; every other call succeeds. *)
Definition refuses_probe : list event -> event -> outcome :=
  fun _ e =>
    match e with
    | Probe _ _ => Code 111
    | _ => Succeeds
    end.

Lemma probe_failure_witness :
  exists l tag evs,
    trace (connect_to_remote_host "10.10.12.233" 5555 "sub"
             (Some "remote_sub") ["/server_time_now"] true
             (fresh_client refuses_probe)).2
    = [Log DEBUG "host and port updated";
       Log DEBUG "checking connectivity"; Probe "10.10.12.233" 5555;
       Log l tag;
       Log WARNING "host unreachable, creating the socket anyway";
       CtxSocket SUB 0] ++ evs.
Proof.
  apply (proj1 (proj1 probe_failure "10.10.12.233" 5555 "sub" SUB
                  (Some "remote_sub") ["/server_time_now"] true
                  (fresh_client refuses_probe) eq_refl
                  (fun _ => ltac:(discriminate)) eq_refl)).
Defined.

(** A fresh ROSBridge client whose probe is refused while the server would
    accept a connection. *)
Definition refused_probe_server : ROS.state :=
  {| ROS.host := "localhost"; ROS.port := 9090;
     ROS.connectivity_check_enabled := true;
     ROS.auto_reconnect := true;
     ROS.reconnect_interval := 5;
     ROS.max_reconnect_attempts := 5;
     ROS.subscribe_topics := []; ROS.publish_topics := [];
     ROS.client := None; ROS.publishers := []; ROS.subscribers := [];
     ROS.running := false; ROS.reconnect_count := 0;
     ROS._publish_threads := [];
     ROS.trace := [];
     ROS.world := fun _ e => match e with
                             | ROS.Probe _ _ => ROS.Code 111
                             | _ => ROS.Succeeds
                             end |}.

(** C6 as stated fails for [ROSBridgeClient.start]: after a failed probe
    it logs an error and returns [False] without any connection attempt,
    although the server would have accepted one. *)
Lemma start_aborts_on_probe_failure :
  ROS.start 10 refused_probe_server
  = (Ok false,
     ROS.set_trace
       [ROS.Log DEBUG "checking connectivity"; ROS.Probe "localhost" 9090;
        ROS.Log WARNING "cannot reach host";
        ROS.Log ERROR "network unreachable, check the server"]
       refused_probe_server) /\
  ROS.world refused_probe_server [] (ROS.RosConnect "localhost" 9090)
  = ROS.Succeeds.
Proof. vm_compute. split; reflexivity. Qed.

End ProbeFailure.

(** ** The codec *)

Section Utf8Proofs.

Lemma decode_cons_1 (x : byte) (r : bytes) :
  Byte.to_N x < 0x80 ->
  Utf8.decode (x :: r)
  = match Utf8.decode r with
    | Ok s => Ok (Byte.to_N x :: s)
    | Raise e => Raise e
    end.
Proof.
  intros Hx. cbn [Utf8.decode]. cbv zeta.
  apply N.ltb_lt in Hx. rewrite Hx. reflexivity.
Qed.

Lemma is_cont_true (x : byte) :
  0x80 <= Byte.to_N x < 0xC0 -> Utf8.is_cont x = true.
Proof.
  intros [H1 H2]. unfold Utf8.is_cont.
  apply N.leb_le in H1. apply N.ltb_lt in H2. rewrite H1, H2. reflexivity.
Qed.

Lemma decode_cons_2 (x0 x1 : byte) (r : bytes) :
  0xC0 <= Byte.to_N x0 < 0xE0 ->
  0x80 <= Byte.to_N x1 < 0xC0 ->
  0x80 <= (Byte.to_N x0 - 0xC0) * 64 + (Byte.to_N x1 - 0x80) ->
  Utf8.decode (x0 :: x1 :: r)
  = match Utf8.decode r with
    | Ok s => Ok ((Byte.to_N x0 - 0xC0) * 64 + (Byte.to_N x1 - 0x80) :: s)
    | Raise e => Raise e
    end.
Proof.
  intros H0 H1 Hc. cbn [Utf8.decode]. cbv zeta.
  rewrite (is_cont_true x1 H1). cbn [negb]. unfold Utf8.cont.
  replace (Byte.to_N x0 <? 0x80) with false by (symmetry; apply N.ltb_ge; lia).
  replace (Byte.to_N x0 <? 0xC0) with false by (symmetry; apply N.ltb_ge; lia).
  replace (Byte.to_N x0 <? 0xE0) with true by (symmetry; apply N.ltb_lt; lia).
  replace (_ <? 0x80) with false by (symmetry; apply N.ltb_ge; lia).
  reflexivity.
Qed.

Lemma decode_cons_3 (x0 x1 x2 : byte) (r : bytes) :
  0xE0 <= Byte.to_N x0 < 0xF0 ->
  0x80 <= Byte.to_N x1 < 0xC0 ->
  0x80 <= Byte.to_N x2 < 0xC0 ->
  let c := (Byte.to_N x0 - 0xE0) * 4096 + (Byte.to_N x1 - 0x80) * 64
           + (Byte.to_N x2 - 0x80) in
  0x800 <= c -> (c < 0xD800 \/ 0xDFFF < c) ->
  Utf8.decode (x0 :: x1 :: x2 :: r)
  = match Utf8.decode r with
    | Ok s => Ok (c :: s)
    | Raise e => Raise e
    end.
Proof.
  intros H0 H1 H2 c Hc Hs. cbn [Utf8.decode]. cbv zeta.
  rewrite (is_cont_true x1 H1), (is_cont_true x2 H2). cbn [negb].
  unfold Utf8.cont. fold c.
  replace (Byte.to_N x0 <? 0x80) with false by (symmetry; apply N.ltb_ge; lia).
  replace (Byte.to_N x0 <? 0xC0) with false by (symmetry; apply N.ltb_ge; lia).
  replace (Byte.to_N x0 <? 0xE0) with false by (symmetry; apply N.ltb_ge; lia).
  replace (Byte.to_N x0 <? 0xF0) with true by (symmetry; apply N.ltb_lt; lia).
  replace (c <? 0x800) with false by (symmetry; apply N.ltb_ge; lia).
  replace ((0xD800 <=? c) && (c <=? 0xDFFF)) with false; [reflexivity|].
  symmetry. apply andb_false_iff.
  destruct Hs; [left; apply N.leb_gt|right; apply N.leb_gt]; lia.
Qed.

Lemma decode_cons_4 (x0 x1 x2 x3 : byte) (r : bytes) :
  0xF0 <= Byte.to_N x0 < 0xF8 ->
  0x80 <= Byte.to_N x1 < 0xC0 ->
  0x80 <= Byte.to_N x2 < 0xC0 ->
  0x80 <= Byte.to_N x3 < 0xC0 ->
  let c := (Byte.to_N x0 - 0xF0) * 262144 + (Byte.to_N x1 - 0x80) * 4096
           + (Byte.to_N x2 - 0x80) * 64 + (Byte.to_N x3 - 0x80) in
  0x10000 <= c <= 0x10FFFF ->
  Utf8.decode (x0 :: x1 :: x2 :: x3 :: r)
  = match Utf8.decode r with
    | Ok s => Ok (c :: s)
    | Raise e => Raise e
    end.
Proof.
  intros H0 H1 H2 H3 c Hc. cbn [Utf8.decode]. cbv zeta.
  rewrite (is_cont_true x1 H1), (is_cont_true x2 H2), (is_cont_true x3 H3).
  cbn [negb]. unfold Utf8.cont. fold c.
  replace (Byte.to_N x0 <? 0x80) with false by (symmetry; apply N.ltb_ge; lia).
  replace (Byte.to_N x0 <? 0xC0) with false by (symmetry; apply N.ltb_ge; lia).
  replace (Byte.to_N x0 <? 0xE0) with false by (symmetry; apply N.ltb_ge; lia).
  replace (Byte.to_N x0 <? 0xF0) with false by (symmetry; apply N.ltb_ge; lia).
  replace (Byte.to_N x0 <? 0xF8) with true by (symmetry; apply N.ltb_lt; lia).
  replace (c <? 0x10000) with false by (symmetry; apply N.ltb_ge; lia).
  replace (0x10FFFF <? c) with false by (symmetry; apply N.ltb_ge; lia).
  reflexivity.
Qed.

(** A code point splits into groups of six bits. *)
Lemma sextets (c : N) :
  exists a b d e,
    c = ((a * 64 + b) * 64 + d) * 64 + e /\ b < 64 /\ d < 64 /\ e < 64 /\
    c / 64 = (a * 64 + b) * 64 + d /\ c mod 64 = e /\
    c / 4096 = a * 64 + b /\ (c / 64) mod 64 = d /\
    c / 262144 = a /\ (c / 4096) mod 64 = b.
Proof.
  exists (c / 64 / 64 / 64), ((c / 64 / 64) mod 64), ((c / 64) mod 64),
    (c mod 64).
  replace (c / 4096) with (c / 64 / 64)
    by (rewrite N.Div0.div_div; reflexivity).
  replace (c / 262144) with (c / 64 / 64 / 64)
    by (rewrite !N.Div0.div_div; reflexivity).
  pose proof (N.div_mod' c 64) as E1.
  pose proof (N.div_mod' (c / 64) 64) as E2.
  pose proof (N.div_mod' (c / 64 / 64) 64) as E3.
  pose proof (N.mod_upper_bound c 64 ltac:(lia)) as B1.
  pose proof (N.mod_upper_bound (c / 64) 64 ltac:(lia)) as B2.
  pose proof (N.mod_upper_bound (c / 64 / 64) 64 ltac:(lia)) as B3.
  generalize dependent (c mod 64). generalize dependent ((c / 64) mod 64).
  generalize dependent ((c / 64 / 64) mod 64).
  generalize dependent (c / 64 / 64 / 64).
  generalize dependent (c / 64 / 64). generalize dependent (c / 64).
  intros. repeat split; lia.
Qed.

Lemma decode_encode_char (c : N) (b r : bytes) :
  Utf8.encode_char c = Ok b ->
  Utf8.decode (b ++ r)
  = match Utf8.decode r with
    | Ok s => Ok (c :: s)
    | Raise e => Raise e
    end.
Proof.
  unfold Utf8.encode_char.
  destruct (sextets c)
    as (a & b1 & d & e & Ec & Hb & Hd & He & E64 & Em & E4096 & Em64 & E262144
        & Em4096).
  rewrite Em4096, Em64, Em, E262144, E4096, E64.
  destruct (N.ltb_spec c 0x80) as [H1|H1].
  { intros [= <-]. cbn [app].
    rewrite decode_cons_1; rewrite to_N_b8 by lia; [reflexivity|lia]. }
  destruct (N.ltb_spec c 0x800) as [H2|H2].
  { intros [= <-]. cbn [app].
    rewrite decode_cons_2; rewrite ?to_N_b8 by lia; try lia.
    replace ((192 + ((a * 64 + b1) * 64 + d) - 192) * 64 + (128 + e - 128))
      with c by lia.
    reflexivity. }
  destruct (N.ltb_spec c 0x10000) as [H3|H3].
  { destruct ((0xD800 <=? c) && (c <=? 0xDFFF)) eqn:Es; [discriminate|].
    intros [= <-]. cbn [app].
    apply andb_false_iff in Es.
    assert (Hs : c < 0xD800 \/ 0xDFFF < c)
      by (destruct Es as [Es|Es]; apply N.leb_gt in Es; lia).
    rewrite decode_cons_3; rewrite ?to_N_b8 by lia; try lia.
    replace ((224 + (a * 64 + b1) - 224) * 4096 + (128 + d - 128) * 64
             + (128 + e - 128)) with c by lia.
    reflexivity. }
  destruct (N.ltb_spec c 0x110000) as [H4|H4]; [|discriminate].
  intros [= <-]. cbn [app].
  rewrite decode_cons_4; rewrite ?to_N_b8 by lia; try lia.
  replace ((240 + a - 240) * 262144 + (128 + b1 - 128) * 4096
           + (128 + d - 128) * 64 + (128 + e - 128)) with c by lia.
  reflexivity.
Qed.

Lemma decode_encode (s : pystr) (b : bytes) :
  Utf8.encode s = Ok b -> Utf8.decode b = Ok s.
Proof.
  revert b. induction s as [|c s IH]; intros b.
  - intros [= <-]. reflexivity.
  - cbn [Utf8.encode].
    destruct (Utf8.encode_char c) as [bc|] eqn:Ec; [|discriminate].
    destruct (Utf8.encode s) as [bs|]; [|discriminate].
    intros [= <-]. rewrite (decode_encode_char c bc bs Ec), (IH bs eq_refl).
    reflexivity.
Qed.

End Utf8Proofs.

(** The encodings the client can be configured with. *)
Lemma map_to_N_b8 (s : pystr) :
  forallb (fun c => c <? 256) s = true -> map Byte.to_N (map b8 s) = s.
Proof.
  induction s as [|c s IH]; [reflexivity|].
  cbn [forallb map]. intros Hc. apply andb_true_iff in Hc as [Hc Hs].
  apply N.ltb_lt in Hc. rewrite to_N_b8 by exact Hc. rewrite IH by exact Hs.
  reflexivity.
Qed.

Lemma bytes_decode_str_encode (enc : ZMQ.encoding) (s : pystr) (b : bytes) :
  ZMQ.str_encode enc s = Ok b -> ZMQ.bytes_decode enc b = Ok s.
Proof.
  destruct enc; cbn [ZMQ.str_encode ZMQ.bytes_decode].
  - apply decode_encode.
  - destruct (forallb (fun c => c <? 128) s) eqn:E; [|discriminate].
    intros [= <-].
    assert (E' : forallb (fun x => Byte.to_N x <? 128) (map b8 s) = true).
    { clear -E. induction s as [|c s IH]; [reflexivity|].
      cbn [forallb map] in *. apply andb_true_iff in E as [Hc Hs].
      apply N.ltb_lt in Hc. rewrite to_N_b8 by lia.
      apply andb_true_iff. split; [apply N.ltb_lt; lia|exact (IH Hs)]. }
    rewrite E'. rewrite map_to_N_b8; [reflexivity|].
    clear -E. induction s as [|c s IH]; [reflexivity|].
    cbn [forallb] in *. apply andb_true_iff in E as [Hc Hs].
    apply N.ltb_lt in Hc. apply andb_true_iff.
    split; [apply N.ltb_lt; lia|exact (IH Hs)].
  - destruct (forallb (fun c => c <? 256) s) eqn:E; [|discriminate].
    intros [= <-]. rewrite map_to_N_b8 by exact E. reflexivity.
  - discriminate.
Qed.

(** *** The structured-text format *)

Section JsonProofs.
Import Json.
Context `{PyRuntime}.

(** What may follow a value in the text of an array or an object, or
    end the text. *)
Definition delimited (rest : pystr) : Prop :=
  match rest with
  | [] => True
  | c :: _ => c = 44 \/ c = 93 \/ c = 125
  end.

Lemma chars_uint_uint_chars (d : Decimal.uint) : chars_uint (uint_chars d) = d.
Proof. induction d; cbn [uint_chars chars_uint]; rewrite ?IHd; reflexivity. Qed.

Lemma span_digits_stop (rest : pystr) :
  delimited rest -> span_digits rest = ([], rest).
Proof.
  destruct rest as [|c rest]; [reflexivity|].
  intros [-> | [-> | ->]]; reflexivity.
Qed.

Lemma span_digits_uint_chars (d : Decimal.uint) (rest : pystr) :
  delimited rest -> span_digits (uint_chars d ++ rest) = (uint_chars d, rest).
Proof.
  intros Hr. induction d; cbn [uint_chars app];
    [apply span_digits_stop; exact Hr|..];
    cbn [span_digits]; rewrite IHd; reflexivity.
Qed.

Lemma match_frac_stop (rest : pystr) :
  delimited rest -> match_frac rest = ([], rest).
Proof.
  destruct rest as [|c rest]; [reflexivity|].
  intros [-> | [-> | ->]]; reflexivity.
Qed.

Lemma match_exp_stop (rest : pystr) :
  delimited rest -> match_exp rest = ([], rest).
Proof.
  destruct rest as [|c rest]; [reflexivity|].
  intros [-> | [-> | ->]]; reflexivity.
Qed.

(** [N.to_uint] writes no leading zero. *)
Lemma to_uint_normal (n : N) : Decimal.unorm (N.to_uint n) = N.to_uint n.
Proof.
  rewrite <- (DecimalN.Unsigned.of_to n) at 2.
  symmetry. apply DecimalN.Unsigned.to_of.
Qed.

Lemma match_integer_uint_chars (d : Decimal.uint) (rest : pystr) :
  Decimal.unorm d = d ->
  delimited rest ->
  match_integer (uint_chars d ++ rest) = Some (uint_chars d, rest).
Proof.
  intros Hd Hr. destruct d; cbn [uint_chars app].
  - exfalso. exact (DecimalFacts.unorm_nonnil _ Hd).
  - assert (d = Decimal.Nil) as ->.
    { rewrite DecimalFacts.unorm_D0 in Hd. unfold Decimal.unorm in Hd.
      destruct (Decimal.nzhead d) eqn:En; try congruence.
      exfalso. apply (DecimalFacts.nzhead_nonzero d d). congruence. }
    reflexivity.
  - cbn [match_integer]. rewrite span_digits_uint_chars by exact Hr. reflexivity.
  - cbn [match_integer]. rewrite span_digits_uint_chars by exact Hr. reflexivity.
  - cbn [match_integer]. rewrite span_digits_uint_chars by exact Hr. reflexivity.
  - cbn [match_integer]. rewrite span_digits_uint_chars by exact Hr. reflexivity.
  - cbn [match_integer]. rewrite span_digits_uint_chars by exact Hr. reflexivity.
  - cbn [match_integer]. rewrite span_digits_uint_chars by exact Hr. reflexivity.
  - cbn [match_integer]. rewrite span_digits_uint_chars by exact Hr. reflexivity.
  - cbn [match_integer]. rewrite span_digits_uint_chars by exact Hr. reflexivity.
  - cbn [match_integer]. rewrite span_digits_uint_chars by exact Hr. reflexivity.
Qed.


Lemma scan_number_digits (neg : bool) (d : Decimal.uint) (rest : pystr) :
  Decimal.unorm d = d ->
  delimited rest ->
  scan_number ((if neg then [45] else []) ++ uint_chars d ++ rest)
  = Some (z ← int_of_literal neg (uint_chars d); mret (PInt z, rest)).
Proof.
  intros Hd Hr.
  assert (Hbody :
            match match_integer (uint_chars d ++ rest) with
            | None => None
            | Some (digits, t) =>
                let (frac, t1) := match_frac t in
                let (exp, t2) := match_exp t1 in
                Some
                  (match frac, exp with
                   | [], [] =>
                       z ← int_of_literal neg digits; mret (PInt z, t2)
                   | _, _ =>
                       let text :=
                         (if neg then [45] else []) ++ digits ++ frac ++ exp in
                       Ok (PFloat (float_of_literal text), t2)
                   end)
            end
            = Some (z ← int_of_literal neg (uint_chars d); mret (PInt z, rest))).
  { rewrite (match_integer_uint_chars d rest Hd Hr).
    rewrite (match_frac_stop rest Hr), (match_exp_stop rest Hr). reflexivity. }
  destruct neg; [exact Hbody|].
  cbn [app]. destruct d; cbn [uint_chars app] in *;
    [exfalso; exact (DecimalFacts.unorm_nonnil _ Hd)|exact Hbody..].
Qed.

Lemma scan_number_int (z : Z) (text rest : pystr) :
  int_repr z = Ok text ->
  delimited rest ->
  scan_number (text ++ rest) = Some (Ok (PInt z, rest)).
Proof.
  unfold int_repr. intros Ht Hr.
  destruct (digits_allowed (uint_chars (N.to_uint (Z.abs_N z)))) eqn:Ea;
    [|discriminate].
  injection Ht as <-.
  replace (if (z <? 0)%Z then 45 :: uint_chars (N.to_uint (Z.abs_N z))
           else uint_chars (N.to_uint (Z.abs_N z)))
    with ((if (z <? 0)%Z then [45] else [])
            ++ uint_chars (N.to_uint (Z.abs_N z)))
    by (destruct (z <? 0)%Z; reflexivity).
  rewrite <- app_assoc.
  rewrite (scan_number_digits _ _ rest (to_uint_normal _) Hr).
  unfold int_of_literal. rewrite Ea, chars_uint_uint_chars.
  rewrite DecimalN.Unsigned.of_to, N2Z.inj_abs_N.
  f_equal. cbn. do 3 f_equal.
  destruct (z <? 0)%Z eqn:Ez; [apply Z.ltb_lt in Ez|apply Z.ltb_ge in Ez]; lia.
Qed.


(** Strings *)

Lemma scanstring_raw (c : N) (r : pystr) :
  c <> 34 -> c <> 92 -> 32 <= c ->
  scanstring (c :: r) = cons_fst c (scanstring r).
Proof.
  intros H1 H2 H3. cbn [scanstring].
  apply N.eqb_neq in H1, H2. rewrite H1, H2.
  replace (c <? 32) with false by (symmetry; apply N.ltb_ge; exact H3).
  reflexivity.
Qed.

Lemma hexval_hex_char (n : N) : n < 16 -> hexval (hex_char n) = Some n.
Proof.
  intros Hn. unfold hex_char, hexval.
  destruct (N.ltb_spec n 10) as [H10|H10].
  - replace ((48 <=? 48 + n) && (48 + n <=? 57)) with true
      by (symmetry; apply andb_true_iff; split; apply N.leb_le; lia).
    f_equal. lia.
  - replace ((48 <=? 87 + n) && (87 + n <=? 57)) with false
      by (symmetry; apply andb_false_iff; right; apply N.leb_gt; lia).
    replace ((65 <=? 87 + n) && (87 + n <=? 70)) with false
      by (symmetry; apply andb_false_iff; right; apply N.leb_gt; lia).
    replace ((97 <=? 87 + n) && (87 + n <=? 102)) with true
      by (symmetry; apply andb_true_iff; split; apply N.leb_le; lia).
    f_equal. lia.
Qed.

Lemma scanstring_u00 (c : N) (r : pystr) :
  c < 32 ->
  scanstring (92 :: 117 :: 48 :: 48 :: hex_char (c / 16) :: hex_char (c mod 16)
              :: r)
  = cons_fst c (scanstring r).
Proof.
  intros Hc.
  assert (Hhex : hex4 48 48 (hex_char (c / 16)) (hex_char (c mod 16)) = Some c).
  { unfold hex4.
    pose proof (N.div_mod' c 16) as E.
    pose proof (N.mod_upper_bound c 16 ltac:(lia)) as B.
    assert (Hq : c / 16 < 16).
    { apply N.Div0.div_lt_upper_bound. lia. }
    rewrite (hexval_hex_char (c / 16) Hq), (hexval_hex_char (c mod 16) B).
    change (hexval 48) with (Some 0). cbn [mbind option_bind].
    f_equal. lia. }
  set (h1 := hex_char (c / 16)) in *. set (h2 := hex_char (c mod 16)) in *.
  cbn [scanstring]. change (92 =? 34) with false. change (92 =? 92) with true.
  change (117 =? 117) with true. cbv beta iota. rewrite Hhex.
  replace (0xD800 <=? c) with false by (symmetry; apply N.leb_gt; lia).
  cbn [andb]. destruct r as [|b [|u r7]]; reflexivity.
Qed.

Lemma scanstring_escape_char (c : N) (r : pystr) :
  scanstring (escape_char c ++ r) = cons_fst c (scanstring r).
Proof.
  unfold escape_char.
  destruct (N.eqb_spec c 34) as [->|H34]; [reflexivity|].
  destruct (N.eqb_spec c 92) as [->|H92]; [reflexivity|].
  destruct (N.eqb_spec c 10) as [->|H10]; [reflexivity|].
  destruct (N.eqb_spec c 13) as [->|H13]; [reflexivity|].
  destruct (N.eqb_spec c 9) as [->|H9]; [reflexivity|].
  destruct (N.eqb_spec c 8) as [->|H8]; [reflexivity|].
  destruct (N.eqb_spec c 12) as [->|H12]; [reflexivity|].
  destruct (N.ltb_spec c 32) as [H32|H32].
  - cbn [app]. apply scanstring_u00. exact H32.
  - cbn [app]. apply scanstring_raw; assumption.
Qed.

Lemma scanstring_escaped (s rest : pystr) :
  scanstring (flat_map escape_char s ++ 34 :: rest) = Ok (s, rest).
Proof.
  induction s as [|c s IH]; [reflexivity|].
  cbn [flat_map]. rewrite <- app_assoc, scanstring_escape_char, IH.
  reflexivity.
Qed.


(** The payloads the structured-text format carries unchanged: no float,
    no bytes, dictionaries keyed by distinct strings. *)
Definition dict_keys (d : list (dkey * pyval)) : list pystr :=
  omap (fun kv : dkey * pyval =>
          match kv.1 with KStr s => Some s | _ => None end) d.

Fixpoint json_plain (v : pyval) : bool :=
  match v with
  | PNone | PBool _ | PInt _ | PStr _ => true
  | PFloat _ | PBytes _ => false
  | PList l => forallb json_plain l
  | PDict d =>
      forallb (fun kv : dkey * pyval =>
                 match kv with
                 | (KStr _, x) => json_plain x
                 | _ => false
                 end) d
      && bool_decide (NoDup (dict_keys d))
  end.

(** How deep the lists and dictionaries of a value nest. *)
Fixpoint nesting (v : pyval) : nat :=
  match v with
  | PList l => S (fold_right (fun x n => Nat.max (nesting x) n) O l)
  | PDict d =>
      S (fold_right (fun kv n =>
                       Nat.max (match kv with (_, x) => nesting x end) n) O d)
  | _ => O
  end.

Lemma dumps_list (room : nat) (l : list pyval) :
  dumps_at (S room) (PList l)
  = items ← mapM (dumps_at room) l; mret (91 :: join_comma items ++ [93]).
Proof. reflexivity. Qed.

Definition dumps_entry (room : nat) (kv : dkey * pyval) : res pystr :=
  tk ← key_text kv.1;
  tx ← dumps_at room kv.2;
  mret (encode_basestring tk ++ 58 :: 32 :: tx).

Lemma dumps_dict (room : nat) (d : list (dkey * pyval)) :
  dumps_at (S room) (PDict d)
  = items ← mapM (dumps_entry room) d;
    mret (123 :: join_comma items ++ [125]).
Proof.
  cbn [dumps_at]. f_equal.
  induction d as [|[k x] d IH]; [reflexivity|].
  cbn [mapM]. rewrite <- IH. unfold dumps_entry. cbn [fst snd].
  destruct (key_text k); [|rewrite !bind_Raise; reflexivity]. rewrite !bind_Ok.
  destruct (dumps_at room x); [|rewrite !bind_Raise; reflexivity].
  rewrite !bind_Ok. reflexivity.
Qed.

(** With no room left, no list and no dictionary is written. *)
Lemma dumps_at_container (room : nat) (v : pyval) (t : pystr) :
  dumps_at room v = Ok t ->
  match v with
  | PList _ | PDict _ => exists room', room = S room'
  | _ => True
  end.
Proof.
  destruct v; try exact (fun _ => I);
    (destruct room; [discriminate|eauto]).
Qed.

(** The first character of the text of a value: no whitespace, no
    closing bracket, no byte-order mark. *)
Definition starts_value (t : pystr) : Prop :=
  match t with
  | c :: _ => is_ws c = false /\ c <> 93 /\ c <> 0xFEFF
  | [] => False
  end.

Lemma starts_value_app (t rest : pystr) :
  starts_value t -> starts_value (t ++ rest).
Proof. destruct t; [contradiction|exact id]. Qed.

Lemma starts_value_length (t : pystr) : starts_value t -> (1 <= length t)%nat.
Proof. destruct t; [contradiction|cbn [length]; lia]. Qed.

Lemma skip_ws_starts_value (t : pystr) : starts_value t -> skip_ws t = t.
Proof.
  destruct t as [|c t]; [contradiction|]. intros [Hws _].
  cbn [skip_ws]. rewrite Hws. reflexivity.
Qed.

Lemma starts_value_uint_chars (d : Decimal.uint) :
  d <> Decimal.Nil -> starts_value (uint_chars d).
Proof.
  destruct d; [contradiction|..]; intros _; cbn [uint_chars starts_value];
    (split; [reflexivity|split; discriminate]).
Qed.

Lemma starts_value_int_repr (z : Z) (t : pystr) :
  int_repr z = Ok t -> starts_value t.
Proof.
  unfold int_repr. destruct (digits_allowed _); [|discriminate].
  intros [= <-]. destruct (z <? 0)%Z.
  - split; [reflexivity|split; discriminate].
  - apply starts_value_uint_chars. intros E.
    pose proof (to_uint_normal (Z.abs_N z)) as Hn. rewrite E in Hn.
    discriminate Hn.
Qed.

Lemma starts_value_dumps (room : nat) (v : pyval) (t : pystr) :
  json_plain v = true -> dumps_at room v = Ok t -> starts_value t.
Proof.
  destruct v as [|b|z|f|s|b|l|d]; try discriminate; intros _.
  - intros [= <-]. split; [reflexivity|split; discriminate].
  - destruct b; intros [= <-]; (split; [reflexivity|split; discriminate]).
  - apply starts_value_int_repr.
  - intros [= <-]. split; [reflexivity|split; discriminate].
  - destruct room as [|room]; [discriminate|].
    rewrite dumps_list. destruct (mapM (dumps_at room) l); [|discriminate].
    rewrite bind_Ok. intros [= <-]. split; [reflexivity|split; discriminate].
  - destruct room as [|room]; [discriminate|].
    rewrite dumps_dict. destruct (mapM (dumps_entry room) d); [|discriminate].
    rewrite bind_Ok. intros [= <-]. split; [reflexivity|split; discriminate].
Qed.

(** Lengths of joined texts. *)
Lemma join_comma_cons (t : pystr) (ts : list pystr) :
  ts <> [] -> join_comma (t :: ts) = t ++ 44 :: 32 :: join_comma ts.
Proof. destruct ts; [contradiction|reflexivity]. Qed.

Lemma join_comma_length_in (t : pystr) (ts : list pystr) :
  In t ts -> (length t <= length (join_comma ts))%nat.
Proof.
  induction ts as [|t0 ts IH]; [contradiction|].
  destruct ts as [|t1 ts].
  - intros [<-|[]]. cbn [join_comma]. lia.
  - rewrite join_comma_cons by discriminate. rewrite length_app. cbn [length].
    intros [<-|Hin]; [lia|]. specialize (IH Hin). lia.
Qed.

Lemma join_comma_count (ts : list pystr) :
  (forall t, In t ts -> (1 <= length t)%nat) ->
  (length ts <= length (join_comma ts))%nat.
Proof.
  induction ts as [|t0 ts IH]; [cbn; lia|].
  intros Hne. destruct ts as [|t1 ts].
  - cbn [join_comma length]. specialize (Hne t0 (or_introl eq_refl)). lia.
  - rewrite join_comma_cons by discriminate. rewrite length_app.
    cbn [length] in *. specialize (IH (fun t Hin => Hne t (or_intror Hin))).
    lia.
Qed.

(** What [scan_once] does on the first character of each kind of value. *)
Lemma scan_once_string (fuel room : nat) (r : pystr) :
  scan_once (S fuel) room (34 :: r)
  = '(str, r') ← scanstring r; mret (PStr str, r').
Proof. reflexivity. Qed.

Lemma scan_once_array (fuel room : nat) (r : pystr) :
  scan_once (S fuel) (S room) (91 :: r)
  = match skip_ws r with
    | 93 :: r' => Ok (PList [], r')
    | r' =>
        '(items, r'') ← array_items (scan_once fuel room) fuel r';
        mret (PList items, r'')
    end.
Proof. reflexivity. Qed.

Lemma scan_once_object (fuel room : nat) (r : pystr) :
  scan_once (S fuel) (S room) (123 :: r)
  = match skip_ws r with
    | 125 :: r' => Ok (PDict [], r')
    | 34 :: r' =>
        '(pairs, r'') ← object_items (scan_once fuel room) fuel r';
        mret (PDict (dict_of_pairs pairs), r'')
    | _ => Raise JSONDecodeError
    end.
Proof. reflexivity. Qed.

(** With no room left, an array and an object are not entered. *)
Lemma scan_once_no_room (fuel : nat) (c : N) (r : pystr) :
  c = 91 \/ c = 123 ->
  scan_once (S fuel) O (c :: r) = Raise RecursionError.
Proof. intros [-> | ->]; reflexivity. Qed.

Lemma scan_once_number (fuel room : nat) (c : N) (r : pystr)
  (result : res (pyval * pystr)) :
  In c [45; 48; 49; 50; 51; 52; 53; 54; 55; 56; 57] ->
  scan_number (c :: r) = Some result ->
  scan_once (S fuel) room (c :: r) = result.
Proof.
  intros Hc Hs.
  repeat (destruct Hc as [<-|Hc];
          [cbn -[scan_number]; rewrite Hs; reflexivity|]).
  contradiction.
Qed.

Lemma head_int_repr (z : Z) (t : pystr) :
  int_repr z = Ok t ->
  exists c t', t = c :: t' /\
               In c [45; 48; 49; 50; 51; 52; 53; 54; 55; 56; 57].
Proof.
  unfold int_repr. destruct (digits_allowed _); [|discriminate].
  intros [= <-]. destruct (z <? 0)%Z.
  - eexists _, _. split; [reflexivity|]. left. reflexivity.
  - pose proof (to_uint_normal (Z.abs_N z)) as Hn.
    destruct (N.to_uint (Z.abs_N z)); cbn [uint_chars];
      [discriminate Hn|..]; eexists _, _; (split; [reflexivity|]);
      cbn [In]; tauto.
Qed.

Lemma mapM_res_cons {A B} (f : A -> res B) (x : A) (l : list A)
  (ys : list B) :
  mapM f (x :: l) = Ok ys ->
  exists y ys', f x = Ok y /\ mapM f l = Ok ys' /\ ys = y :: ys'.
Proof.
  cbn [mapM]. destruct (f x) as [y|]; [|rewrite bind_Raise; discriminate].
  rewrite bind_Ok. destruct (mapM f l) as [ys'|];
    [|rewrite bind_Raise; discriminate].
  rewrite bind_Ok. intros [= <-]. eauto.
Qed.

Lemma mapM_res_in {A B} (f : A -> res B) (l : list A) (ys : list B) (y : B) :
  mapM f l = Ok ys -> In y ys -> exists x, In x l /\ f x = Ok y.
Proof.
  revert ys. induction l as [|x l IH]; intros ys.
  - intros [= <-] [].
  - intros Hm. destruct (mapM_res_cons _ _ _ _ Hm) as (y0 & ys' & Hx & Hl & ->).
    intros [<-|Hin].
    + exists x. split; [left; reflexivity|exact Hx].
    + destruct (IH ys' Hl Hin) as (x' & Hin' & Hx').
      exists x'. split; [right; exact Hin'|exact Hx'].
Qed.

Lemma starts_value_items (room : nat) (l : list pyval) (ts : list pystr)
  (t : pystr) :
  forallb json_plain l = true -> mapM (dumps_at room) l = Ok ts -> In t ts ->
  starts_value t.
Proof.
  intros Hp Hd Hin. destruct (mapM_res_in _ _ _ _ Hd Hin) as (x & Hx & Hdx).
  apply (starts_value_dumps room x t); [|exact Hdx].
  rewrite forallb_forall in Hp. apply Hp, Hx.
Qed.

(** What the induction on the fuel provides: [scan_once] with fuel [F]
    reads back every plain value whose text is no longer than [F], given
    the room that writing it took. *)
Definition scans (F : nat) : Prop :=
  forall room v t rest,
    json_plain v = true -> dumps_at room v = Ok t -> (length t <= F)%nat ->
    delimited rest -> scan_once F room (t ++ rest) = Ok (v, rest).

Lemma delimited_comma (r : pystr) : delimited (44 :: r).
Proof. left. reflexivity. Qed.

Lemma delimited_bracket (r : pystr) : delimited (93 :: r).
Proof. right. left. reflexivity. Qed.

Lemma delimited_brace (r : pystr) : delimited (125 :: r).
Proof. right. right. reflexivity. Qed.

Lemma starts_value_join (ts : list pystr) :
  ts <> [] -> (forall t, In t ts -> starts_value t) ->
  starts_value (join_comma ts).
Proof.
  destruct ts as [|t ts]; [contradiction|]. intros _ Hs.
  destruct ts.
  - apply Hs. left. reflexivity.
  - rewrite join_comma_cons by discriminate.
    apply starts_value_app, Hs. left. reflexivity.
Qed.

Lemma array_items_dumps (F room : nat) :
  scans F ->
  forall l ts f rest,
    forallb json_plain l = true ->
    mapM (dumps_at room) l = Ok ts ->
    l <> [] ->
    (length l <= f)%nat ->
    (forall t, In t ts -> (length t <= F)%nat) ->
    array_items (scan_once F room) f (join_comma ts ++ 93 :: rest)
    = Ok (l, rest).
Proof.
  intros HF. induction l as [|x l IH]; [contradiction|].
  intros ts f rest Hp Hd _ Hf Hlen.
  cbn [forallb] in Hp. apply andb_true_iff in Hp as [Hx Hl].
  destruct (mapM_res_cons _ _ _ _ Hd) as (tx & ts' & Hdx & Hdl & ->).
  destruct f as [|f]; [cbn [length] in Hf; lia|].
  cbn [array_items].
  destruct l as [|y l].
  - injection Hdl as <-. cbn [join_comma].
    rewrite (HF room x tx (93 :: rest) Hx Hdx (Hlen tx (or_introl eq_refl))
               (delimited_bracket rest)).
    rewrite bind_Ok. reflexivity.
  - assert (Hts' : ts' <> []).
    { destruct (mapM_res_cons _ _ _ _ Hdl) as (? & ? & _ & _ & ->).
      discriminate. }
    rewrite join_comma_cons by exact Hts'. rewrite <- app_assoc.
    cbn [app].
    rewrite (HF room x tx _ Hx Hdx (Hlen tx (or_introl eq_refl))
               (delimited_comma _)).
    rewrite bind_Ok. cbv beta iota.
    change (skip_ws (44 :: 32 :: join_comma ts' ++ 93 :: rest))
      with (44 :: 32 :: join_comma ts' ++ 93 :: rest).
    cbv beta iota.
    change (skip_ws (32 :: join_comma ts' ++ 93 :: rest))
      with (skip_ws (join_comma ts' ++ 93 :: rest)).
    rewrite skip_ws_starts_value.
    + rewrite (IH ts' f rest Hl Hdl ltac:(discriminate)
                 ltac:(cbn [length] in *; lia)
                 (fun t Hin => Hlen t (or_intror Hin))).
      reflexivity.
    + apply starts_value_app, starts_value_join; [exact Hts'|].
      intros t Hin. exact (starts_value_items room _ _ t Hl Hdl Hin).
Qed.

(** The first character of the text of a plain value. *)
Definition value_head (c : N) : Prop :=
  In c [110; 116; 102; 34; 91; 123; 45; 48; 49; 50; 51; 52; 53; 54; 55; 56; 57].

Lemma value_head_dumps (room : nat) (v : pyval) (t : pystr) :
  json_plain v = true -> dumps_at room v = Ok t ->
  exists c t', t = c :: t' /\ value_head c.
Proof.
  unfold value_head.
  destruct v as [|b|z|f|s|b|l|d]; try discriminate; intros _.
  - intros [= <-]. eexists _, _. split; [reflexivity|]. cbn [In]. tauto.
  - destruct b; intros [= <-]; eexists _, _; (split; [reflexivity|]);
      cbn [In]; tauto.
  - intros Hz. destruct (head_int_repr z t Hz) as (c & t' & -> & Hc).
    exists c, t'. split; [reflexivity|]. cbn [In] in *. tauto.
  - intros [= <-]. eexists _, _. split; [reflexivity|]. cbn [In]. tauto.
  - destruct room as [|room]; [discriminate|].
    rewrite dumps_list. destruct (mapM (dumps_at room) l); [|discriminate].
    rewrite bind_Ok. intros [= <-]. eexists _, _. split; [reflexivity|].
    cbn [In]. tauto.
  - destruct room as [|room]; [discriminate|].
    rewrite dumps_dict. destruct (mapM (dumps_entry room) d); [|discriminate].
    rewrite bind_Ok. intros [= <-]. eexists _, _. split; [reflexivity|].
    cbn [In]. tauto.
Qed.

Lemma scan_once_array_items (fuel room : nat) (c : N) (r : pystr) :
  value_head c ->
  scan_once (S fuel) (S room) (91 :: c :: r)
  = '(items, r'') ← array_items (scan_once fuel room) fuel (c :: r);
    mret (PList items, r'').
Proof.
  unfold value_head. intros Hc.
  repeat (destruct Hc as [<-|Hc]; [reflexivity|]). contradiction.
Qed.

Lemma scan_once_object_items (fuel room : nat) (r : pystr) :
  scan_once (S fuel) (S room) (123 :: 34 :: r)
  = '(pairs, r'') ← object_items (scan_once fuel room) fuel r;
    mret (PDict (dict_of_pairs pairs), r'').
Proof. reflexivity. Qed.

Lemma mapM_res_length {A B} (f : A -> res B) (l : list A) (ys : list B) :
  mapM f l = Ok ys -> length ys = length l.
Proof.
  revert ys. induction l as [|x l IH]; intros ys.
  - intros [= <-]. reflexivity.
  - intros Hm. destruct (mapM_res_cons _ _ _ _ Hm) as (y & ys' & _ & Hl & ->).
    cbn [length]. rewrite (IH ys' Hl). reflexivity.
Qed.

(** Dictionaries *)

Definition plain_entry (kv : dkey * pyval) : bool :=
  match kv with
  | (KStr _, x) => json_plain x
  | _ => false
  end.

Definition pair_of (kv : dkey * pyval) : pystr * pyval :=
  (match kv.1 with KStr s => s | _ => [] end, kv.2).

Lemma dumps_entry_plain (room : nat) (kv : dkey * pyval) (e : pystr) :
  plain_entry kv = true -> dumps_entry room kv = Ok e ->
  exists s x tx,
    kv = (KStr s, x) /\ json_plain x = true /\ dumps_at room x = Ok tx /\
    e = 34 :: flat_map escape_char s ++ 34 :: 58 :: 32 :: tx.
Proof.
  destruct kv as [[s| | | |] x]; try discriminate. cbn [plain_entry].
  intros Hx. unfold dumps_entry. cbn [fst snd key_text]. rewrite bind_Ok.
  destruct (dumps_at room x) as [tx|] eqn:Edx;
    [|rewrite bind_Raise; discriminate].
  rewrite bind_Ok. intros [= <-]. exists s, x, tx.
  repeat split; try assumption.
  unfold encode_basestring. cbn [app]. rewrite <- app_assoc. reflexivity.
Qed.

Lemma object_items_dumps (F room : nat) :
  scans F ->
  forall d es f rest,
    forallb plain_entry d = true ->
    mapM (dumps_entry room) d = Ok es ->
    d <> [] ->
    (length d <= f)%nat ->
    (forall e, In e es -> (length e <= F)%nat) ->
    exists body,
      join_comma es ++ 125 :: rest = 34 :: body /\
      object_items (scan_once F room) f body = Ok (map pair_of d, rest).
Proof.
  intros HF. induction d as [|kv d IH]; [contradiction|].
  intros es f rest Hp Hd _ Hf Hlen.
  cbn [forallb] in Hp. apply andb_true_iff in Hp as [Hkv Hrest].
  destruct (mapM_res_cons _ _ _ _ Hd) as (e & es' & He & Hd' & ->).
  destruct (dumps_entry_plain room kv e Hkv He)
    as (s & x & tx & -> & Hx & Hdx & ->).
  destruct f as [|f]; [cbn [length] in Hf; lia|].
  assert (Htx : (length tx <= F)%nat).
  { specialize (Hlen _ (or_introl eq_refl)). cbn [length] in Hlen.
    rewrite length_app in Hlen. cbn [length] in Hlen. lia. }
  pose proof (starts_value_dumps room x tx Hx Hdx) as Hsv.
  destruct d as [|kv' d].
  - injection Hd' as <-. cbn [join_comma].
    eexists. split.
    { cbn [app]. rewrite <- app_assoc. cbn [app]. reflexivity. }
    cbn [object_items]. rewrite scanstring_escaped, bind_Ok. cbv beta iota.
    change (skip_ws (58 :: 32 :: tx ++ 125 :: rest))
      with (58 :: 32 :: tx ++ 125 :: rest).
    cbv beta iota.
    change (skip_ws (32 :: tx ++ 125 :: rest))
      with (skip_ws (tx ++ 125 :: rest)).
    rewrite (skip_ws_starts_value _ (starts_value_app _ _ Hsv)).
    rewrite (HF room x tx (125 :: rest) Hx Hdx Htx (delimited_brace rest)).
    rewrite bind_Ok. reflexivity.
  - assert (Hes' : es' <> []).
    { destruct (mapM_res_cons _ _ _ _ Hd') as (? & ? & _ & _ & ->).
      discriminate. }
    destruct (IH es' f rest Hrest Hd' ltac:(discriminate)
                ltac:(cbn [length] in *; lia)
                (fun e Hin => Hlen e (or_intror Hin)))
      as (body' & Ebody & Hitems).
    rewrite join_comma_cons by exact Hes'.
    eexists. split.
    { rewrite <- app_assoc. cbn [app]. rewrite <- app_assoc. cbn [app].
      rewrite Ebody. reflexivity. }
    cbn [object_items]. rewrite scanstring_escaped, bind_Ok. cbv beta iota.
    change (skip_ws (58 :: 32 :: tx ++ 44 :: 32 :: 34 :: body'))
      with (58 :: 32 :: tx ++ 44 :: 32 :: 34 :: body').
    cbv beta iota.
    change (skip_ws (32 :: tx ++ 44 :: 32 :: 34 :: body'))
      with (skip_ws (tx ++ 44 :: 32 :: 34 :: body')).
    rewrite (skip_ws_starts_value _ (starts_value_app _ _ Hsv)).
    rewrite (HF room x tx _ Hx Hdx Htx (delimited_comma _)).
    rewrite bind_Ok. cbv beta iota.
    change (skip_ws (44 :: 32 :: 34 :: body')) with (44 :: 32 :: 34 :: body').
    cbv beta iota.
    change (skip_ws (32 :: 34 :: body')) with (34 :: body').
    cbv beta iota. rewrite Hitems. reflexivity.
Qed.

Lemma dict_set_fresh (k : pystr) (v : pyval) (d : list (dkey * pyval)) :
  k ∉ dict_keys d -> dict_set k v d = d ++ [(KStr k, v)].
Proof.
  induction d as [|[k' v'] d IH]; [reflexivity|].
  intros Hk. cbn [dict_set app].
  destruct k' as [s| | | |]; try (rewrite (IH Hk); reflexivity).
  change (dict_keys ((KStr s, v') :: d)) with (s :: dict_keys d) in Hk.
  apply not_elem_of_cons in Hk as [Hne Hk].
  rewrite decide_False by congruence. rewrite (IH Hk). reflexivity.
Qed.

Lemma dict_keys_app (d1 d2 : list (dkey * pyval)) :
  dict_keys (d1 ++ d2) = dict_keys d1 ++ dict_keys d2.
Proof. unfold dict_keys. apply omap_app. Qed.

Lemma dict_of_pairs_distinct (d acc : list (dkey * pyval)) :
  forallb plain_entry d = true ->
  NoDup (dict_keys acc ++ dict_keys d) ->
  fold_left (fun a kv => dict_set kv.1 kv.2 a) (map pair_of d) acc = acc ++ d.
Proof.
  revert acc. induction d as [|[k x] d IH]; intros acc Hp Hnd.
  - rewrite app_nil_r. reflexivity.
  - cbn [forallb] in Hp. apply andb_true_iff in Hp as [Hkv Hd].
    destruct k as [s| | | |]; try discriminate.
    cbn [map fold_left pair_of fst snd].
    change (dict_keys ((KStr s, x) :: d)) with (s :: dict_keys d) in Hnd.
    rewrite dict_set_fresh.
    + rewrite IH; [rewrite <- app_assoc; reflexivity|exact Hd|].
      rewrite dict_keys_app. change (dict_keys [(KStr s, x)]) with [s].
      rewrite <- app_assoc. exact Hnd.
    + apply NoDup_app in Hnd as (_ & Hdisj & _).
      intros Hin. apply (Hdisj s Hin). left.
Qed.

Lemma dict_of_pairs_plain (d : list (dkey * pyval)) :
  forallb plain_entry d = true -> NoDup (dict_keys d) ->
  dict_of_pairs (map pair_of d) = d.
Proof.
  intros Hp Hnd. unfold dict_of_pairs.
  apply (dict_of_pairs_distinct d [] Hp Hnd).
Qed.

Lemma scans_all (fuel : nat) : scans fuel.
Proof.
  induction fuel as [|fuel IH]; intros room v t rest Hp Hd Hlen Hr.
  { pose proof (starts_value_length t (starts_value_dumps room v t Hp Hd)).
    lia. }
  destruct v as [|b|z|f|s|b|l|d]; try discriminate.
  - injection Hd as <-. reflexivity.
  - destruct b; injection Hd as <-; reflexivity.
  - destruct (head_int_repr z t Hd) as (c & t' & Et & Hc).
    pose proof (scan_number_int z t rest Hd Hr) as Hs.
    rewrite Et in *. cbn [app] in *.
    apply scan_once_number; assumption.
  - injection Hd as <-. unfold encode_basestring. cbn [app].
    rewrite scan_once_string, <- app_assoc. cbn [app].
    rewrite scanstring_escaped. reflexivity.
  - destruct room as [|room]; [discriminate|].
    rewrite dumps_list in Hd.
    destruct (mapM (dumps_at room) l) as [ts|] eqn:Ets; [|discriminate].
    rewrite bind_Ok in Hd. injection Hd as <-.
    cbn [json_plain] in Hp. cbn [app]. rewrite <- app_assoc. cbn [app].
    cbn [length] in Hlen. rewrite length_app in Hlen. cbn [length] in Hlen.
    destruct l as [|x l].
    { injection Ets as <-. reflexivity. }
    destruct (mapM_res_cons _ _ _ _ Ets) as (tx & ts' & Hdx & Hdl & ->).
    assert (Hpx : json_plain x = true).
    { cbn [forallb] in Hp. apply andb_true_iff in Hp. tauto. }
    destruct (value_head_dumps room x tx Hpx Hdx) as (c & tx' & -> & Hc).
    assert (Ejoin : exists r, join_comma ((c :: tx') :: ts') ++ 93 :: rest
                              = c :: r).
    { destruct ts'; eexists; reflexivity. }
    destruct Ejoin as (r & Ejoin).
    pose proof (array_items_dumps fuel room IH (x :: l) ((c :: tx') :: ts')
                  fuel rest Hp Ets ltac:(discriminate)) as Harr.
    rewrite Ejoin in *. rewrite (scan_once_array_items fuel room c r Hc).
    rewrite Harr; [reflexivity| |].
    + rewrite <- (mapM_res_length _ _ _ Ets).
      etransitivity; [apply join_comma_count|lia].
      intros t Hin. apply starts_value_length.
      exact (starts_value_items room _ _ t Hp Ets Hin).
    + intros t Hin. pose proof (join_comma_length_in t _ Hin). lia.
  - destruct room as [|room]; [discriminate|].
    rewrite dumps_dict in Hd.
    destruct (mapM (dumps_entry room) d) as [es|] eqn:Ees; [|discriminate].
    rewrite bind_Ok in Hd. injection Hd as <-.
    cbn [json_plain] in Hp. apply andb_true_iff in Hp as [Hp Hnd].
    apply bool_decide_eq_true in Hnd.
    change (forallb plain_entry d = true) in Hp.
    cbn [app]. rewrite <- app_assoc. cbn [app].
    cbn [length] in Hlen. rewrite length_app in Hlen. cbn [length] in Hlen.
    destruct d as [|kv d].
    { injection Ees as <-. reflexivity. }
    destruct (object_items_dumps fuel room IH (kv :: d) es fuel rest Hp Ees
                ltac:(discriminate)) as (body & Ebody & Hitems).
    + rewrite <- (mapM_res_length _ _ _ Ees).
      etransitivity; [apply join_comma_count|lia].
      intros e Hin. destruct (mapM_res_in _ _ _ _ Ees Hin) as (kv' & Hkv' & He).
      rewrite forallb_forall in Hp.
      destruct (dumps_entry_plain room kv' e (Hp kv' Hkv') He)
        as (? & ? & ? & _ & _ & _ & ->).
      cbn [length]. lia.
    + intros e Hin. pose proof (join_comma_length_in e _ Hin). lia.
    + rewrite Ebody, scan_once_object_items, Hitems, bind_Ok. cbv beta iota.
      rewrite (dict_of_pairs_plain _ Hp Hnd). reflexivity.
Qed.

(** The text of a value does not depend on the room there was to write
    it, as long as there was enough: the nesting of the value. *)
Lemma mapM_res_ext {A B} (f g : A -> res B) (l : list A) (ys : list B) :
  (forall x y, In x l -> f x = Ok y -> g x = Ok y) ->
  mapM f l = Ok ys -> mapM g l = Ok ys.
Proof.
  revert ys. induction l as [|x l IH]; intros ys Hfg; [exact id|].
  intros Hm. destruct (mapM_res_cons _ _ _ _ Hm) as (y & ys' & Hx & Hl & ->).
  cbn [mapM]. rewrite (Hfg x y (or_introl eq_refl) Hx), bind_Ok.
  rewrite (IH ys' (fun x' y' Hin => Hfg x' y' (or_intror Hin)) Hl), bind_Ok.
  reflexivity.
Qed.

Lemma nesting_item (x : pyval) (l : list pyval) :
  In x l -> (nesting x < nesting (PList l))%nat.
Proof.
  cbn [nesting]. induction l as [|y l IH]; [contradiction|].
  cbn [fold_right]. intros [->|Hin]; [lia|]. specialize (IH Hin). lia.
Qed.

Lemma nesting_entry (k : dkey) (x : pyval) (d : list (dkey * pyval)) :
  In (k, x) d -> (nesting x < nesting (PDict d))%nat.
Proof.
  cbn [nesting]. induction d as [|[k' y] d IH]; [contradiction|].
  cbn [fold_right]. intros [[= -> ->]|Hin]; [lia|]. specialize (IH Hin). lia.
Qed.

Lemma dumps_at_room (depth : nat) :
  forall v t room,
    dumps_at depth v = Ok t -> (nesting v <= room)%nat ->
    dumps_at room v = Ok t.
Proof.
  induction depth as [|depth IH]; intros v t room Hd Hn.
  - destruct v; try exact Hd; discriminate.
  - destruct v as [|b|z|f|s|b|l|d]; try exact Hd.
    + destruct room as [|room]; [cbn [nesting] in Hn; lia|].
      rewrite dumps_list in *.
      destruct (mapM (dumps_at depth) l) as [ts|] eqn:Ets; [|discriminate].
      rewrite (mapM_res_ext (dumps_at depth) (dumps_at room) l ts);
        [exact Hd| |exact Ets].
      intros x y Hin Hx. apply IH; [exact Hx|].
      pose proof (nesting_item x l Hin). lia.
    + destruct room as [|room]; [cbn [nesting] in Hn; lia|].
      rewrite dumps_dict in *.
      destruct (mapM (dumps_entry depth) d) as [es|] eqn:Ees; [|discriminate].
      rewrite (mapM_res_ext (dumps_entry depth) (dumps_entry room) d es);
        [exact Hd| |exact Ees].
      intros [k x] y Hin. unfold dumps_entry. cbn [fst snd].
      destruct (key_text k); [|rewrite !bind_Raise; discriminate].
      rewrite !bind_Ok.
      destruct (dumps_at depth x) as [tx|] eqn:Ex;
        [|rewrite bind_Raise; discriminate].
      rewrite (IH x tx room Ex); [exact id|].
      pose proof (nesting_entry k x d Hin). lia.
Qed.

(** A value that is written nests no deeper than there was room for. *)
Lemma dumps_at_nesting (depth : nat) :
  forall v t, dumps_at depth v = Ok t -> (nesting v <= depth)%nat.
Proof.
  induction depth as [|depth IH]; intros v t Hd.
  - destruct v; try discriminate; cbn [nesting]; lia.
  - destruct v as [|b|z|f|s|b|l|d]; try (cbn [nesting]; lia).
    + rewrite dumps_list in Hd.
      destruct (mapM (dumps_at depth) l) as [ts|] eqn:Ets; [|discriminate].
      clear Hd. cbn [nesting]. apply le_n_S.
      revert ts Ets. induction l as [|x l IHl]; intros ts Ets; [cbn; lia|].
      destruct (mapM_res_cons _ _ _ _ Ets) as (y & ys & Hx & Hl & ->).
      cbn [fold_right]. specialize (IHl ys Hl). specialize (IH x y Hx). lia.
    + rewrite dumps_dict in Hd.
      destruct (mapM (dumps_entry depth) d) as [es|] eqn:Ees; [|discriminate].
      clear Hd. cbn [nesting]. apply le_n_S.
      revert es Ees. induction d as [|[k x] d IHd]; intros es Ees; [cbn; lia|].
      destruct (mapM_res_cons _ _ _ _ Ees) as (y & ys & Hx & Hl & ->).
      cbn [fold_right]. specialize (IHd ys Hl).
      unfold dumps_entry in Hx. cbn [fst snd] in Hx.
      destruct (key_text k); [|rewrite !bind_Raise in Hx; discriminate].
      rewrite !bind_Ok in Hx.
      destruct (dumps_at depth x) as [tx|] eqn:Ex;
        [|rewrite bind_Raise in Hx; discriminate].
      specialize (IH x tx Ex). lia.
Qed.

Lemma loads_head (c : N) (t : pystr) :
  value_head c ->
  loads (c :: t)
  = '(obj, r) ← scan_once (S (length (c :: t))) loads_depth
                  (skip_ws (c :: t));
    match skip_ws r with
    | [] => Ok obj
    | _ => Raise JSONDecodeError
    end.
Proof.
  unfold value_head. intros Hc.
  repeat (destruct Hc as [<-|Hc]; [reflexivity|]). contradiction.
Qed.

(** [json.loads(json.dumps(v, ensure_ascii=False))] is [v] for the plain
    values that nest no deeper than there is room to read. *)
Lemma loads_dumps_at (depth : nat) (v : pyval) (t : pystr) :
  json_plain v = true -> dumps_at depth v = Ok t ->
  (nesting v <= loads_depth)%nat ->
  loads t = Ok v.
Proof.
  intros Hp Hd Hn.
  pose proof (dumps_at_room depth v t loads_depth Hd Hn) as Hd'.
  pose proof (starts_value_dumps _ v t Hp Hd') as Hs.
  pose proof (scans_all (S (length t)) loads_depth v t [] Hp Hd'
                ltac:(lia) I) as Hscan.
  rewrite app_nil_r in Hscan.
  destruct (value_head_dumps _ v t Hp Hd') as (c & t' & -> & Hc).
  rewrite (loads_head c t' Hc), (skip_ws_starts_value _ Hs), Hscan.
  reflexivity.
Qed.

Lemma loads_dumps (v : pyval) (t : pystr) :
  json_plain v = true -> dumps v = Ok t ->
  (nesting v <= loads_depth)%nat ->
  loads t = Ok v.
Proof. apply loads_dumps_at. Qed.

End JsonProofs.

(** ** More of the ZeroMQ client *)

Section ZMQCoverage.
Import ZMQ.
Context `{PyRuntime}.

Ltac zmq_eval :=
  repeat (first [run_core | rewrite zmq_run_emit | rewrite zmq_run_log
                | rewrite zmq_run_call];
          cbn beta iota);
  cbn [cfg sockets running threads connected_endpoints objects trace world
       set_cfg set_sockets set_running set_threads set_connected_endpoints
       set_objects set_trace] in *.

(** *** The codec, both ways *)

Lemma json_payload_round_trip (c : config) (v : pyval) (b : bytes) :
  message_format c <> "string" -> message_format c <> "bytes" ->
  json_plain v = true ->
  (nesting v <= loads_depth)%nat ->
  serialize_payload c v = Ok b ->
  deserialize_payload c b = Ok v.
Proof.
  intros Hs Hb Hp Hn. unfold serialize_payload, deserialize_payload.
  assert (Hcore : (json_str ← Json.dumps v; str_encode (encoding_name c) json_str)
                  = Ok b ->
                  (json_str ← bytes_decode (encoding_name c) b;
                   Json.loads json_str) = Ok v).
  { destruct (Json.dumps v) as [t|] eqn:Et; [|rewrite bind_Raise; discriminate].
    rewrite bind_Ok. intros He.
    rewrite (bytes_decode_str_encode _ _ _ He), bind_Ok.
    exact (loads_dumps v t Hp Et Hn). }
  destruct (decide (message_format c = "json")).
  - exact Hcore.
  - rewrite !decide_False by assumption. intros Hser.
    rewrite (Hcore Hser). reflexivity.
Qed.


(** X1.  Under the structured-text format, and under any format that is
    neither "string" nor "bytes", with one of the encodings utf-8, ascii
    and latin-1, a payload made of [None], booleans, integers, strings,
    lists and dictionaries keyed by distinct strings survives the codec:
    when [_serialize_message] succeeds on it and it nests no deeper than
    the recursion limit leaves [json.loads] room for,
    [_deserialize_message] turns the bytes back into the payload, and
    neither logs nor changes anything. *)
Theorem codec_json_round_trip (st : state) (v : pyval) (b : bytes) :
  message_format (cfg st) <> "string" -> message_format (cfg st) <> "bytes" ->
  json_plain v = true ->
  (nesting v <= loads_depth)%nat ->
  serialize_payload (cfg st) v = Ok b ->
  _serialize_message v st = (Ok b, st) /\
  _deserialize_message b st = (Ok v, st).
Proof.
  intros Hs Hb Hp Hn Hser. split.
  - rewrite serialize_message_run, Hser. reflexivity.
  - rewrite deserialize_message_run.
    rewrite (json_payload_round_trip _ v b Hs Hb Hp Hn Hser). reflexivity.
Qed.

(** X2.  Under the format "string" a string that the configured encoding
    can encode comes back as it was sent, in every encoding; under the
    format "bytes" every byte string goes through both directions
    unchanged. *)
Theorem codec_raw_round_trip (st : state) :
  (message_format (cfg st) = "string" ->
   forall s b,
     serialize_payload (cfg st) (PStr s) = Ok b ->
     _serialize_message (PStr s) st = (Ok b, st) /\
     _deserialize_message b st = (Ok (PStr s), st)) /\
  (message_format (cfg st) = "bytes" ->
   forall b,
     _serialize_message (PBytes b) st = (Ok b, st) /\
     _deserialize_message b st = (Ok (PBytes b), st)).
Proof.
  split; intros Hf.
  - intros s b Hser. split.
    + rewrite serialize_message_run, Hser. reflexivity.
    + rewrite deserialize_message_run. revert Hser.
      unfold serialize_payload, deserialize_payload. rewrite Hf.
      cbn [decide]. intros He.
      change (str_encode (encoding_name (cfg st)) s = Ok b) in He.
      change (match (text ← bytes_decode (encoding_name (cfg st)) b;
                     mret (PStr text)) with
              | Ok v => (Ok v, st)
              | Raise _ =>
                  (Ok PNone,
                   set_trace (trace st ++ [Log ERROR "deserialization failed"])
                     st)
              end = (Ok (PStr s), st)).
      rewrite (bytes_decode_str_encode _ _ _ He). reflexivity.
  - intros b. split.
    + rewrite serialize_message_run. unfold serialize_payload. rewrite Hf.
      reflexivity.
    + rewrite deserialize_message_run. unfold deserialize_payload. rewrite Hf.
      reflexivity.
Qed.

(** *** Sending *)

Definition is_log (e : event) : Prop := exists l tag, e = Log l tag.

(** X3.  [send_message] sends nothing and answers [False] when the name is
    not registered, when the payload cannot be serialized, and when its
    serialization is empty (the empty string under "string", the empty
    byte string under "bytes"): the socket is not touched, and only log
    lines are written, none at all in the last case. *)
Theorem send_message_nothing_sent (name : string) (data : pyval) (st : state) :
  (sockets st !! name = None \/
   forall b, serialize_payload (cfg st) data = Ok b -> b = []) ->
  (exists evs,
      send_message name data st = (Ok false, set_trace (trace st ++ evs) st) /\
      Forall is_log evs) /\
  (forall h, sockets st !! name = Some h ->
             serialize_payload (cfg st) data = Ok [] ->
             send_message name data st = (Ok false, st)).
Proof.
  intros Hcase. split.
  - unfold send_message. zmq_eval.
    destruct (sockets st !! name) as [h|] eqn:Hn.
    + destruct Hcase as [Hno|Hser]; [discriminate|].
      zmq_eval. rewrite serialize_message_run.
      destruct (serialize_payload (cfg st) data) as [b|e].
      * rewrite (Hser b eq_refl). zmq_eval. exists [].
        rewrite set_trace_id. split; [reflexivity|constructor].
      * zmq_eval. eexists. split; [reflexivity|].
        repeat constructor. eexists _, _. reflexivity.
    + zmq_eval. eexists. split; [reflexivity|].
      repeat constructor. eexists _, _. reflexivity.
  - intros h Hn Hser. unfold send_message. zmq_eval. rewrite Hn. zmq_eval.
    rewrite serialize_message_run, Hser. zmq_eval. reflexivity.
Qed.

(** X4.  On a registered, open socket, a payload whose serialization is
    not empty is sent as exactly those bytes, once; [send_message] answers
    [True] when the library accepts them and [False], with an error logged,
    when the library raises. *)
Theorem send_message_sends_serialization (name : string) (h : handle)
  (data : pyval) (out : bytes) (st : state) :
  sockets st !! name = Some h ->
  is_open h st = true ->
  serialize_payload (cfg st) data = Ok out ->
  out <> [] ->
  show_message_content (cfg st) = false ->
  send_message name data st
  = match world st (trace st) (Send h out) with
    | Fails _ =>
        (Ok false,
         set_trace (trace st ++ [Send h out; Log ERROR "sending failed"]) st)
    | _ =>
        (Ok true,
         set_trace (trace st ++ [Send h out; Log DEBUG "message sent"]) st)
    end.
Proof.
  intros Hn Ho Hser Hout Hs. unfold send_message. zmq_eval.
  rewrite Hn. zmq_eval. rewrite serialize_message_run, Hser. cbn beta iota.
  destruct out as [|x out]; [contradiction|].
  rewrite run_bind, sock_send_run, Ho.
  destruct (world st (trace st) (Send h (x :: out))); cbn beta iota.
  2: { zmq_eval. rewrite <- app_assoc. reflexivity. }
  all: rewrite run_bind, log_message_quiet by exact Hs; zmq_eval;
       rewrite <- app_assoc; reflexivity.
Qed.

(** X5.  What one client sends, a peer configured with the same format
    and the same encoding (utf-8, ascii or latin-1), and running under the
    same limit on the digits of an integer, receives: when [send_message]
    serializes a plain payload that nests no deeper than the peer has room
    to read (or, under "string", a string; under "bytes", a byte string)
    to [out] and the peer's socket delivers [out], the peer's
    [receive_message], message contents not being shown, returns the
    payload. *)
Theorem receive_message_returns_sent (sender receiver : config)
  (name : string) (h : handle) (data : pyval) (out : bytes) (st : state) :
  message_format receiver = message_format sender ->
  encoding_name receiver = encoding_name sender ->
  cfg st = receiver ->
  (if decide (message_format sender = "string")
   then exists s, data = PStr s
   else if decide (message_format sender = "bytes")
        then exists b, data = PBytes b
        else json_plain data = true /\ (nesting data <= loads_depth)%nat) ->
  serialize_payload sender data = Ok out ->
  sockets st !! name = Some h ->
  is_open h st = true ->
  world st (trace st) (Recv h) = Delivers out ->
  show_message_content (cfg st) = false ->
  receive_message name st
  = (Ok data,
     set_trace (trace st ++ [Recv h; Log DEBUG "message received"]) st).
Proof.
  intros Hfmt Henc Hcfg Hdata Hser Hn Ho Hw Hs.
  apply (receive_message_decoded name h out data st Hn Ho Hw); [|exact Hs].
  rewrite Hcfg.
  assert (Hser' : serialize_payload receiver data = Ok out).
  { revert Hser. unfold serialize_payload. rewrite Hfmt, Henc. exact id. }
  clear Hser. rewrite <- Hfmt in Hdata.
  destruct (decide (message_format receiver = "string")) as [Hstr|Hstr].
  - destruct Hdata as [s ->]. revert Hser'.
    unfold serialize_payload, deserialize_payload. rewrite Hstr. cbn [decide].
    intros He.
    change (str_encode (encoding_name receiver) s = Ok out) in He.
    change ((text ← bytes_decode (encoding_name receiver) out; mret (PStr text))
            = Ok (PStr s)).
    rewrite (bytes_decode_str_encode _ _ _ He). reflexivity.
  - destruct (decide (message_format receiver = "bytes")) as [Hb|Hb].
    + destruct Hdata as [b ->]. revert Hser'.
      unfold serialize_payload, deserialize_payload. rewrite Hb. cbn [decide].
      intros [= <-]. reflexivity.
    + destruct Hdata as [Hp Hdepth].
      apply json_payload_round_trip; assumption.
Qed.

(** *** The registry *)

(** X6.  When no library call fails, creating a socket under a non-empty
    name that the registry does not hold and closing it again by that name
    leaves the registry as it was, the new handle closed, and every socket
    that was open still open. *)
Theorem create_then_close (ty : socket_type) (name : string) (st : state) :
  name <> "" ->
  sockets st !! name = None ->
  cooperative st ->
  exists st1 st2,
    create_socket ty (Some name) st = (Ok (Some (length (objects st))), st1) /\
    close_socket name st1 = (Ok true, st2) /\
    sockets st2 = sockets st /\
    is_open (length (objects st)) st2 = false /\
    (forall prior, is_open prior st = true -> is_open prior st2 = true).
Proof.
  intros Hname Hnone Hco.
  assert (Hw : forall x, world st (trace st)
                           (CtxSocket ty (length (objects st))) <> Fails x).
  { intros x E. destruct (Hco _ _ _ E) as (? & ? & ?). discriminate. }
  destruct (create_socket_registers ty name st Hname Hnone Hw) as [evs E1].
  eexists _, _. split; [exact E1|].
  match goal with
  | |- close_socket name ?s = _ /\ _ =>
      assert (Hn1 : sockets s !! name = Some (length (objects st)))
        by (zmq_eval; apply lookup_insert_eq);
      assert (Hw1 : forall x, world s (trace s) (Close (length (objects st)))
                              <> Fails x)
        by (intros x E; destruct (Hco _ _ _ E) as (? & ? & ?); discriminate);
      rewrite (close_socket_present name _ s Hn1 Hw1)
  end.
  split; [reflexivity|]. zmq_eval.
  split; [apply delete_insert_id; exact Hnone|].
  split.
  - unfold is_open. zmq_eval. rewrite list_lookup_alter.
    rewrite decide_True by reflexivity.
    rewrite list_lookup_middle by reflexivity. reflexivity.
  - intros prior Hp. unfold is_open in *. zmq_eval.
    destruct (objects st !! prior) as [s|] eqn:Es; [|discriminate].
    assert (Hlt : (prior < length (objects st))%nat)
      by (apply lookup_lt_is_Some; eauto).
    rewrite list_lookup_alter_ne by lia.
    rewrite (lookup_app_l_Some _ _ _ _ Es). exact Hp.
Qed.

(** X7.  A socket created without a name, or with the empty name, is
    handed back but not entered in the registry: the registry is as before,
    so no name reaches the new socket. *)
Theorem create_socket_unnamed (ty : socket_type) (name : option string)
  (st : state) :
  name = None \/ name = Some "" ->
  cooperative st ->
  exists st',
    create_socket ty name st = (Ok (Some (length (objects st))), st') /\
    sockets st' = sockets st /\
    is_open (length (objects st)) st' = true.
Proof.
  intros Hname Hco.
  assert (Hg : name_given name = None) by (destruct Hname as [->| ->]; reflexivity).
  unfold create_socket, ctx_socket, call_unit. zmq_eval.
  destruct (world st (trace st) (CtxSocket ty (length (objects st)))) eqn:E;
    try (destruct (Hco _ _ _ E) as (? & ? & ?); discriminate); zmq_eval.
  all: match goal with
       | |- context [_configure_socket ?h ?s] =>
           destruct (configure_ok h s) as [evs ->]
       end; zmq_eval; rewrite Hg; zmq_eval;
       (eexists; split; [reflexivity|]); zmq_eval;
       (split; [reflexivity|]);
       unfold is_open; zmq_eval;
       rewrite list_lookup_middle by reflexivity; reflexivity.
Qed.

(** X8.  When the context refuses to make the socket, [create_socket]
    answers [None] and logs the error; it does not raise, and neither the
    registry nor any socket has changed. *)
Theorem create_socket_refused (ty : socket_type) (name : option string)
  (st : state) (x : exn) :
  world st (trace st) (CtxSocket ty (length (objects st))) = Fails x ->
  create_socket ty name st
  = (Ok None,
     set_trace (trace st ++ [CtxSocket ty (length (objects st));
                             Log ERROR "creating the socket failed"]) st).
Proof.
  intros E. unfold create_socket, ctx_socket, call_unit. zmq_eval.
  rewrite E. zmq_eval. rewrite <- app_assoc. reflexivity.
Qed.

Lemma add_endpoint_set (endpoint : string) (eps : list string) :
  NoDup eps ->
  NoDup (if decide (endpoint ∈ eps) then eps else eps ++ [endpoint]) /\
  (forall e, e ∈ eps ->
             e ∈ (if decide (endpoint ∈ eps) then eps else eps ++ [endpoint])) /\
  endpoint ∈ (if decide (endpoint ∈ eps) then eps else eps ++ [endpoint]).
Proof.
  intros Hnd. destruct (decide (endpoint ∈ eps)) as [Hin|Hin].
  - repeat split; auto.
  - split; [|split].
    + apply NoDup_app. repeat split; [assumption| |apply NoDup_singleton].
      intros e He1 He2. apply list_elem_of_singleton in He2. subst.
      contradiction.
    + intros e He. apply elem_of_app. left. exact He.
    + apply elem_of_app. right. apply list_elem_of_singleton. reflexivity.
Qed.

(** X9.  [connect_socket] keeps the connected endpoints a set: after a
    successful connect the endpoint is among them, the others are kept and
    nothing is listed twice; when the socket is closed or the library
    raises, the answer is [False], an error is logged and the endpoints
    are as before. *)
Theorem connect_socket_endpoints (h : handle) (endpoint : string) (st : state) :
  NoDup (connected_endpoints st) ->
  exists ok st',
    connect_socket h endpoint st = (Ok ok, st') /\
    NoDup (connected_endpoints st') /\
    (forall e, e ∈ connected_endpoints st -> e ∈ connected_endpoints st') /\
    (ok = true -> endpoint ∈ connected_endpoints st') /\
    (ok = false -> connected_endpoints st' = connected_endpoints st) /\
    (ok = true <->
     is_open h st = true /\
     forall x, world st (trace st) (Connect h endpoint) <> Fails x).
Proof.
  intros Hnd. destruct (add_endpoint_set endpoint _ Hnd) as (Hnd' & Hkeep & Hin).
  unfold connect_socket, sock_connect, on_socket, call_unit.
  zmq_eval. destruct (is_open h st) eqn:Ho; zmq_eval.
  - destruct (world st (trace st) (Connect h endpoint)) eqn:E; zmq_eval.
    2: { eexists false, _. split; [reflexivity|]. zmq_eval.
         repeat split; try assumption; try discriminate; try tauto.
         intros [_ Hx]. exfalso. exact (Hx _ eq_refl). }
    all: destruct (show_connection_status (cfg st)); zmq_eval;
         (eexists true, _; split; [reflexivity|]); zmq_eval;
         (split; [exact Hnd'|]); (split; [exact Hkeep|]);
         (split; [intros _; exact Hin|]); (split; [discriminate|]);
         (split; [intros _; split; [reflexivity|intros x; discriminate]
                 |reflexivity]).
  - eexists false, _. split; [reflexivity|]. zmq_eval.
    repeat split; try assumption; try discriminate; try tauto.
Qed.

(** *** The reachability probe *)

(** The host and port the probe is sent to: the arguments, or the
    defaults in place of a missing or empty host and a missing or zero
    port. *)
Definition probed_host (host : option string) (st : state) : string :=
  match host with
  | Some x => if decide (x = "") then default_host (cfg st) else x
  | None => default_host (cfg st)
  end.

Definition probed_port (port : option N) (st : state) : N :=
  match port with
  | Some p => if p =? 0 then default_port (cfg st) else p
  | None => default_port (cfg st)
  end.

(** X10.  [check_network_connectivity] never raises and changes nothing.
    Switched off, it answers [True] without probing.  Switched on, it
    probes once, the given host and port or the defaults, and answers
    [True] exactly when the probe does not raise and its code is zero. *)
Theorem check_network_connectivity_answer (host : option string)
  (port : option N) (st : state) :
  (connectivity_check_enabled (cfg st) = false ->
   check_network_connectivity host port st = (Ok true, st)) /\
  (connectivity_check_enabled (cfg st) = true ->
   exists l tag,
     check_network_connectivity host port st
     = (Ok (match world st (trace st ++ [Log DEBUG "checking connectivity"])
                    (Probe (probed_host host st) (probed_port port st)) with
            | Fails _ => false
            | Code c => (c =? 0)%Z
            | _ => true
            end),
        set_trace (trace st ++ [Log DEBUG "checking connectivity";
                                Probe (probed_host host st)
                                  (probed_port port st);
                                Log l tag]) st)).
Proof.
  split; intros Hen; unfold check_network_connectivity; zmq_eval; rewrite Hen;
    cbn [negb]; zmq_eval; [reflexivity|].
  fold (probed_host host st). fold (probed_port port st).
  unfold tcp_probe. zmq_eval.
  destruct (world st (trace st ++ [Log DEBUG "checking connectivity"])
              (Probe (probed_host host st) (probed_port port st)))
    as [|x|m|ps|c]; zmq_eval;
    try change (0 =? 0)%Z with true; try destruct (c =? 0)%Z;
    cbn beta iota; zmq_eval;
    eexists _, _; rewrite <- !app_assoc; reflexivity.
Qed.

(** *** Loops *)

(** X11.  A loop started on a client whose [running] flag is not set
    stops at once: it logs its start and its stop and never asks the socket
    for a message.  So it is for the subscriber loop and for the server
    loop, however many iterations they are observed for. *)
Theorem loops_need_running (name : string) (callback : pyval -> res unit)
  (handler : pyval -> res pyval) (fuel : nat) (st : state) :
  running st = false ->
  subscriber_loop name callback (S fuel) st
  = (Ok tt, set_trace (trace st ++ [Log DEBUG "subscriber loop started";
                                    Log DEBUG "subscriber loop stopped"]) st) /\
  server_loop name handler (S fuel) st
  = (Ok tt, set_trace (trace st ++ [Log DEBUG "server loop started";
                                    Log DEBUG "server loop stopped"]) st).
Proof.
  intros Hr. split.
  - unfold subscriber_loop. cbn [run_loop]. zmq_eval. rewrite Hr. zmq_eval.
    rewrite <- app_assoc. reflexivity.
  - unfold server_loop. cbn [run_loop]. zmq_eval. rewrite Hr. zmq_eval.
    rewrite <- app_assoc. reflexivity.
Qed.

(** The value the subscriber loop hands to the callback, out of the
    parts it received: the only part; or the second part, the third taking
    its place when it is usable; and nothing when that value is [None] or
    an empty byte string. *)
Definition handed_over (parts : list pyval) : option pyval :=
  match parts with
  | [] => None
  | [only] => if is_none only then None else Some only
  | _ :: content :: more =>
      let content :=
        match more with
        | actual_content :: _ =>
            if usable_override actual_content then actual_content else content
        | [] => content
        end in
      if deliverable content then Some content else None
  end.

Lemma subscriber_iteration_calls (name : string)
  (callback : pyval -> res unit) (st st1 : state) (parts : list pyval)
  (v : pyval) :
  receive_multipart_message name st = (Ok parts, st1) ->
  handed_over parts = Some v ->
  subscriber_iteration name callback st
  = match callback v with
    | Ok _ => (Ok Continue, set_trace (trace st1 ++ [Callback v]) st1)
    | Raise _ =>
        loop_error "subscriber loop error" "subscriber loop fatal error"
          (set_trace (trace st1 ++ [Callback v]) st1)
    end.
Proof.
  intros Hr Hv. unfold subscriber_iteration.
  rewrite run_try_except, run_bind, Hr. cbn beta iota.
  destruct parts as [|p1 [|p2 more]]; cbn [handed_over] in Hv;
    [discriminate| |].
  - destruct (is_none p1); [discriminate|]. injection Hv as ->.
    cbn [negb]. unfold invoke_callback. zmq_eval.
    destruct (callback v); zmq_eval; reflexivity.
  - cbv zeta in Hv. cbv zeta.
    match type of Hv with
    | (if deliverable ?c then _ else _) = _ =>
        destruct (deliverable c) eqn:Hd; [|discriminate];
        injection Hv as Hv; rewrite Hv in *
    end.
    unfold invoke_callback. zmq_eval.
    destruct (callback v); zmq_eval; reflexivity.
Qed.

(** X12.  When the callback raises on the value the subscriber loop hands
    it: with [continue_on_error] off, the iteration logs a fatal error and
    the loop stops; with it on, the iteration logs the error and sleeps
    [message_processing_sleep], after which the loop goes on if
    [time.sleep] takes that duration, while if it refuses it the exception
    of [time.sleep] leaves the iteration. *)
Theorem subscriber_iteration_callback_raises (name : string)
  (callback : pyval -> res unit) (st : state) (parts : list pyval)
  (v : pyval) (x : exn) :
  (receive_multipart_message name st).1 = Ok parts ->
  handed_over parts = Some v ->
  callback v = Raise x ->
  let st1 := (receive_multipart_message name st).2 in
  let called := trace st1 ++ [Callback v] in
  let pause := message_processing_sleep (cfg st) in
  (continue_on_error (cfg st) = false ->
   subscriber_iteration name callback st
   = (Ok Break,
      set_trace (called ++ [Log ERROR "subscriber loop fatal error"]) st1)) /\
  (continue_on_error (cfg st) = true -> pauses st ->
   subscriber_iteration name callback st
   = (Ok Continue,
      set_trace (called ++ [Log ERROR "subscriber loop error"; Sleep pause])
        st1)) /\
  (forall e,
      continue_on_error (cfg st) = true ->
      sleep_argument pause = Raise e ->
      subscriber_iteration name callback st
      = (Raise e,
         set_trace (called ++ [Log ERROR "subscriber loop error"]) st1)).
Proof.
  intros Hr Hv Hcb. cbv zeta.
  destruct (receive_multipart_message_only name st) as (evs & E & _).
  destruct (receive_multipart_message name st) as [[ps|e0] st1] eqn:Erecv;
    cbn [fst snd] in *; [|discriminate].
  injection Hr as ->. subst st1.
  rewrite (subscriber_iteration_calls name callback st _ parts v Erecv Hv), Hcb.
  unfold loop_error. zmq_eval.
  split; [|split].
  - intros ->. zmq_eval. rewrite <- !app_assoc. reflexivity.
  - intros -> Hp. zmq_eval.
    rewrite sleep_between_messages_pauses by exact Hp.
    zmq_eval. rewrite <- !app_assoc. reflexivity.
  - intros e -> Ha. zmq_eval.
    rewrite (sleep_between_messages_refused _ e) by exact Ha.
    rewrite <- !app_assoc. reflexivity.
Qed.

(** X13.  The server loop replies on REP sockets only, and idles when
    there is nothing to handle.  On an open socket of another type, a
    request is handed to the handler and the handler's result is dropped:
    after the receive, nothing is sent.  When [receive_message] returns
    [None] the handler is not called and the iteration sleeps
    [message_processing_sleep]: the loop goes on if [time.sleep] takes that
    duration; if it refuses it, the loop stops with a fatal error logged
    when [continue_on_error] is off, and the exception of [time.sleep]
    leaves the iteration when it is on. *)
Theorem server_iteration_no_reply (name : string)
  (handler : pyval -> res pyval) (st : state) (h : handle) (s : sock) :
  sockets st !! name = Some h ->
  objects st !! h = Some s ->
  sock_closed s = false ->
  let st1 := (receive_message name st).2 in
  let pause := message_processing_sleep (cfg st) in
  (forall request response,
      sock_type s <> REP ->
      (receive_message name st).1 = Ok request ->
      is_none request = false ->
      handler request = Ok response ->
      server_iteration name handler st
      = (Ok Continue, set_trace (trace st1 ++ [Handler request]) st1)) /\
  ((receive_message name st).1 = Ok PNone ->
   (pauses st ->
    server_iteration name handler st
    = (Ok Continue, set_trace (trace st1 ++ [Sleep pause]) st1)) /\
   (forall e,
       sleep_argument pause = Raise e ->
       server_iteration name handler st
       = if continue_on_error (cfg st) then
           (Raise e,
            set_trace (trace st1 ++ [Log ERROR "server loop error"]) st1)
         else
           (Ok Break,
            set_trace (trace st1 ++ [Log ERROR "server loop fatal error"])
              st1))).
Proof.
  intros Hn Hobj Hcl. cbv zeta.
  destruct (receive_message_only name st) as (evs & E & _).
  split.
  - intros request response Hty Hr Hreq Hh.
    unfold server_iteration. rewrite run_try_except, run_bind.
    destruct (receive_message name st) as [[r|e0] st1];
      cbn [fst snd] in *; [|discriminate].
    injection Hr as ->. subst st1. cbn beta iota.
    rewrite Hreq. cbn [negb]. zmq_eval. rewrite Hh. zmq_eval.
    rewrite Hn. unfold socket_type_of. zmq_eval. rewrite Hobj. zmq_eval.
    replace (is_REP (sock_type s)) with false
      by (destruct (sock_type s); try reflexivity; contradiction).
    cbn [andb]. zmq_eval. rewrite <- ?app_assoc. reflexivity.
  - intros Hr.
    assert (Hbody : server_iteration name handler st
                    = match sleep_between_messages
                              (set_trace (trace st ++ evs) st) with
                      | (Ok _, st2) => (Ok Continue, st2)
                      | (Raise _, st2) =>
                          loop_error "server loop error"
                            "server loop fatal error" st2
                      end).
    { unfold server_iteration. rewrite run_try_except, run_bind.
      destruct (receive_message name st) as [[r|e0] st1];
        cbn [fst snd] in *; [|discriminate].
      injection Hr as ->. subst st1. cbn beta iota. cbn [is_none negb].
      rewrite run_bind.
      destruct (sleep_between_messages _) as [[[]|e1] st2]; reflexivity. }
    rewrite Hbody, E. split.
    + intros Hp. rewrite sleep_between_messages_pauses by exact Hp.
      reflexivity.
    + intros e Ha.
      rewrite (sleep_between_messages_refused _ e) by exact Ha.
      unfold loop_error. zmq_eval.
      destruct (continue_on_error (cfg st)); zmq_eval; [|reflexivity].
      rewrite (sleep_between_messages_refused _ e) by exact Ha. reflexivity.
Qed.

(** *** Connecting with a socket type the client does not know *)

Definition log_or_probe (e : event) : Prop :=
  is_log e \/ exists host port, e = Probe host port.

Lemma check_network_connectivity_total (host : option string)
  (port : option N) (st : state) :
  exists r evs,
    check_network_connectivity host port st
    = (Ok r, set_trace (trace st ++ evs) st) /\
    Forall log_or_probe evs.
Proof.
  assert (Hlog : forall l tag, log_or_probe (Log l tag))
    by (intros l tag; left; eexists _, _; reflexivity).
  assert (Hprobe : forall a b, log_or_probe (Probe a b))
    by (intros a b; right; eexists _, _; reflexivity).
  unfold check_network_connectivity. zmq_eval.
  destruct (connectivity_check_enabled (cfg st)); cbn [negb]; zmq_eval.
  - fold (probed_host host st). fold (probed_port port st).
    unfold tcp_probe. zmq_eval.
    destruct (world st (trace st ++ [Log DEBUG "checking connectivity"])
                (Probe (probed_host host st) (probed_port port st)))
      as [|x|m|ps|c]; zmq_eval;
      try change (0 =? 0)%Z with true; try destruct (c =? 0)%Z;
      cbn beta iota; zmq_eval;
      (eexists _, _; split; [rewrite <- !app_assoc; reflexivity|]);
      cbn [app];
      repeat (constructor; [first [apply Hlog | apply Hprobe]|]);
      constructor.
  - exists true, []. rewrite set_trace_id. split; [reflexivity|constructor].
Qed.

(** X14.  Asked for a socket type other than "req", "sub" and "push"
    (in any letter case), [connect_to_remote_host] creates no socket and
    answers [False]; it has all the same taken the host and port as the
    client's new defaults and probed them.  The sockets and the registry
    are untouched. *)
Theorem connect_to_remote_host_unsupported (host : string) (port : N)
  (socket_type : string) (socket_name : option string)
  (topics : list string) (auto_start_loop : bool) (st : state) :
  requested_type socket_type = None ->
  exists evs,
    connect_to_remote_host host port socket_type socket_name topics
      auto_start_loop st
    = (Ok false,
       set_trace (trace st ++ evs)
         (set_cfg (set_host_port_cfg host port (cfg st)) st)) /\
    Forall log_or_probe evs.
Proof.
  intros Hty.
  assert (Hlog : forall l tag, log_or_probe (Log l tag))
    by (intros l tag; left; eexists _, _; reflexivity).
  unfold connect_to_remote_host.
  rewrite (try_except_step (set_host_port host port) _ _ st _ tt eq_refl).
  match goal with
  | |- context [try_except _ _ ?s] => set (st1 := s)
  end.
  destruct (check_network_connectivity_total (Some host) (Some port) st1)
    as (r & evs & Hcheck & Hevs).
  rewrite (try_except_step _ _ _ st1 _ r Hcheck).
  assert (Hwarn : exists evs',
             ((if negb r
               then log WARNING "host unreachable, creating the socket anyway"
               else ret tt) : M unit)
               (set_trace (trace st1 ++ evs) st1)
             = (Ok tt, set_trace (trace st1 ++ evs ++ evs') st1) /\
             Forall log_or_probe evs').
  { destruct r; cbn [negb].
    - exists []. rewrite app_nil_r. split; [reflexivity|constructor].
    - eexists. zmq_eval. rewrite <- app_assoc.
      split; [reflexivity|]. constructor; [apply Hlog|constructor]. }
  destruct Hwarn as (evs' & Hwarn & Hevs').
  rewrite (try_except_step _ _ _ _ _ tt Hwarn).
  unfold requested_type in Hty.
  destruct (decide (lower socket_type = "req")) as [_|_]; [discriminate|].
  destruct (decide (lower socket_type = "sub")) as [_|_]; [discriminate|].
  destruct (decide (lower socket_type = "push")) as [_|_]; [discriminate|].
  zmq_eval. subst st1. zmq_eval.
  eexists. split.
  - rewrite <- !app_assoc. reflexivity.
  - repeat (apply Forall_app; split); try assumption;
      repeat (constructor; [apply Hlog|]); constructor.
Qed.

(** *** Receiving in parts *)

(** What a frame deserializes to, [None] standing for a frame that does
    not deserialize. *)
Definition decoded_or_none (c : config) (part : bytes) : pyval :=
  match deserialize_payload c part with
  | Ok v => v
  | Raise _ => PNone
  end.

Lemma deserialize_parts (parts : list bytes) :
  forall st,
    exists evs,
      mapM _deserialize_message parts st
      = (Ok (map (decoded_or_none (cfg st)) parts),
         set_trace (trace st ++ evs) st) /\
      Forall is_log evs.
Proof.
  induction parts as [|p parts IH]; intros st.
  - exists []. rewrite set_trace_id. split; [reflexivity|constructor].
  - cbn [mapM map]. rewrite run_bind, deserialize_message_run.
    unfold decoded_or_none at 1.
    destruct (deserialize_payload (cfg st) p) as [v|e]; cbn beta iota.
    + rewrite run_bind. destruct (IH st) as (evs & -> & Hevs).
      cbn beta iota. exists evs. split; [reflexivity|exact Hevs].
    + rewrite run_bind.
      destruct (IH (set_trace
                      (trace st ++ [Log ERROR "deserialization failed"]) st))
        as (evs & -> & Hevs).
      cbn beta iota. zmq_eval.
      exists (Log ERROR "deserialization failed" :: evs).
      split; [rewrite <- app_assoc; reflexivity|].
      constructor; [eexists _, _; reflexivity|exact Hevs].
Qed.

(** X19.  [receive_multipart_message] never raises.  It answers the empty
    list when the name is not registered, when the socket is closed and
    when no message is delivered; and for a delivered message it answers
    one value per frame, in order, with [None] in the place of each frame
    that does not deserialize, the other frames being kept. *)
Theorem receive_multipart_message_parts (name : string) (st : state) :
  (exists vs st', receive_multipart_message name st = (Ok vs, st')) /\
  (sockets st !! name = None ->
   (receive_multipart_message name st).1 = Ok []) /\
  (forall h,
      sockets st !! name = Some h ->
      (is_open h st = false ->
       (receive_multipart_message name st).1 = Ok []) /\
      ((forall parts, world st (trace st) (RecvMultipart h)
                      <> DeliversParts parts) ->
       (forall msg, world st (trace st) (RecvMultipart h) <> Delivers msg) ->
       (receive_multipart_message name st).1 = Ok []) /\
      (forall parts,
          is_open h st = true ->
          world st (trace st) (RecvMultipart h) = DeliversParts parts ->
          show_message_content (cfg st) = false ->
          (receive_multipart_message name st).1
          = Ok (map (decoded_or_none (cfg st)) parts))).
Proof.
  split; [|split].
  - unfold receive_multipart_message. rewrite run_try_except.
    match goal with
    | |- context [match ?m with _ => _ end] => destruct m as [[vs|e] st1]
    end; [eauto|]. destruct (is_again e); zmq_eval; eauto.
  - intros Hn. unfold receive_multipart_message. zmq_eval. rewrite Hn.
    zmq_eval. reflexivity.
  - intros h Hn.
    assert (Hraise : forall e,
               (sock_recv_multipart h st).1 = Raise e ->
               (receive_multipart_message name st).1 = Ok []).
    { intros e Hr. unfold receive_multipart_message. zmq_eval. rewrite Hn.
      zmq_eval.
      destruct (sock_recv_multipart h st) as [[ps|e'] st1]; cbn [fst] in Hr;
        [discriminate|].
      cbn beta iota. destruct (is_again e'); zmq_eval; reflexivity. }
    split; [|split].
    + intros Hc. apply (Hraise ZMQError).
      rewrite sock_recv_multipart_run, Hc. reflexivity.
    + intros Hparts Hmsg. destruct (is_open h st) eqn:Ho.
      * destruct (world st (trace st) (RecvMultipart h))
          as [|x|msg|ps|c] eqn:E;
          try (exfalso; exact (Hparts _ eq_refl));
          try (exfalso; exact (Hmsg _ eq_refl));
          eapply Hraise; rewrite sock_recv_multipart_run, Ho, E; reflexivity.
      * apply (Hraise ZMQError).
        rewrite sock_recv_multipart_run, Ho. reflexivity.
    + intros parts Ho Hw Hs. unfold receive_multipart_message. zmq_eval.
      rewrite Hn. zmq_eval. rewrite sock_recv_multipart_run, Ho, Hw.
      cbn beta iota. rewrite run_bind.
      destruct (deserialize_parts parts
                  (set_trace (trace st ++ [RecvMultipart h]) st))
        as (evs & -> & _).
      cbn beta iota. rewrite run_bind, log_message_quiet by exact Hs.
      zmq_eval. reflexivity.
Qed.

(** *** Client sockets on the default endpoint *)

Lemma endpoint_missing (endpoint : option string) (st : state) :
  endpoint = None \/ endpoint = Some "" ->
  endpoint_or_default endpoint st
  = (Ok (tcp_endpoint (default_host (cfg st)) (default_port (cfg st))), st).
Proof. intros [-> | ->]; reflexivity. Qed.

(** X20.  Given no endpoint, or the empty one, the client sockets go to
    the client's default host and port: [create_req_client],
    [create_sub_client] and [create_push_client] then do exactly what they
    do for the endpoint "tcp://default_host:default_port", which, when no
    library call fails, is to create the socket, connect it there and
    answer [True]. *)
Theorem client_sockets_default_endpoint (endpoint : option string)
  (name : string) (topics : list string) (st : state) :
  endpoint = None \/ endpoint = Some "" ->
  let target := tcp_endpoint (default_host (cfg st)) (default_port (cfg st)) in
  create_req_client endpoint name st = create_req_client (Some target) name st
  /\
  create_sub_client endpoint name topics st
  = create_sub_client (Some target) name topics st /\
  create_push_client endpoint name st
  = create_push_client (Some target) name st /\
  (cooperative st ->
   exists st' evs,
     create_req_client endpoint name st = (Ok true, st') /\
     trace st' = trace st ++ CtxSocket REQ (length (objects st)) :: evs /\
     In (Connect (length (objects st)) target) evs).
Proof.
  intros He target.
  assert (Hreq : create_req_client endpoint name st
                 = create_req_client (Some target) name st).
  { unfold create_req_client. rewrite !run_try_except, !run_bind.
    rewrite (endpoint_missing endpoint st He). unfold target.
    rewrite endpoint_given. reflexivity. }
  split; [exact Hreq|]. split; [|split].
  - unfold create_sub_client. rewrite !run_try_except, !run_bind.
    rewrite (endpoint_missing endpoint st He). unfold target.
    rewrite endpoint_given. reflexivity.
  - unfold create_push_client. rewrite !run_try_except, !run_bind.
    rewrite (endpoint_missing endpoint st He). unfold target.
    rewrite endpoint_given. reflexivity.
  - intros Hco. rewrite Hreq. unfold target.
    apply create_req_client_ok. exact Hco.
Qed.

(** *** From the publisher's frames to the subscriber's callback *)

(** X21.  The frames [create_ros_message] builds for a topic and a
    content, on a host of either byte order, delivered to a subscriber whose
    format is "bytes", which does not show message contents in its log and
    whose callback returns: the loop hands the third frame to the callback,
    logs no error and goes on, and that frame is the content's length in
    four little-endian bytes followed by bytes that decode, as UTF-8, to
    the content that was published. *)
Theorem published_content_reaches_callback (host : byteorder)
  (topic content : pystr) (frames : list bytes) (name : string)
  (callback : pyval -> res unit) (st : state) (h : handle) :
  RosMessage.create_ros_message host topic content = Some frames ->
  sockets st !! name = Some h ->
  is_open h st = true ->
  world st (trace st) (RecvMultipart h) = DeliversParts frames ->
  message_format (cfg st) = "bytes" ->
  show_message_content (cfg st) = false ->
  (forall v, callback v = Ok tt) ->
  exists payload,
    subscriber_iteration name callback st
    = (Ok Continue,
       set_trace (trace st ++ [RecvMultipart h;
                               Log DEBUG "multipart message received";
                               Callback (PBytes payload)]) st) /\
    Struct.uint_le (take 4 payload) = len (drop 4 payload) /\
    Utf8.decode (drop 4 payload) = Ok content.
Proof.
  intros Hmsg Hn Ho Hw Hf Hs Hcb.
  unfold RosMessage.create_ros_message, RosMessage.build_frames in Hmsg.
  destruct (Utf8.encode topic) as [tf|]; [|discriminate Hmsg].
  rewrite bind_Ok in Hmsg.
  destruct (Utf8.encode content) as [cb|] eqn:Ecb;
    [|rewrite bind_Raise in Hmsg; discriminate Hmsg].
  rewrite bind_Ok in Hmsg. unfold Struct.pack_le_I in Hmsg.
  destruct (len cb <? 2 ^ 32) eqn:Elen;
    [|rewrite bind_Raise in Hmsg; discriminate Hmsg].
  rewrite bind_Ok in Hmsg.
  remember (Struct.le32 (len cb) ++ cb) as payload eqn:Ep in Hmsg.
  assert (Hne : payload <> [])
    by (rewrite Ep; unfold Struct.le32; discriminate).
  destruct (Struct.pack_native_I host (len payload))
    as [lf|]; [|rewrite bind_Raise in Hmsg; discriminate Hmsg].
  rewrite bind_Ok in Hmsg.
  assert (Hfr : frames = [tf; lf; payload]) by (injection Hmsg as <-; reflexivity).
  clear Hmsg. subst frames.
  exists payload. split; [|split].
  - unfold subscriber_iteration. rewrite run_try_except, run_bind.
    rewrite (receive_multipart_bytes name h _ st Hn Ho Hw Hf Hs).
    cbn [map]. cbn beta iota.
    rewrite (usable_override_bytes _ Hne), (deliverable_bytes _ Hne).
    unfold invoke_callback. zmq_eval. rewrite Hcb. zmq_eval.
    rewrite <- app_assoc. reflexivity.
  - rewrite Ep, take_le32_app, drop_le32_app.
    apply uint_le_le32. apply N.ltb_lt. exact Elen.
  - rewrite Ep, drop_le32_app. apply decode_encode. exact Ecb.
Qed.

End ZMQCoverage.

(** ** More of the ROSBridge client *)

Section ROSCoverage.
Import ROS.

Ltac ros_eval :=
  repeat (first [run_core | rewrite ros_run_emit | rewrite ros_run_log
                | rewrite ros_run_call];
          cbn beta iota);
  cbn [host port connectivity_check_enabled auto_reconnect reconnect_interval
       max_reconnect_attempts subscribe_topics publish_topics client publishers
       subscribers running reconnect_count _publish_threads trace world
       set_trace set_client set_publishers set_subscribers set_running
       set_reconnect_count set_publish_threads].

(** No live connection: there is no client, or it is not connected. *)
Definition disconnected (st : state) : Prop :=
  client st = None \/ client st = Some false.

(** X15.  Without a live connection [subscribe_topic] and
    [create_publisher] refuse: they answer [False] and log an error, make
    no topic and leave the subscribers and publishers as they were. *)
Theorem topics_need_connection (topic_name message_type : string)
  (st : state) :
  disconnected st ->
  subscribe_topic topic_name message_type st
  = (Ok false,
     set_trace (trace st ++ [Log ERROR "not connected, cannot subscribe"]) st)
  /\
  create_publisher topic_name message_type st
  = (Ok false,
     set_trace (trace st ++ [Log ERROR "not connected, cannot advertise"]) st).
Proof.
  intros Hd. unfold subscribe_topic, create_publisher, is_connected.
  split; ros_eval; destruct Hd as [-> | ->]; cbn [negb]; ros_eval;
    reflexivity.
Qed.

Lemma connect_succeeds (st : state) :
  (forall tr, world st tr (RosConnect (host st) (port st)) = Succeeds) ->
  connect st
  = (Ok true,
     set_reconnect_count 0
       (set_trace (trace st ++ [Log DEBUG "connecting";
                                RosConnect (host st) (port st);
                                Log DEBUG "connected"])
          (set_client (Some true) st))).
Proof.
  intros Hw. unfold connect. ros_eval. rewrite Hw. ros_eval.
  rewrite <- !app_assoc. reflexivity.
Qed.

(** X16.  With the probe passing, the server accepting the connection and
    no topics configured, [start] connects once, waits one second and
    answers [True], with [running] set, the client connected and the
    reconnect count back at zero. *)
Theorem start_connects (stack : nat) (st : state) :
  probe_passes st ->
  (forall tr, world st tr (RosConnect (host st) (port st)) = Succeeds) ->
  subscribe_topics st = [] ->
  publish_topics st = [] ->
  exists st' checks,
    start (Datatypes.S stack) st = (Ok true, st') /\
    running st' = true /\
    client st' = Some true /\
    reconnect_count st' = 0%Z /\
    List.filter is_connect checks = [] /\
    trace st'
    = trace st ++ checks
      ++ [Log DEBUG "connecting"; RosConnect (host st) (port st);
          Log DEBUG "connected"; Sleep 1; Log DEBUG "client started"].
Proof.
  intros Hp Hw Hsub Hpub.
  destruct (check_passes st Hp) as (st1 & ev1 & Hrun1 & Htr1 & Hsame1 & Hc1 & _).
  destruct Hsame1 as (Hh1&Hp1&Hen1&Hau1&Hint1&Hmax1&Hrun1'&Hcnt1&Hw1).
  assert (Hsub1 : subscribe_topics st1 = []).
  { revert Hrun1. unfold check_network_connectivity. ros_eval.
    destruct (negb (connectivity_check_enabled st)); ros_eval.
    - intros [= <-]. exact Hsub.
    - destruct (world st _ _); ros_eval;
        try destruct (_ =? 0)%Z; ros_eval; intros [= <-]; exact Hsub. }
  assert (Hpub1 : publish_topics st1 = []).
  { revert Hrun1. unfold check_network_connectivity. ros_eval.
    destruct (negb (connectivity_check_enabled st)); ros_eval.
    - intros [= <-]. exact Hpub.
    - destruct (world st _ _); ros_eval;
        try destruct (_ =? 0)%Z; ros_eval; intros [= <-]; exact Hpub. }
  assert (Hw1' : forall tr, world st1 tr (RosConnect (host st1) (port st1))
                            = Succeeds).
  { intros tr. rewrite Hw1, Hh1, Hp1. apply Hw. }
  cbn [start]. rewrite run_bind, Hrun1. cbn beta iota. cbn [negb].
  rewrite run_bind, (connect_succeeds st1 Hw1'). cbn beta iota. cbn [negb].
  unfold start_connected, setup_configured_topics. ros_eval.
  rewrite Hsub1. cbn [mapM]. ros_eval.
  rewrite Hpub1. cbn [mapM]. ros_eval.
  rewrite Hpub1. cbn [mapM]. ros_eval.
  eexists _, ev1. split; [reflexivity|]. ros_eval.
  repeat split; try reflexivity; [exact Hc1|].
  rewrite Htr1, Hh1, Hp1, <- !app_assoc. reflexivity.
Qed.

(** X17.  When reconnecting is switched off, or the attempts already
    counted have reached [max_reconnect_attempts], a failed connection ends
    [start] at once: one connection attempt, no sleep, the answer [False],
    and the count and [running] as they were. *)
Theorem start_gives_up (stack : nat) (st : state) :
  probe_passes st -> never_connects st ->
  auto_reconnect st = false \/
  (max_reconnect_attempts st <= reconnect_count st)%Z ->
  exists st' new,
    start (Datatypes.S stack) st = (Ok false, st') /\
    trace st' = trace st ++ new /\
    length (List.filter is_connect new) = 1%nat /\
    List.filter is_sleep new = [] /\
    reconnect_count st' = reconnect_count st /\
    running st' = running st.
Proof.
  intros Hp Hn Hoff.
  destruct (check_passes st Hp) as (st1 & ev1 & Hrun1 & Htr1 & Hsame1 & Hc1 & Hs1).
  assert (Hn1 : never_connects st1).
  { unfold never_connects. destruct Hsame1 as (_&_&_&_&_&_&_&_&->). exact Hn. }
  destruct (connect_fails st1 Hn1) as (st2 & ev2 & Hrun2 & Htr2 & Hsame2 & Hc2 & Hs2).
  destruct Hsame1 as (Hh1&Hp1&Hen1&Hau1&Hint1&Hmax1&Hrun1'&Hcnt1&Hw1).
  destruct Hsame2 as (Hh2&Hp2&Hen2&Hau2&Hint2&Hmax2&Hrun2'&Hcnt2&Hw2).
  cbn [start]. rewrite run_bind, Hrun1. cbn beta iota. cbn [negb].
  rewrite run_bind, Hrun2. cbn beta iota. cbn [negb]. ros_eval.
  rewrite Hau2, Hau1, Hcnt2, Hcnt1, Hmax2, Hmax1.
  replace (auto_reconnect st
           && (reconnect_count st <? max_reconnect_attempts st)%Z)
    with false.
  - ros_eval. exists st2, (ev1 ++ ev2). split; [reflexivity|].
    split; [rewrite Htr2, Htr1, <- app_assoc; reflexivity|].
    split; [rewrite List.filter_app, length_app, Hc1, Hc2; reflexivity|].
    split; [rewrite List.filter_app, Hs1, Hs2; reflexivity|].
    split; congruence.
  - symmetry. destruct Hoff as [-> | Hle]; [reflexivity|].
    apply andb_false_iff. right. apply Z.ltb_ge. exact Hle.
Qed.

End ROSCoverage.

(** ** More of the frequency controller *)

Section FrequencyCoverage.
Import FrequencyController.

(** The clock readings at which a run of calls answers true. *)
Fixpoint accepted (fc : t) (nows : list float) : list float :=
  match nows with
  | [] => []
  | now :: rest =>
      let r := should_process now fc in
      if r.1 then now :: accepted r.2 rest else accepted r.2 rest
  end.

(** Each reading is at least [gap] after the one before it, [prev]
    being before the first. *)
Fixpoint spaced (gap prev : float) (l : list float) : Prop :=
  match l with
  | [] => True
  | a :: r => PrimFloat.leb gap (PrimFloat.sub a prev) = true /\ spaced gap a r
  end.

(** X18.  Over any run of calls, a controller whose interval is not
    positive lets every call through, and one with a positive interval
    lets through only calls at least the interval apart: each accepted
    reading is no less than [interval] after the accepted reading before
    it (after [last_time] for the first). *)
Theorem accepted_calls_spaced (fc : t) (nows : list float) :
  (PrimFloat.leb (interval fc) 0 = true -> accepted fc nows = nows) /\
  (PrimFloat.leb (interval fc) 0 = false ->
   spaced (interval fc) (last_time fc) (accepted fc nows)).
Proof.
  split; intros Hi.
  - induction nows as [|now rest IH]; [reflexivity|].
    cbn [accepted]. unfold should_process. rewrite Hi. cbn [fst snd].
    rewrite IH. reflexivity.
  - revert fc Hi. induction nows as [|now rest IH]; intros fc Hi;
      [exact I|].
    cbn [accepted]. unfold should_process. rewrite Hi.
    destruct (PrimFloat.leb (interval fc)
                (PrimFloat.sub now (last_time fc))) eqn:E; cbn [fst snd].
    + split; [exact E|]. apply (IH (fired now fc)). exact Hi.
    + apply IH. exact Hi.
Qed.

End FrequencyCoverage.

(** ** Closed examples for the properties above *)

Section CoverageExamples.
Import ZMQ.

Definition sample_payload : pyval :=
  PDict [(KStr (py "data"), PStr (py "zmq"));
         (KStr (py "seq"), PList [PInt 1; PInt (-2); PNone; PBool true])].

Lemma calm_cooperative (st : state) : world st = calm -> cooperative st.
Proof. intros Hw tr e x E. rewrite Hw in E. discriminate E. Qed.


(** The recursion limit at work: with room for two levels, a list nested
    three deep is neither written nor read. *)
Definition shallow_runtime : PyRuntime :=
  {| float_repr := float_repr (PyRuntime := example_runtime);
     float_of_literal := float_of_literal (PyRuntime := example_runtime);
     int_max_str_digits := 4300;
     py_str := fun _ => Ok [];
     dumps_depth := 2;
     loads_depth := 2 |}.

Lemma nested_too_deep :
  Json.dumps (H := shallow_runtime) (PList [PList [PList [PInt 1]]])
  = Raise RecursionError /\
  Json.loads (H := shallow_runtime) (py "[[[1]]]") = Raise RecursionError /\
  Json.loads (H := shallow_runtime) (py "[[1]]") = Ok (PList [PList [PInt 1]]) /\
  Json.loads (H := example_runtime) (py "[[[1]]]")
  = Ok (PList [PList [PList [PInt 1]]]).
Proof. vm_compute. repeat split; reflexivity. Qed.

Lemma codec_json_round_trip_witness :
  exists b,
    _serialize_message (H := example_runtime) sample_payload
      (client_with REQ "req_client" "json" calm)
    = (Ok b, client_with REQ "req_client" "json" calm) /\
    _deserialize_message (H := example_runtime) b
      (client_with REQ "req_client" "json" calm)
    = (Ok sample_payload, client_with REQ "req_client" "json" calm).
Proof.
  eexists.
  apply (codec_json_round_trip (H := example_runtime)
           (client_with REQ "req_client" "json" calm) sample_payload);
    [discriminate | discriminate | vm_compute; reflexivity
    | vm_compute; lia | vm_compute; reflexivity].
Defined.

Lemma send_message_nothing_sent_witness :
  send_message (H := example_runtime) "req_client" (PStr [])
    (client_with REQ "req_client" "string" calm)
  = (Ok false, client_with REQ "req_client" "string" calm).
Proof.
  apply (proj2 (send_message_nothing_sent (H := example_runtime) "req_client"
                  (PStr []) (client_with REQ "req_client" "string" calm)
                  (or_intror (fun b (E : Ok [] = Ok b) =>
                                match E in _ = r
                                      return match r with
                                             | Ok b' => b' = []
                                             | Raise _ => True
                                             end
                                with eq_refl => eq_refl end)))
           0%nat eq_refl eq_refl).
Defined.

Lemma send_message_sends_serialization_witness :
  send_message (H := example_runtime) "req_client" (PInt 1)
    (client_with REQ "req_client" "json" calm)
  = (Ok true,
     set_trace [Send 0 (map b8 (py "1")); Log DEBUG "message sent"]
       (client_with REQ "req_client" "json" calm)).
Proof.
  apply (send_message_sends_serialization (H := example_runtime) "req_client"
           0%nat (PInt 1) (map b8 (py "1"))
           (client_with REQ "req_client" "json" calm));
    try reflexivity.
  vm_compute. discriminate.
Defined.

Lemma receive_message_returns_sent_witness :
  receive_message (H := example_runtime) "rep_server"
    (client_with REP "rep_server" "json" delivers_one)
  = (Ok (PInt 1),
     set_trace [Recv 0; Log DEBUG "message received"]
       (client_with REP "rep_server" "json" delivers_one)).
Proof.
  apply (receive_message_returns_sent (H := example_runtime)
           (with_format "json" idle_config) (with_format "json" idle_config)
           "rep_server" 0%nat (PInt 1) (map b8 (py "1"))
           (client_with REP "rep_server" "json" delivers_one));
    try reflexivity.
  split; [reflexivity|vm_compute; lia].
Defined.

Lemma create_then_close_witness :
  exists st1 st2,
    create_socket REQ (Some "req_client") (fresh_client calm)
    = (Ok (Some 0%nat), st1) /\
    close_socket "req_client" st1 = (Ok true, st2) /\
    sockets st2 = sockets (fresh_client calm) /\
    is_open 0 st2 = false.
Proof.
  destruct (create_then_close REQ "req_client" (fresh_client calm)
              ltac:(discriminate) eq_refl
              (calm_cooperative (fresh_client calm) eq_refl))
    as (st1 & st2 & H1 & H2 & H3 & H4 & _).
  exists st1, st2. repeat split; assumption.
Defined.

Lemma create_socket_unnamed_witness :
  exists st',
    create_socket REQ None (fresh_client calm) = (Ok (Some 0%nat), st') /\
    sockets st' = sockets (fresh_client calm) /\
    is_open 0 st' = true.
Proof.
  exact (create_socket_unnamed REQ None (fresh_client calm)
           (or_introl eq_refl) (calm_cooperative (fresh_client calm) eq_refl)).
Defined.

(** The context is out of sockets. *)
Definition refuses_sockets : list event -> event -> outcome :=
  fun _ e =>
    match e with
    | CtxSocket _ _ => Fails ZMQError
    | _ => Succeeds
    end.

Lemma create_socket_refused_witness :
  create_socket REQ (Some "req_client") (fresh_client refuses_sockets)
  = (Ok None,
     set_trace [CtxSocket REQ 0; Log ERROR "creating the socket failed"]
       (fresh_client refuses_sockets)).
Proof.
  exact (create_socket_refused REQ (Some "req_client")
           (fresh_client refuses_sockets) ZMQError eq_refl).
Defined.

Lemma connect_socket_endpoints_witness :
  exists ok st',
    connect_socket 0 "tcp://localhost:5555"
      (client_with REQ "req_client" "json" calm) = (Ok ok, st') /\
    NoDup (connected_endpoints st').
Proof.
  destruct (connect_socket_endpoints 0 "tcp://localhost:5555"
              (client_with REQ "req_client" "json" calm) (NoDup_nil_2 (A:=string)))
    as (ok & st' & H1 & H2 & _).
  exists ok, st'. split; assumption.
Defined.

Lemma loops_need_running_witness :
  subscriber_loop (H := example_runtime) "remote_sub" accept 1
    (fresh_client calm)
  = (Ok tt, set_trace [Log DEBUG "subscriber loop started";
                       Log DEBUG "subscriber loop stopped"]
              (fresh_client calm)).
Proof.
  exact (proj1 (loops_need_running (H := example_runtime) "remote_sub" accept
                  echo 0 (fresh_client calm) eq_refl)).
Defined.

Definition failing : pyval -> res unit := fun _ => Raise UserError.

Lemma idle_config_pauses (st : state) :
  message_processing_sleep (cfg st) = message_processing_sleep idle_config ->
  (forall tr e x, world st tr e <> Fails x) ->
  pauses st.
Proof.
  intros Hc Hw. split; [rewrite Hc; vm_compute; reflexivity|].
  intros tr x. apply Hw.
Qed.

Lemma subscriber_iteration_callback_raises_witness :
  subscriber_iteration (H := example_runtime) "remote_sub" failing
    (client_with SUB "remote_sub" "bytes" (delivers_triple (Struct.le32 7)))
  = (Ok Continue,
     set_trace [RecvMultipart 0; Log DEBUG "multipart message received";
                Callback (PBytes payload_frame);
                Log ERROR "subscriber loop error";
                Sleep 0x1.47ae147ae147bp-7]
       (client_with SUB "remote_sub" "bytes"
          (delivers_triple (Struct.le32 7)))).
Proof.
  apply (proj1 (proj2 (subscriber_iteration_callback_raises
                         (H := example_runtime) "remote_sub" failing
                         (client_with SUB "remote_sub" "bytes"
                            (delivers_triple (Struct.le32 7)))
                         [PBytes topic_frame; PBytes (Struct.le32 7);
                          PBytes payload_frame]
                         (PBytes payload_frame) UserError
                         eq_refl eq_refl eq_refl)) eq_refl).
  apply idle_config_pauses; [reflexivity|].
  intros tr e x. destruct e; discriminate.
Defined.

Lemma server_iteration_no_reply_witness :
  server_iteration (H := example_runtime) "pull_server" echo
    (client_with PULL "pull_server" "json" delivers_one)
  = (Ok Continue,
     set_trace [Recv 0; Log DEBUG "message received"; Handler (PInt 1)]
       (client_with PULL "pull_server" "json" delivers_one)).
Proof.
  apply (proj1 (server_iteration_no_reply (H := example_runtime)
                  "pull_server" echo
                  (client_with PULL "pull_server" "json" delivers_one)
                  0%nat (fresh_socket PULL) eq_refl eq_refl eq_refl)
           (PInt 1) (PInt 1));
    try reflexivity.
  discriminate.
Defined.

Lemma connect_to_remote_host_unsupported_witness :
  exists evs,
    connect_to_remote_host "10.10.12.233" 5555 "pub" None [] true
      (fresh_client calm)
    = (Ok false,
       set_trace evs
         (set_cfg (set_host_port_cfg "10.10.12.233" 5555 idle_config)
            (fresh_client calm))).
Proof.
  destruct (connect_to_remote_host_unsupported "10.10.12.233" 5555 "pub" None
              [] true (fresh_client calm) eq_refl) as (evs & E & _).
  exists evs. exact E.
Defined.

(** A server that accepts the probe and the connection. *)
Definition reachable_server : ROS.state :=
  {| ROS.host := "localhost"; ROS.port := 9090;
     ROS.connectivity_check_enabled := true;
     ROS.auto_reconnect := true;
     ROS.reconnect_interval := 5;
     ROS.max_reconnect_attempts := 5;
     ROS.subscribe_topics := []; ROS.publish_topics := [];
     ROS.client := None; ROS.publishers := []; ROS.subscribers := [];
     ROS.running := false; ROS.reconnect_count := 2;
     ROS._publish_threads := [];
     ROS.trace := [];
     ROS.world := fun _ _ => ROS.Succeeds |}.

Lemma topics_need_connection_witness :
  ROS.subscribe_topic "/server_time_now" "std_msgs/String" reachable_server
  = (Ok false,
     ROS.set_trace [ROS.Log ERROR "not connected, cannot subscribe"]
       reachable_server).
Proof.
  exact (proj1 (topics_need_connection "/server_time_now" "std_msgs/String"
                  reachable_server (or_introl eq_refl))).
Defined.

Lemma start_connects_witness :
  exists st',
    ROS.start 1 reachable_server = (Ok true, st') /\
    ROS.running st' = true /\
    ROS.reconnect_count st' = 0%Z.
Proof.
  destruct (start_connects 0 reachable_server
              (or_intror (fun _ _ _ => or_introl eq_refl))
              (fun _ => eq_refl) eq_refl eq_refl)
    as (st' & checks & H1 & H2 & _ & H4 & _).
  exists st'. repeat split; assumption.
Defined.

Lemma start_gives_up_witness :
  exists st' new,
    ROS.start 1 (unreachable_server 0) = (Ok false, st') /\
    ROS.trace st' = new /\
    length (List.filter is_connect new) = 1%nat /\
    List.filter is_sleep new = [].
Proof.
  destruct (start_gives_up 0 (unreachable_server 0) (or_introl eq_refl)
              (unreachable_server_never_connects 0)
              (or_intror (Z.le_refl 0)))
    as (st' & new & H1 & H2 & H3 & H4 & _).
  exists st', new. repeat split; assumption.
Defined.

Lemma client_sockets_default_endpoint_witness :
  create_req_client None "req_client" (fresh_client calm)
  = create_req_client (Some "tcp://localhost:5555") "req_client"
      (fresh_client calm).
Proof.
  exact (proj1 (client_sockets_default_endpoint None "req_client" []
                  (fresh_client calm) (or_introl eq_refl))).
Defined.

(** Any message parts the socket is asked for come back as [frames]. *)
Definition delivers_frames (frames : list bytes)
  : list event -> event -> outcome :=
  fun _ e =>
    match e with
    | RecvMultipart _ => DeliversParts frames
    | _ => Succeeds
    end.

Definition published_frames : list bytes :=
  [map b8 (py "/lb/rosbridge"); Struct.le32 9;
   Struct.le32 5 ++ map b8 (py "zmq_0")].

Lemma published_content_reaches_callback_witness :
  exists payload,
    subscriber_iteration (H := example_runtime) "remote_sub" accept
      (client_with SUB "remote_sub" "bytes" (delivers_frames published_frames))
    = (Ok Continue,
       set_trace [RecvMultipart 0; Log DEBUG "multipart message received";
                  Callback (PBytes payload)]
         (client_with SUB "remote_sub" "bytes"
            (delivers_frames published_frames))) /\
    Struct.uint_le (take 4 payload) = len (drop 4 payload) /\
    Utf8.decode (drop 4 payload) = Ok (py "zmq_0").
Proof.
  apply (published_content_reaches_callback (H := example_runtime)
           LittleEndian (py "/lb/rosbridge") (py "zmq_0") published_frames
           "remote_sub" accept
           (client_with SUB "remote_sub" "bytes"
              (delivers_frames published_frames)) 0%nat);
    reflexivity.
Defined.

End CoverageExamples.

(** ** [lbrosclient/logger.py]: the length limit of a log line *)

Module Logger.

(** The attribute the message formatting reads. *)
Record t : Type := {
  max_message_length : Z
}.

(** [s[:k]]: a negative [k] counts from the end, and nothing is left
    when it reaches before the start. *)
Definition slice_to (k : Z) (s : pystr) : pystr :=
  take (Z.to_nat (if (k <? 0)%Z then Z.of_nat (length s) + k else k)%Z) s.

(** [_format_message] on a [str]. *)
Definition _format_message (self : t) (message : pystr) : pystr :=
  if (max_message_length self <? Z.of_nat (length message))%Z then
    let truncated_length := (max_message_length self - 3)%Z in
    slice_to truncated_length message ++ py "..."
  else message.

(** [set_max_length] *)
Definition set_max_length (length : Z) (self : t) : t :=
  {| max_message_length := Z.max 10 length |}.

End Logger.

Section LoggerProofs.
Import Logger.

(** X22.  A message no longer than [max_message_length] is logged as it
    is.  A longer one is cut: with a limit of at least 3 it becomes its
    first [max_message_length - 3] characters followed by three dots, which
    is exactly [max_message_length] long; with a smaller limit the cut
    counts from the end of the message and the result is longer than the
    limit.  After [set_max_length], which raises any limit below 10 to 10,
    no formatted message exceeds the limit. *)
Theorem format_message_limit (self : t) (message : pystr) :
  let limit := max_message_length self in
  let size := Z.of_nat (length message) in
  ((size <= limit)%Z -> _format_message self message = message) /\
  ((limit < size)%Z -> (3 <= limit)%Z ->
   _format_message self message
   = take (Z.to_nat (limit - 3)) message ++ py "..." /\
   Z.of_nat (length (_format_message self message)) = limit) /\
  ((limit < size)%Z -> (limit < 3)%Z ->
   Z.of_nat (length (_format_message self message))
   = (Z.max 0 (size + limit - 3) + 3)%Z) /\
  (forall n,
      (Z.of_nat (length (_format_message (set_max_length n self) message))
       <= max_message_length (set_max_length n self))%Z).
Proof.
  intros limit size.
  assert (Hfits : (size <= limit)%Z -> _format_message self message = message).
  { intros Hle. unfold _format_message. fold limit. fold size.
    replace (limit <? size)%Z with false by (symmetry; apply Z.ltb_ge; lia).
    reflexivity. }
  assert (Hcut : forall s : t,
             (max_message_length s < size)%Z ->
             (3 <= max_message_length s)%Z ->
             _format_message s message
             = take (Z.to_nat (max_message_length s - 3)) message ++ py "..." /\
             Z.of_nat (length (_format_message s message))
             = max_message_length s).
  { intros s Hlt H3. unfold _format_message. fold size.
    replace (max_message_length s <? size)%Z with true
      by (symmetry; apply Z.ltb_lt; lia).
    cbv zeta. unfold slice_to.
    replace (max_message_length s - 3 <? 0)%Z with false
      by (symmetry; apply Z.ltb_ge; lia).
    split; [reflexivity|].
    rewrite length_app, length_take. change (length (py "...")) with 3%nat.
    unfold size in Hlt. lia. }
  split; [exact Hfits|]. split; [apply Hcut|]. split.
  - intros Hlt H3. unfold _format_message. fold limit. fold size.
    replace (limit <? size)%Z with true by (symmetry; apply Z.ltb_lt; lia).
    cbv zeta. unfold slice_to.
    replace (limit - 3 <? 0)%Z with true by (symmetry; apply Z.ltb_lt; lia).
    rewrite length_app, length_take. change (length (py "...")) with 3%nat.
    fold size. lia.
  - intros n.
    destruct (Z_le_gt_dec size (max_message_length (set_max_length n self)))
      as [Hle|Hgt].
    + unfold _format_message. fold size.
      replace (max_message_length (set_max_length n self) <? size)%Z
        with false by (symmetry; apply Z.ltb_ge; lia).
      fold size. exact Hle.
    + destruct (Hcut (set_max_length n self)) as [_ ->];
        [lia|cbn [set_max_length max_message_length]; lia|lia].
Qed.

End LoggerProofs.
